(** * daily_trader: scoring, ranking and budget allocation

    A shallow embedding of [src/daily_trader.py] (ScoreEngine, Ranker,
    BudgetAllocator and the command line) together with the properties the
    specification states about them.

    Layout:
    - [Binary64]: Python and numpy floats, that is IEEE-754 binary64 with
      round to nearest even, as exact rationals with explicit rounding;
    - [Py]: what the program uses of the Python run time (exceptions, true
      division, [round]);
    - [ScoreEngine], [Ranker], [BudgetAllocator], [Cli]: the program, with
      the calls into [ta], [pandas] and the data provider as parameters;
    - [Spec]: the vocabulary of the specification;
    - [Machine]: the bridge from the processor's floats to [Binary64];
    - the facts, one module per component: [Binary64Facts], [PyFacts],
      [MachineFacts], [ScoreEngineFacts], [RankerFacts],
      [BudgetAllocatorFacts]. *)

From Stdlib Require Import ZArith QArith Qround Qabs Qpower Qreduction.
From Stdlib Require Import Lia Lqa Bool List.
From Stdlib Require String Ascii.
From Stdlib Require Import Permutation Sorted.
From Stdlib Require PrimFloat FloatOps SpecFloat Uint63 Qcanon.
From Stdlib Require DecimalString.
Import ListNotations.

Set Implicit Arguments.

(* ================================================================== *)
(** * IEEE-754 binary64 *)
(* ================================================================== *)

Module Binary64.

Local Open Scope Q_scope.

(** A float is NaN, a signed infinity, or a finite value given by its sign
    bit and its magnitude: [Fin s m] denotes [(-1)^s * |m|], and
    [Fin true 0] is the negative zero.  The magnitude of a value produced by
    an operation is always a canonical ([Qred]), non-negative binary64
    number. *)
Inductive float : Type :=
| NaN
| Inf (neg : bool)
| Fin (neg : bool) (mag : Q).

Definition pow2 (e : Z) : Q := (2 ^ e)%Q.

(** [ilog2 q] is the binary exponent of a positive rational:
    [2 ^ ilog2 q <= q < 2 ^ (ilog2 q + 1)]. *)
Definition ilog2 (q : Q) : Z :=
  let d := (Z.log2 (Qnum q) - Z.log2 (Zpos (Qden q)))%Z in
  if Qle_bool (pow2 d) q then d else (d - 1)%Z.

(** Exponent of the unit in the last place: 53 significant bits, with the
    subnormal floor at [2^-1074]. *)
Definition ulp_exp (q : Q) : Z := Z.max (ilog2 q - 52) (-1074).

(** Nearest integer, ties to the even one. *)
Definition round_half_even (q : Q) : Z :=
  let f := Qfloor q in
  match Qcompare (q - inject_Z f) (1 # 2) with
  | Lt => f
  | Gt => (f + 1)%Z
  | Eq => if Z.even f then f else (f + 1)%Z
  end.

(** [rnd s q]: the binary64 value nearest to [(-1)^s * |q|].  Results at
    or above [2^1024] overflow to the infinity of that sign; results below
    half the least subnormal underflow to the zero of that sign. *)
Definition rnd (neg : bool) (q : Q) : float :=
  let q := Qred (Qabs q) in
  if Qle_bool q 0 then Fin neg 0 else
  let E := ulp_exp q in
  let r := Qred (inject_Z (round_half_even (q / pow2 E)) * pow2 E) in
  if Qle_bool (pow2 1024) r then Inf neg else Fin neg r.

(** The float nearest to a rational: how a decimal literal is read. *)
Definition lit (q : Q) : float := rnd (negb (Qle_bool 0 q)) q.

(** Conversion of a Python [int]. *)
Definition of_int (z : Z) : float := lit (inject_Z z).

Definition sval (neg : bool) (m : Q) : Q :=
  if neg then - Qabs m else Qabs m.

(** The exact value of a finite float. *)
Definition value (x : float) : option Q :=
  match x with
  | Fin s m => Some (sval s m)
  | _ => None
  end.

Definition is_nan (x : float) : bool :=
  match x with NaN => true | _ => false end.

Definition is_zero (x : float) : bool :=
  match x with Fin _ m => Qeq_bool m 0 | _ => false end.

Definition is_finite (x : float) : bool :=
  match x with Fin _ _ => true | _ => false end.

(** A finite float is a binary64 number when rounding leaves it alone. *)
Definition representable (x : float) : Prop :=
  match x with
  | Fin s m => rnd s m = Fin s m
  | _ => True
  end.

Definition fopp (x : float) : float :=
  match x with
  | NaN => NaN
  | Inf s => Inf (negb s)
  | Fin s m => Fin (negb s) m
  end.

Definition fabs (x : float) : float :=
  match x with
  | NaN => NaN
  | Inf _ => Inf false
  | Fin _ m => Fin false m
  end.

Definition fadd (x y : float) : float :=
  match x, y with
  | NaN, _ | _, NaN => NaN
  | Inf s1, Inf s2 => if Bool.eqb s1 s2 then Inf s1 else NaN
  | Inf s, Fin _ _ | Fin _ _, Inf s => Inf s
  | Fin s1 m1, Fin s2 m2 =>
      let v := sval s1 m1 + sval s2 m2 in
      match Qcompare v 0 with
      | Eq => Fin (s1 && s2) 0
      | Lt => rnd true v
      | Gt => rnd false v
      end
  end.

Definition fsub (x y : float) : float := fadd x (fopp y).

Definition fmul (x y : float) : float :=
  match x, y with
  | NaN, _ | _, NaN => NaN
  | Inf s1, Inf s2 => Inf (xorb s1 s2)
  | Inf s1, Fin s2 m | Fin s2 m, Inf s1 =>
      if Qeq_bool m 0 then NaN else Inf (xorb s1 s2)
  | Fin s1 m1, Fin s2 m2 => rnd (xorb s1 s2) (m1 * m2)
  end.

(** IEEE division, as numpy performs it: a zero divisor gives an infinity
    or NaN, never an exception. *)
Definition fdiv (x y : float) : float :=
  match x, y with
  | NaN, _ | _, NaN => NaN
  | Inf _, Inf _ => NaN
  | Inf s1, Fin s2 _ => Inf (xorb s1 s2)
  | Fin s1 _, Inf s2 => Fin (xorb s1 s2) 0
  | Fin s1 m1, Fin s2 m2 =>
      if Qeq_bool m2 0
      then (if Qeq_bool m1 0 then NaN else Inf (xorb s1 s2))
      else rnd (xorb s1 s2) (m1 / m2)
  end.

(** Ordering of two floats; [None] when either is NaN. *)
Definition fcompare (x y : float) : option comparison :=
  match x, y with
  | NaN, _ | _, NaN => None
  | Inf s1, Inf s2 =>
      Some (match s1, s2 with
            | true, false => Lt | false, true => Gt | _, _ => Eq end)
  | Inf s, Fin _ _ => Some (if s then Lt else Gt)
  | Fin _ _, Inf s => Some (if s then Gt else Lt)
  | Fin s1 m1, Fin s2 m2 => Some (Qcompare (sval s1 m1) (sval s2 m2))
  end.

Definition flt (x y : float) : bool :=
  match fcompare x y with Some Lt => true | _ => false end.
Definition fle (x y : float) : bool :=
  match fcompare x y with Some Lt | Some Eq => true | _ => false end.
Definition fgt (x y : float) : bool := flt y x.
Definition fge (x y : float) : bool := fle y x.
Definition feq (x y : float) : bool :=
  match fcompare x y with Some Eq => true | _ => false end.

End Binary64.

(* ================================================================== *)
(** * The Python run time *)
(* ================================================================== *)

Module Py.

Import Binary64.
Local Open Scope Q_scope.

Inductive exn : Type :=
| ZeroDivisionError
| IndexError
| Exception (msg : String.string).

(** The outcome of evaluating an expression: a value or a raised exception. *)
Inductive result (A : Type) : Type :=
| Ok (a : A)
| Raise (e : exn).
Arguments Ok {A} a.
Arguments Raise {A} e.

Definition rbind {A B} (r : result A) (k : A -> result B) : result B :=
  match r with
  | Ok a => k a
  | Raise e => Raise e
  end.

(** [series.iloc[-k]] for [1 <= k]: the [k]-th element from the end. *)
Definition iloc_neg (k : nat) (s : list float) : result float :=
  if (k <=? length s)%nat
  then Ok (nth (length s - k) s NaN)
  else Raise IndexError.

Definition pow10 (ndigits : nat) : Q := inject_Z (10 ^ Z.of_nat ndigits).

(** [round(x, ndigits)] of a float, for [ndigits >= 0]: the exact value of
    [x] is rounded to [ndigits] decimals, ties to even, and the decimal is
    read back as the nearest float.  NaN and the infinities are returned
    as they are.  A binary64 number too large to have a fractional part is
    its own rounding, so the [OverflowError] of the read-back cannot
    occur. *)
Definition round (x : float) (ndigits : nat) : float :=
  match x with
  | Fin s m =>
      let p := pow10 ndigits in
      rnd s (inject_Z (round_half_even (Qabs m * p)) / p)
  | _ => x
  end.

(** Computations of the allocator: an exception or a value, together with
    the divisors of the true divisions [x / y] evaluated on the way, in
    order of evaluation. *)
Definition M (A : Type) : Type := (list float * result A)%type.

Definition ret {A} (a : A) : M A := ([], Ok a).

Definition bind {A B} (m : M A) (k : A -> M B) : M B :=
  match m with
  | (log, Ok a) => let '(log', r) := k a in (log ++ log', r)
  | (log, Raise e) => (log, Raise e)
  end.

(** [x / y] on Python floats: [ZeroDivisionError] when [y] is a zero. *)
Definition truediv (x y : float) : M float :=
  ([y], if is_zero y then Raise ZeroDivisionError else Ok (fdiv x y)).

Definition divisors {A} (m : M A) : list float := fst m.
Definition outcome {A} (m : M A) : result A := snd m.

End Py.

Declare Scope py_scope.
Delimit Scope py_scope with py.
Notation "x <- m ;; k" := (Py.bind m (fun x => k))
  (at level 61, m at next level, right associativity) : py_scope.
Notation "'try!' x <- m ;; k" := (Py.rbind m (fun x => k))
  (at level 61, x name, m at next level, right associativity) : py_scope.

(* ================================================================== *)
(** * ScoreEngine: [compute_score] *)
(* ================================================================== *)

Module ScoreResult.
Record t : Type := mk {
  score : Binary64.float;
  momentum_10d : Binary64.float;
  rsi : Binary64.float;
  sma20 : Binary64.float;
  sma50 : Binary64.float;
  price : Binary64.float
}.
End ScoreResult.

Module ScoreEngine.

Import Binary64 Py.
Local Open Scope Q_scope.
Local Open Scope py_scope.

(** The indicator calls [compute_score] makes into [ta] and [pandas], each
    on the column of closes.  Any of them may raise:
    - [rsi_last close] is [RSIIndicator(close, window=14).rsi().iloc[-1]];
    - [rolling_mean_last w close] is [close.rolling(w).mean().iloc[-1]];
    - [pct_change_last close] is [close.pct_change(1).iloc[-1]]. *)
Record Library : Type := {
  rsi_last : list float -> result float;
  rolling_mean_last : nat -> list float -> result float;
  pct_change_last : list float -> result float
}.

Section Score.

Variable L : Library.

(** The [try] block of [compute_score]; the price series is the column
    [df["Close"].astype(float)]. *)
Definition score_body (close : list float) : result (option ScoreResult.t) :=
  if (length close <? 20)%nat then Ok None else
  try! momentum_10d <-
    (if (10 <=? length close)%nat
     then try! last <- iloc_neg 1 close ;;
          try! back <- iloc_neg 10 close ;;
          Ok (fsub (fdiv last back) (of_int 1))
     else Ok (lit 0)) ;;
  let rsi :=
    match rsi_last L close with
    | Ok r => if is_nan r then lit 50 else r
    | Raise _ => lit 50
    end in
  try! smas <-
    (match
       (try! sma20 <- (if (20 <=? length close)%nat
                       then rolling_mean_last L 20 close
                       else iloc_neg 1 close) ;;
        try! sma50 <- (if (50 <=? length close)%nat
                       then rolling_mean_last L 50 close
                       else iloc_neg 1 close) ;;
        Ok (sma20, sma50))
     with
     | Ok p => Ok p
     | Raise _ =>
         try! sma20 <- iloc_neg 1 close ;;
         try! sma50 <- iloc_neg 1 close ;;
         Ok (sma20, sma50)
     end) ;;
  let '(sma20, sma50) := smas in
  let score := lit 0 in
  let score := fadd score (fmul momentum_10d (lit 10)) in
  let score :=
    if flt rsi (of_int 30) then fadd score (lit (8 # 10))
    else if fle (of_int 40) rsi && fle rsi (of_int 70)
         then fadd score (lit (7 # 10))
    else if fgt rsi (of_int 75) then fsub score (lit (8 # 10))
    else score in
  let score :=
    if fgt sma20 sma50 then fadd score (lit (8 # 10))
    else fsub score (lit (2 # 10)) in
  let score :=
    match pct_change_last L close with
    | Ok recent_change =>
        if negb (is_nan recent_change)
        then fadd score (fmul recent_change (lit 5))
        else score
    | Raise _ => score
    end in
  try! price <- iloc_neg 1 close ;;
  Ok (Some (ScoreResult.mk score momentum_10d rsi sma20 sma50 price)).

(** [compute_score]: the outer handler turns any exception into [None]. *)
Definition compute_score (close : list float) : option ScoreResult.t :=
  match score_body close with
  | Ok r => r
  | Raise _ => None
  end.

End Score.

(** ** pandas and ta

    The indicator calls as the installed libraries compute them, on a
    column of binary64 closes. *)

(** The sign bit of a float that is not NaN. *)
Definition signbit (x : float) : bool :=
  match x with
  | NaN => false
  | Inf s => s
  | Fin s _ => s
  end.

(** The rolling and exponentially weighted windows of pandas first replace
    the infinities by NaN. *)
Definition prep_values (s : list float) : list float :=
  map (fun v => match v with Inf _ => NaN | _ => v end) s.

(** *** [Series.rolling(w).mean()]

    pandas slides the window over the series and keeps one running sum,
    with Kahan compensation, from which it takes out the value that leaves
    the window and to which it adds the value that enters.  This is the
    state of its [roll_mean]. *)
Record mean_state : Type := {
  nobs : Z;
  sum_x : float;
  neg_ct : Z;
  compensation_add : float;
  compensation_remove : float;
  num_consecutive_same_value : Z;
  prev_value : float
}.

Definition add_mean (val : float) (st : mean_state) : mean_state :=
  if feq val val then
    let y := fsub val (compensation_add st) in
    let t := fadd (sum_x st) y in
    {| nobs := nobs st + 1;
       sum_x := t;
       neg_ct := if signbit val then neg_ct st + 1 else neg_ct st;
       compensation_add := fsub (fsub t (sum_x st)) y;
       compensation_remove := compensation_remove st;
       num_consecutive_same_value :=
         if feq val (prev_value st)
         then num_consecutive_same_value st + 1 else 1;
       prev_value := val |}
  else st.

Definition remove_mean (val : float) (st : mean_state) : mean_state :=
  if feq val val then
    let y := fsub (fopp val) (compensation_remove st) in
    let t := fadd (sum_x st) y in
    {| nobs := nobs st - 1;
       sum_x := t;
       neg_ct := if signbit val then neg_ct st - 1 else neg_ct st;
       compensation_add := compensation_add st;
       compensation_remove := fsub (fsub t (sum_x st)) y;
       num_consecutive_same_value := num_consecutive_same_value st;
       prev_value := prev_value st |}
  else st.

(** The mean of the window: the value itself when the window repeats one
    value, and never of the wrong sign. *)
Definition calc_mean (minp : Z) (st : mean_state) : float :=
  if ((minp <=? nobs st) && (0 <? nobs st))%Z then
    let result := fdiv (sum_x st) (of_int (nobs st)) in
    if (nobs st <=? num_consecutive_same_value st)%Z then prev_value st
    else if (neg_ct st =? 0)%Z && flt result (of_int 0) then of_int 0
    else if (neg_ct st =? nobs st)%Z && fgt result (of_int 0) then of_int 0
    else result
  else NaN.

(** The window that ends at row [i] starts at row [max(0, i + 1 - w)]. *)
Definition window_start (w i : nat) : nat := (i + 1 - w)%nat.

(** The state when the window is set up afresh at row [s]. *)
Definition fresh_mean (values : list float) (s : nat) : mean_state :=
  {| nobs := 0; sum_x := of_int 0; neg_ct := 0;
     compensation_add := of_int 0; compensation_remove := of_int 0;
     num_consecutive_same_value := 0;
     prev_value := nth s values NaN |}.

(** Row [i] of [roll_mean]: a fresh window at the first row and when the
    window has nothing in common with the one before, otherwise the rows
    that left are taken out and the rows that entered are added. *)
Definition roll_mean_step (w : nat) (values : list float)
    (st : mean_state) (i : nat) : mean_state :=
  let s := window_start w i in
  let add st j := add_mean (nth j values NaN) st in
  let remove st j := remove_mean (nth j values NaN) st in
  if (i =? 0)%nat || (i <=? s)%nat
  then fold_left add (seq s (S i - s)) (fresh_mean values s)
  else
    let s' := window_start w (i - 1) in
    fold_left add (seq i 1) (fold_left remove (seq s' (s - s')) st).

(** [close.rolling(w).mean().iloc[-1]], with [min_periods] at its default,
    the width of the window. *)
Definition pandas_rolling_mean_last (w : nat) (s : list float) : result float :=
  match s with
  | [] => Raise IndexError
  | _ =>
      let values := prep_values s in
      Ok (calc_mean (Z.of_nat w)
            (fold_left (roll_mean_step w values) (seq 0 (length values))
               (fresh_mean values 0)))
  end.

(** *** [Series.pct_change(1)]

    On a series without NaN the one-period percent change is
    [close[-1] / close[-2] - 1], and NaN on a single row. *)
Definition pandas_pct_change_last (s : list float) : result float :=
  match rev s with
  | [] => Raise IndexError
  | [_] => Ok NaN
  | last :: prev :: _ => Ok (fsub (fdiv last prev) (of_int 1))
  end.

(** *** [Series.ewm(alpha=a, min_periods=m, adjust=False).mean()]

    The state of pandas' [ewm]: the weighted average, the weight of the
    old average, and the number of observations so far. *)
Definition ewm_step (old_wt_factor new_wt : float)
    (st : float * float * nat) (cur : float) : float * float * nat :=
  let '(weighted, old_wt, nobs) := st in
  let is_observation := feq cur cur in
  let nobs := if is_observation then S nobs else nobs in
  if feq weighted weighted then
    let old_wt := fmul old_wt old_wt_factor in
    if is_observation then
      let weighted :=
        if negb (feq weighted cur)
        then fdiv (fadd (fmul old_wt weighted) (fmul new_wt cur))
                  (fadd old_wt new_wt)
        else weighted in
      (weighted, of_int 1, nobs)
    else (weighted, old_wt, nobs)
  else if is_observation then (cur, old_wt, nobs)
  else (weighted, old_wt, nobs).

(** The last row of the mean; [None] on an empty series. *)
Definition pandas_ewm_mean_last (alpha : float) (min_periods : nat)
    (s : list float) : option float :=
  match prep_values s with
  | [] => None
  | first :: rest =>
      let com := fdiv (fsub (of_int 1) alpha) alpha in
      let alpha := fdiv (of_int 1) (fadd (of_int 1) com) in
      let old_wt_factor := fsub (of_int 1) alpha in
      let new_wt := alpha in
      let start := (first, of_int 1, if feq first first then 1%nat else 0%nat) in
      let '(weighted, _, nobs) :=
        fold_left (ewm_step old_wt_factor new_wt) rest start in
      Some (if (Nat.max min_periods 1 <=? nobs)%nat then weighted else NaN)
  end.

(** *** [Series.diff(1)] *)
Fixpoint diff_after (prev : float) (s : list float) : list float :=
  match s with
  | [] => []
  | x :: rest => fsub x prev :: diff_after x rest
  end.

Definition pandas_diff (s : list float) : list float :=
  match s with
  | [] => []
  | x :: rest => NaN :: diff_after x rest
  end.

(** *** [RSIIndicator(close, window=14).rsi().iloc[-1]]

    The indicator of [ta]: the gains and the losses of each row, their
    exponentially weighted means with [alpha = 1 / window], and
    [100 - 100 / (1 + gain / loss)], which is 100 where the mean loss is
    zero. *)
Definition ta_rsi_last (close : list float) : result float :=
  let window := 14%nat in
  let diff := pandas_diff close in
  let up_direction :=
    map (fun d => if fgt d (of_int 0) then d else lit 0) diff in
  let down_direction :=
    map (fun d => fopp (if flt d (of_int 0) then d else lit 0)) diff in
  let alpha := fdiv (of_int 1) (of_int (Z.of_nat window)) in
  match pandas_ewm_mean_last alpha window up_direction,
        pandas_ewm_mean_last alpha window down_direction with
  | Some emaup, Some emadn =>
      let relative_strength := fdiv emaup emadn in
      Ok (if feq emadn (of_int 0) then of_int 100
          else fsub (of_int 100)
                 (fdiv (of_int 100) (fadd (of_int 1) relative_strength)))
  | _, _ => Raise IndexError
  end.

(** pandas as above, with the RSI indicator left to the caller. *)
Definition pandas_with (rsi : list float -> result float) : Library :=
  {| rsi_last := rsi;
     rolling_mean_last := pandas_rolling_mean_last;
     pct_change_last := pandas_pct_change_last |}.

(** The libraries the program imports. *)
Definition installed : Library := pandas_with ta_rsi_last.

End ScoreEngine.

(* ================================================================== *)
(** * Ranker: [pick_top_symbols] *)
(* ================================================================== *)

(** [str.strip()] and [str.upper()] on ASCII text. *)
Module Text.

Import Ascii String.

Definition is_space (c : ascii) : bool :=
  let n := nat_of_ascii c in
  ((9 <=? n) && (n <=? 13) || (28 <=? n) && (n <=? 32))%nat.

Definition upper_char (c : ascii) : ascii :=
  let n := nat_of_ascii c in
  if ((97 <=? n) && (n <=? 122))%nat then ascii_of_nat (n - 32) else c.

Fixpoint upper (s : string) : string :=
  match s with
  | EmptyString => EmptyString
  | String c s' => String (upper_char c) (upper s')
  end.

Fixpoint lstrip (s : string) : string :=
  match s with
  | EmptyString => EmptyString
  | String c s' => if is_space c then lstrip s' else s
  end.

Fixpoint rev_onto (s acc : string) : string :=
  match s with
  | EmptyString => acc
  | String c s' => rev_onto s' (String c acc)
  end.

Definition reverse (s : string) : string := rev_onto s EmptyString.

Definition strip (s : string) : string :=
  reverse (lstrip (reverse (lstrip s))).

End Text.

(** A score dict after [score_obj.update({"symbol": s})]. *)
Module Pick.
Record t : Type := mk {
  symbol : String.string;
  score : Binary64.float;
  momentum_10d : Binary64.float;
  rsi : Binary64.float;
  sma20 : Binary64.float;
  sma50 : Binary64.float;
  price : Binary64.float
}.
End Pick.

Module Ranker.

Import Binary64 Py.

(** [score_obj.update({"symbol": s})]. *)
Definition with_symbol (s : String.string) (r : ScoreResult.t) : Pick.t :=
  Pick.mk s (ScoreResult.score r) (ScoreResult.momentum_10d r)
    (ScoreResult.rsi r) (ScoreResult.sma20 r) (ScoreResult.sma50 r)
    (ScoreResult.price r).

(** Two rows in the order [sort_values("score", ascending=False)] may leave
    them: the later score is not above the earlier one, and NaN scores come
    last ([na_position="last"]). *)
Definition desc (a b : Pick.t) : Prop :=
  flt (Pick.score a) (Pick.score b) = false /\
  (is_nan (Pick.score a) = true -> is_nan (Pick.score b) = true).

(** [DataFrame.sort_values("score", ascending=False)] as seen by its
    caller.  The call leaves [kind] at its default, "quicksort", which
    pandas documents as not stable: the rows come back rearranged and in
    descending order of score, and the order among rows of equal score
    belongs to the implementation.  [sorts_by_score sort] says that [sort]
    is such a function. *)
Definition sorts_by_score (sort : list Pick.t -> list Pick.t) : Prop :=
  forall rows, Permutation rows (sort rows) /\ StronglySorted desc (sort rows).

(** [precedes a b]: a row with the score of [a] must come before a row with
    the score of [b]. *)
Definition precedes (a b : Pick.t) : bool :=
  negb (is_nan (Pick.score a)) && is_nan (Pick.score b)
  || flt (Pick.score b) (Pick.score a).

(** Insertion sorts.  [lead x y] decides whether the row [x], taken from
    the left of the rows already sorted, goes in front of [y]. *)
Fixpoint insert_row (lead : Pick.t -> Pick.t -> bool) (x : Pick.t)
    (rows : list Pick.t) : list Pick.t :=
  match rows with
  | [] => [x]
  | y :: rest => if lead x y then x :: rows else y :: insert_row lead x rest
  end.

Definition insertion_sort (lead : Pick.t -> Pick.t -> bool)
    (rows : list Pick.t) : list Pick.t :=
  fold_right (insert_row lead) [] rows.

(** Rows of equal score keep the order they came in. *)
Definition stable_sort : list Pick.t -> list Pick.t :=
  insertion_sort (fun x y => negb (precedes y x)).

(** [DataFrame.head(n)], that is [iloc[:n]]: the first [n] rows, and for a
    negative [n] all rows but the last [-n]. *)
Definition head {A} (n : Z) (rows : list A) : list A :=
  if (0 <=? n)%Z
  then firstn (Z.to_nat n) rows
  else firstn (length rows - Z.to_nat (- n)) rows.

(** ** The sort behind [sort_values]

    [sort_values] takes the rows at the positions that pandas' [nargsort]
    computes, and [nargsort] asks numpy for an [argsort] of kind
    "quicksort".  On float64 keys numpy hands that to the AVX-512 kernel of
    x86-simd-sort wherever it is built with it and the processor has the
    instructions; what follows is that kernel.  (A build without the
    vector kernels runs numpy's scalar quicksort, which sorts sixteen keys
    or fewer by insertion.) *)

(** One lane of a register: a key and the position it came from. *)
Definition lane : Type := (float * nat)%type.

(** The key of the lanes that hold no element. *)
Definition zmm_max : float := Inf false.

(** [_mm512_min_pd] and [_mm512_max_pd]: the first operand where it is
    strictly below (above) the second, else the second. *)
Definition min_pd (a b : float) : float := if flt a b then a else b.
Definition max_pd (a b : float) : float := if fgt a b then a else b.

(** [cmp_merge]: lane [l] meets lane [nth l other]; it keeps the larger of
    the two keys where [mask] is set and the smaller elsewhere, and it
    takes the position of the other lane unless the key it now holds
    equals the one it had. *)
Definition cmp_merge (other : list nat) (mask : list bool) (reg : list lane)
  : list lane :=
  map (fun '(l, (in1, indexes1)) =>
         let '(in2, indexes2) := nth (nth l other 0%nat) reg (zmm_max, 0%nat) in
         let tmp_keys :=
           if nth l mask false then max_pd in2 in1 else min_pd in2 in1 in
         (tmp_keys, if feq tmp_keys in1 then indexes1 else indexes2))
      (combine (seq 0 (length reg)) reg).

(** The lane each lane meets, from lane 0 up: the neighbour, the mirror
    image within its half, the mirror image, the lane two away. *)
Definition shuffle_1_1_1_1 : list nat := [1; 0; 3; 2; 5; 4; 7; 6]%nat.
Definition NETWORK_64BIT_1 : list nat := [3; 2; 1; 0; 7; 6; 5; 4]%nat.
Definition NETWORK_64BIT_2 : list nat := [7; 6; 5; 4; 3; 2; 1; 0]%nat.
Definition NETWORK_64BIT_3 : list nat := [2; 3; 0; 1; 6; 7; 4; 5]%nat.

(** The masks 0xAA, 0xCC and 0xF0, from lane 0 up. *)
Definition mask_AA : list bool :=
  [false; true; false; true; false; true; false; true].
Definition mask_CC : list bool :=
  [false; false; true; true; false; false; true; true].
Definition mask_F0 : list bool :=
  [false; false; false; false; true; true; true; true].

(** [sort_zmm_64bit]: the bitonic network on the eight lanes of one
    register. *)
Definition sort_zmm_64bit (reg : list lane) : list lane :=
  let reg := cmp_merge shuffle_1_1_1_1 mask_AA reg in
  let reg := cmp_merge NETWORK_64BIT_1 mask_CC reg in
  let reg := cmp_merge shuffle_1_1_1_1 mask_AA reg in
  let reg := cmp_merge NETWORK_64BIT_2 mask_F0 reg in
  let reg := cmp_merge NETWORK_64BIT_3 mask_CC reg in
  cmp_merge shuffle_1_1_1_1 mask_AA reg.

(** The argsort of at most eight keys: the keys are loaded with their
    positions [0 .. n-1]; the lanes behind them hold [zmm_max] and are not
    stored back. *)
Definition argsort_8_64bit (arr : list float) : list nat :=
  let n := length arr in
  let reg := combine (arr ++ repeat zmm_max (8 - n))
                     (seq 0 n ++ repeat 0%nat (8 - n)) in
  firstn n (map snd (sort_zmm_64bit reg)).

(** [numpy.argsort(kind="quicksort")] on keys without NaN.  More than eight
    keys take several registers and the merging networks between them, or
    the vectorised quicksort; [wide] stands for those. *)
Definition numpy_argsort (wide : list float -> list nat) (arr : list float)
  : list nat :=
  if (length arr <=? 8)%nat then argsort_8_64bit arr else wide arr.

(** pandas' [nargsort(items, kind, ascending=False, na_position="last")]:
    the keys that are not NaN are reversed, sorted in ascending order, and
    the positions found are reversed again; the positions of the NaN keys
    follow. *)
Definition nargsort (argsort : list float -> list nat) (items : list float)
  : list nat :=
  let mask i := is_nan (nth i items NaN) in
  let idx := seq 0 (length items) in
  let non_nan_idx := filter (fun i => negb (mask i)) idx in
  let nan_idx := filter mask idx in
  let non_nans := map (fun i => nth i items NaN) non_nan_idx in
  let sorter := argsort (rev non_nans) in
  rev (map (fun j => nth j (rev non_nan_idx) 0%nat) sorter) ++ nan_idx.

(** [DataFrame.sort_values("score", ascending=False)] over an [argsort]:
    the rows taken at the positions of [nargsort]. *)
Definition pandas_sort_values (argsort : list float -> list nat)
    (rows : list Pick.t) : list Pick.t :=
  match rows with
  | [] => []
  | first :: _ =>
      map (fun i => nth i rows first) (nargsort argsort (map Pick.score rows))
  end.

(** [sort_values] as installed. *)
Definition installed_sort (wide : list float -> list nat)
  : list Pick.t -> list Pick.t :=
  pandas_sort_values (numpy_argsort wide).

Section Ranker.

Variable L : ScoreEngine.Library.

(** [fetch_history(s, period="3mo")] followed by the selection of the
    column of closes: [None] when the provider has no data or fails. *)
Variable fetch_history : String.string -> option (list float).

(** [DataFrame.sort_values("score", ascending=False)]. *)
Variable sort_values : list Pick.t -> list Pick.t.

(** The loop over the universe, [results] being the list built so far. *)
Fixpoint scan (universe : list String.string) (results : list Pick.t)
  : list Pick.t :=
  match universe with
  | [] => results
  | sym :: rest =>
      let s := Text.upper (Text.strip sym) in
      match fetch_history s with
      | None => scan rest results
      | Some df =>
          match ScoreEngine.compute_score L df with
          | None => scan rest results
          | Some score_obj => scan rest (results ++ [with_symbol s score_obj])
          end
      end
  end.

Definition pick_top_symbols (universe : list String.string) (top_n : Z)
  : list Pick.t :=
  let results := scan universe [] in
  match results with
  | [] => []
  | _ => head top_n (sort_values results)
  end.

End Ranker.

End Ranker.

(* ================================================================== *)
(** * BudgetAllocator: [allocate_budget] *)
(* ================================================================== *)

Module Entry.
Record t : Type := mk {
  symbol : String.string;
  price : Binary64.float;
  score : Binary64.float;
  rsi : Binary64.float;
  allocation : Binary64.float;
  shares : Binary64.float;
  cost : Binary64.float;
  take_profit_price : Binary64.float;
  stop_loss_price : Binary64.float
}.
End Entry.

Module BudgetAllocator.

Import Binary64 Py.
Local Open Scope py_scope.

(** The body of [for p in picks], [plan] being the list built so far. *)
Fixpoint plan_loop (per take_profit_pct stop_loss_pct : float)
    (picks : list Pick.t) (plan : list Entry.t) : M (list Entry.t) :=
  match picks with
  | [] => ret plan
  | p :: rest =>
      let price := Pick.price p in
      shares <- truediv per price ;;
      let shares := round shares 4 in
      let cost := round (fmul shares price) 2 in
      let target_price :=
        round (fmul price (fadd (of_int 1) take_profit_pct)) 2 in
      let stop_price :=
        round (fmul price (fsub (of_int 1) stop_loss_pct)) 2 in
      plan_loop per take_profit_pct stop_loss_pct rest
        (plan ++ [Entry.mk (Pick.symbol p) price (Pick.score p) (Pick.rsi p)
                    (round per 2) shares cost target_price stop_price])
  end.

Definition allocate_budget (budget : float) (picks : list Pick.t)
    (take_profit_pct stop_loss_pct : float) : M (list Entry.t) :=
  let n := length picks in
  if (n =? 0)%nat then ret [] else
  per <- truediv budget (of_int (Z.of_nat n)) ;;
  plan_loop per take_profit_pct stop_loss_pct picks [].

End BudgetAllocator.

(* ================================================================== *)
(** * Configuration and command line *)
(* ================================================================== *)

Module Cli.

Import Binary64 Py.
Import String.
Local Open Scope py_scope.
Local Open Scope Q_scope.

(** The module-level constants read from the environment. *)
Record Config : Type := {
  UNIVERSE : list String.string;
  TOP_N : Z;
  TAKE_PROFIT_PCT : float;
  STOP_LOSS_PCT : float
}.

Definition default_config : Config :=
  {| UNIVERSE := ["AAPL"; "MSFT"; "AMZN"; "NVDA"; "TSLA"]%string;
     TOP_N := 3;
     TAKE_PROFIT_PCT := lit (10 # 100);
     STOP_LOSS_PCT := lit (5 # 100) |}.

End Cli.

(* ================================================================== *)
(** * The specification's vocabulary *)
(* ================================================================== *)

Module Spec.

Import Binary64 Py.
Local Open Scope Q_scope.

(** ** ScoreEngine *)

(** A contribution to the composite score; [None] contributes nothing. *)
Definition plus (score : float) (term : option float) : float :=
  match term with
  | Some v => fadd score v
  | None => score
  end.

(** The RSI bucket: [< 30] gives +0.8, [40 <= rsi <= 70] gives +0.7,
    [> 75] gives -0.8, anything else nothing. *)
Definition rsi_bucket (rsi : float) : option float :=
  if flt rsi (of_int 30) then Some (lit (8 # 10))
  else if fle (of_int 40) rsi && fle rsi (of_int 70) then Some (lit (7 # 10))
  else if fgt rsi (of_int 75) then Some (lit (- 8 # 10))
  else None.

(** The SMA relation: +0.8 when [sma20 > sma50], else -0.2. *)
Definition sma_bonus (sma20 sma50 : float) : float :=
  if fgt sma20 sma50 then lit (8 # 10) else lit (- 2 # 10).

(** The most recent one-day percent change times 5.0; nothing when the
    change is undefined. *)
Definition recent_term (L : ScoreEngine.Library) (close : list float)
  : option float :=
  match ScoreEngine.pct_change_last L close with
  | Ok change => if is_nan change then None else Some (fmul change (lit 5))
  | Raise _ => None
  end.

(** The additive composite, accumulated from 0.0: momentum times 10.0, the
    RSI bucket, the SMA relation and the recent change. *)
Definition composite_of (momentum_10d rsi sma20 sma50 : float)
    (recent : option float) : float :=
  plus
    (fadd
       (plus (fadd (lit 0) (fmul momentum_10d (lit 10))) (rsi_bucket rsi))
       (sma_bonus sma20 sma50))
    recent.

(** The latest close, and the close ten rows from the end. *)
Definition latest (close : list float) : float :=
  nth (length close - 1) close NaN.

Definition momentum (close : list float) : float :=
  fsub (fdiv (latest close) (nth (length close - 10) close NaN)) (of_int 1).

(** The RSI, or the neutral 50.0 when the indicator fails or gives NaN. *)
Definition rsi_or_neutral (L : ScoreEngine.Library) (close : list float)
  : float :=
  match ScoreEngine.rsi_last L close with
  | Ok r => if is_nan r then lit 50 else r
  | Raise _ => lit 50
  end.

(** SMA20 and SMA50: the rolling means, the latest close standing in for
    SMA50 below fifty rows, and for both when a rolling mean fails. *)
Definition smas (L : ScoreEngine.Library) (close : list float)
  : float * float :=
  match ScoreEngine.rolling_mean_last L 20 close,
        (if (50 <=? length close)%nat
         then ScoreEngine.rolling_mean_last L 50 close
         else Ok (latest close)) with
  | Ok sma20, Ok sma50 => (sma20, sma50)
  | _, _ => (latest close, latest close)
  end.

(** The ScoreResult of a series of at least twenty closes. *)
Definition expected (L : ScoreEngine.Library) (close : list float)
  : ScoreResult.t :=
  let m := momentum close in
  let rsi := rsi_or_neutral L close in
  let '(sma20, sma50) := smas L close in
  ScoreResult.mk (composite_of m rsi sma20 sma50 (recent_term L close))
    m rsi sma20 sma50 (latest close).

(** The RSI indicator has no value to offer: it raised, or gave NaN. *)
Definition undefined (r : result float) : Prop :=
  match r with
  | Ok x => is_nan x = true
  | Raise _ => True
  end.

(** Two finite floats within [tol] of each other. *)
Definition approx (tol : Q) (x y : float) : Prop :=
  match value x, value y with
  | Some a, Some b => Qabs (a - b) <= tol
  | _, _ => False
  end.

(** Scenario A: twenty closes of 100.0. *)
Definition flat_series : list float := repeat (lit 100) 20.

(** Twenty closes that rise by one dollar a day, from 100.0 to 119.0. *)
Definition rising_series : list float :=
  map (fun day => of_int (100 + Z.of_nat day)) (seq 0 20).

(** An RSI indicator with nothing to say, and pandas around it. *)
Definition silent_rsi (close : list float) : result float := Ok NaN.

Definition sample_library : ScoreEngine.Library :=
  ScoreEngine.pandas_with silent_rsi.

(** Scenario A as the specification words it: on the flat series the
    momentum is 0, the RSI the neutral 50.0, both averages 100, and the
    score about -0.2. *)
Definition scenario_A (L : ScoreEngine.Library) : Prop :=
  exists r,
    ScoreEngine.compute_score L flat_series = Some r /\
    ScoreResult.momentum_10d r = lit 0 /\
    ScoreResult.rsi r = lit 50 /\
    ScoreResult.sma20 r = lit 100 /\
    ScoreResult.sma50 r = lit 100 /\
    approx (1 # 100) (ScoreResult.score r) (lit (- 2 # 10)).

(** ** Ranker *)

Section Valid.

Variable L : ScoreEngine.Library.
Variable fetch_history : String.string -> option (list float).

(** The scored row of a symbol, when it has data and a score. *)
Definition scored (sym : String.string) : option Pick.t :=
  let s := Text.upper (Text.strip sym) in
  match fetch_history s with
  | Some df => option_map (Ranker.with_symbol s) (ScoreEngine.compute_score L df)
  | None => None
  end.

(** The valid results of a universe, in the order of the universe. *)
Definition valid_results (universe : list String.string) : list Pick.t :=
  flat_map (fun sym => match scored sym with Some p => [p] | None => [] end)
    universe.

(** Whether an entry of the universe gets a row: the provider has data
    under its normal form and the data can be scored. *)
Definition has_row (sym : String.string) : bool :=
  match scored sym with
  | Some _ => true
  | None => false
  end.

End Valid.

(** A provider that has the flat series for every symbol. *)
Definition sample_fetch (s : String.string) : option (list float) :=
  Some flat_series.

(** Small universes. *)
Module Universe.
Import String.
Definition two : list string := ["AAPL"; "MSFT"]%string.
Definition three : list string := ["AAPL"; "MSFT"; "AMZN"]%string.
Definition four : list string := ["AAPL"; "MSFT"; "AMZN"; "NVDA"]%string.
End Universe.

(** A provider that has the flat series for AAPL and MSFT and the rising
    series for every other symbol. *)
Definition mixed_fetch (s : String.string) : option (list float) :=
  if existsb (String.eqb s) Universe.two
  then Some flat_series
  else Some rising_series.

(** The Ranker's contract as the specification words it: the output has
    [min(top_n, count of valid results)] rows, sorted by score
    descending. *)
Definition ranker_claim : Prop :=
  forall L fetch_history sort universe top_n,
    Ranker.sorts_by_score sort ->
    let picks := Ranker.pick_top_symbols L fetch_history sort universe top_n in
    Z.of_nat (length picks) =
      Z.min top_n (Z.of_nat (length (valid_results L fetch_history universe))) /\
    StronglySorted Ranker.desc picks.

(** Rows whose score equals [v]. *)
Definition tied (v : float) (p : Pick.t) : bool := feq (Pick.score p) v.

(** The rows of [picks] tied at any one score are the first of the rows of
    [rows] tied at that score, in the same order. *)
Definition ties_keep_order (rows picks : list Pick.t) : Prop :=
  forall v, exists rest,
    filter (tied v) picks ++ rest = filter (tied v) rows.

(** The tie-break as the specification words it: symbols of equal score
    come out in the order of the universe. *)
Definition tie_break_claim : Prop :=
  forall wide L fetch_history universe top_n,
    ties_keep_order (valid_results L fetch_history universe)
      (Ranker.pick_top_symbols L fetch_history (Ranker.installed_sort wide)
         universe top_n).

(** ** BudgetAllocator *)

Definition positive (x : float) : bool := flt (lit 0) x.
Definition negative (x : float) : bool := flt x (lit 0).
Definition nonpositive (x : float) : bool := fle x (lit 0).

(** A pick the allocator can divide by. *)
Definition nonzero_price (p : Pick.t) : Prop := is_zero (Pick.price p) = false.

(** A float with the sign bit set that is not NaN: a negative number,
    minus infinity, or the negative zero. *)
Definition below_zero (x : float) : Prop :=
  x = Inf true \/ exists m, x = Fin true m.

(** A finite float above zero. *)
Definition finite_positive (x : float) : Prop :=
  exists m, x = Fin false m /\ ~ m == 0.

(** The exact sum of finite floats; [None] when one of them is not
    finite. *)
Fixpoint exact_sum (xs : list float) : option Q :=
  match xs with
  | [] => Some 0
  | x :: rest =>
      match value x, exact_sum rest with
      | Some a, Some b => Some (a + b)
      | _, _ => None
      end
  end.

(** The allocation invariant: the allocations add up to [round(budget, 2)]
    within [count * 0.01]. *)
Definition allocation_invariant (budget : float) (plan : list Entry.t) : Prop :=
  match exact_sum (map Entry.allocation plan), value (round budget 2) with
  | Some total, Some target =>
      Qabs (total - target) <= inject_Z (Z.of_nat (length plan)) * (1 # 100)
  | _, _ => False
  end.

(** The same test as Python evaluates it,
    [abs(sum(allocations) - round(budget, 2)) <= len(plan) * 0.01]. *)
Definition allocation_check (budget : float) (plan : list Entry.t) : bool :=
  fle (fabs (fsub (fold_left fadd (map Entry.allocation plan) (of_int 0))
                  (round budget 2)))
      (fmul (of_int (Z.of_nat (length plan))) (lit (1 # 100))).

(** A pick of a given symbol and price, the other fields being those of
    Scenario A. *)
Definition pick_at (symbol : String.string) (price : float) : Pick.t :=
  Pick.mk symbol (fsub (lit (7 # 10)) (lit (2 # 10))) (lit 0) (lit 50)
    price price price.

(** One entry of the plan, as the specification derives it from a pick. *)
Definition entry_of (per take_profit_pct stop_loss_pct : float) (p : Pick.t)
  : Entry.t :=
  let price := Pick.price p in
  let shares := round (fdiv per price) 4 in
  Entry.mk (Pick.symbol p) price (Pick.score p) (Pick.rsi p)
    (round per 2) shares (round (fmul shares price) 2)
    (round (fmul price (fadd (of_int 1) take_profit_pct)) 2)
    (round (fmul price (fsub (of_int 1) stop_loss_pct)) 2).

(** The allocation invariant as the specification words it: it holds of
    the plan of every budget and every non-empty list of picks with
    positive prices. *)
Definition allocation_claim : Prop :=
  forall budget picks take_profit_pct stop_loss_pct,
    picks <> [] ->
    Forall (fun p => positive (Pick.price p) = true) picks ->
    exists plan,
      outcome (BudgetAllocator.allocate_budget budget picks
                 take_profit_pct stop_loss_pct) = Ok plan /\
      allocation_invariant budget plan.

(** The handling of the budget as it is claimed: any budget gives one
    entry per pick, in the same order, each allocated
    [round(budget / count, 2)], and a negative budget gives negative
    allocations, shares and costs. *)
Definition budget_claim : Prop :=
  forall budget picks take_profit_pct stop_loss_pct,
    picks <> [] ->
    Forall (fun p => positive (Pick.price p) = true) picks ->
    exists plan,
      outcome (BudgetAllocator.allocate_budget budget picks
                 take_profit_pct stop_loss_pct) = Ok plan /\
      map Entry.symbol plan = map Pick.symbol picks /\
      Forall (fun e => Entry.allocation e =
                round (fdiv budget (of_int (Z.of_nat (length picks)))) 2)
             plan /\
      (negative budget = true ->
       Forall (fun e => negative (Entry.allocation e) = true /\
                        negative (Entry.shares e) = true /\
                        negative (Entry.cost e) = true) plan).

End Spec.

(** ** Agreement with the machine's floats

    [of_prim] reads a primitive binary64 float into the model, so that the
    operations of [Binary64] can be run side by side with the processor's. *)
Module Machine.

Import Binary64.
Local Open Scope Q_scope.

Definition of_prim (x : PrimFloat.float) : float :=
  match FloatOps.Prim2SF x with
  | SpecFloat.S754_nan => NaN
  | SpecFloat.S754_infinity s => Inf s
  | SpecFloat.S754_zero s => Fin s 0
  | SpecFloat.S754_finite s m e => Fin s (Qred (inject_Z (Zpos m) * pow2 e))
  end.

(** The quotient of two small integers, as a primitive float. *)
Definition ratio (a b : Z) : PrimFloat.float :=
  PrimFloat.div (PrimFloat.of_uint63 (Uint63.of_Z a))
                (PrimFloat.of_uint63 (Uint63.of_Z b)).

Definition samples : list PrimFloat.float :=
  let base :=
    [ratio 0 1; ratio 1 1; ratio 1 10; ratio 1 3; ratio 7 10; ratio 100 1;
     ratio 9007199254740993 1;
     FloatOps.Z.ldexp (ratio 9007199254740991 4503599627370496) 1023;
     FloatOps.Z.ldexp (ratio 3 1) (-1074);
     FloatOps.Z.ldexp (ratio 1 1) (-537);
     PrimFloat.infinity; PrimFloat.nan] in
  base ++ map PrimFloat.opp base.

Definition same (x y : float) : bool :=
  match x, y with
  | NaN, NaN => true
  | Inf a, Inf b => Bool.eqb a b
  | Fin a m, Fin b n =>
      Bool.eqb a b && Z.eqb (Qnum m) (Qnum n) && Pos.eqb (Qden m) (Qden n)
  | _, _ => false
  end.

Definition agree (prim : PrimFloat.float -> PrimFloat.float -> PrimFloat.float)
    (model : float -> float -> float) : bool :=
  forallb (fun '(x, y) => same (of_prim (prim x y)) (model (of_prim x) (of_prim y)))
          (list_prod samples samples).

Definition agree_test (prim : PrimFloat.float -> PrimFloat.float -> bool)
    (model : float -> float -> bool) : bool :=
  forallb (fun '(x, y) => Bool.eqb (prim x y) (model (of_prim x) (of_prim y)))
          (list_prod samples samples).

End Machine.

(* ================================================================== *)
(** * Configuration from the environment *)
(* ================================================================== *)

Module Env.

Import Binary64 Py.
Import Ascii String.
Local Open Scope string_scope.

(** [s.split(",")]: the pieces between the commas, empty ones included. *)
Fixpoint split_commas (s : string) : list string :=
  match s with
  | EmptyString => [EmptyString]
  | String c rest =>
      if Ascii.eqb c "," then EmptyString :: split_commas rest
      else match split_commas rest with
           | piece :: pieces => String c piece :: pieces
           | [] => [String c EmptyString]
           end
  end.

(** [","] occurs in [s]. *)
Fixpoint has_comma (s : string) : bool :=
  match s with
  | EmptyString => false
  | String c rest => Ascii.eqb c "," || has_comma rest
  end.

(** [sep.join(pieces)]. *)
Fixpoint join (sep : string) (pieces : list string) : string :=
  match pieces with
  | [] => EmptyString
  | [piece] => piece
  | piece :: rest => piece ++ sep ++ join sep rest
  end.

(** What the module reads when it is loaded. *)
Record Settings : Type := {
  config : Cli.Config;
  TELEGRAM_TOKEN : option string;
  TELEGRAM_CHAT_ID : option string
}.

Section Load.

(** [os.getenv(name)] once [load_dotenv()] has run. *)
Variable getenv : string -> option string.

(** [int(text)] and [float(text)]: [None] when the text does not parse and
    Python raises [ValueError]. *)
Variable int_of_string : string -> option Z.
Variable float_of_string : string -> option float.

(** [os.getenv(name, default)]. *)
Definition getenv_or (name default : string) : string :=
  match getenv name with
  | Some v => v
  | None => default
  end.

Definition parsed {A} (v : option A) : result A :=
  match v with
  | Some a => Ok a
  | None => Raise (Exception "ValueError")
  end.

(** The module-level assignments, in the order they run. *)
Definition load : result Settings :=
  let universe := split_commas (getenv_or "UNIVERSE" "AAPL,MSFT,AMZN,NVDA,TSLA") in
  rbind (parsed (int_of_string (getenv_or "TOP_N" "3"))) (fun top_n =>
  rbind (parsed (float_of_string (getenv_or "TAKE_PROFIT_PCT" "0.10")))
    (fun take_profit_pct =>
  rbind (parsed (float_of_string (getenv_or "STOP_LOSS_PCT" "0.05")))
    (fun stop_loss_pct =>
  Ok {| config := {| Cli.UNIVERSE := universe;
                     Cli.TOP_N := top_n;
                     Cli.TAKE_PROFIT_PCT := take_profit_pct;
                     Cli.STOP_LOSS_PCT := stop_loss_pct |};
        TELEGRAM_TOKEN := getenv "TELEGRAM_TOKEN";
        TELEGRAM_CHAT_ID := getenv "TELEGRAM_CHAT_ID" |}))).

End Load.

End Env.

(* ================================================================== *)
(** * Reporter: [format_message] and [send_telegram] *)
(* ================================================================== *)

Module Reporter.

Import Binary64 Py.
Import Ascii String.
Local Open Scope string_scope.
Local Open Scope list_scope.
Local Infix "+++" := String.append (at level 60, right associativity).

(** What a run does to the outside: the texts it prints with [print], the
    prompt of [input], and the requests it posts to Telegram.  The progress
    and debug lines of [fetch_history], [compute_score], [pick_top_symbols]
    and the "Scanning universe" line are not recorded. *)
Inductive event : Type :=
| Stdout (text : string)
| Prompt (text : string)
| TelegramPost (url chat_id text : string).

(** A computation with its events, in order. *)
Definition IO (A : Type) : Type := (list event * result A)%type.

Definition pure {A} (a : A) : IO A := ([], Ok a).

Definition emit (e : event) : IO unit := ([e], Ok tt).

Definition lift {A} (r : result A) : IO A := ([], r).

Definition seq {A B} (m : IO A) (k : A -> IO B) : IO B :=
  match m with
  | (events, Ok a) => let '(events', r) := k a in (events ++ events', r)
  | (events, Raise e) => (events, Raise e)
  end.

Definition events {A} (m : IO A) : list event := fst m.
Definition returned {A} (m : IO A) : result A := snd m.

Definition nl : string := String (ascii_of_nat 10) EmptyString.

(** [str(n)] of an [int]. *)
Definition str_int (n : Z) : string :=
  DecimalString.NilZero.string_of_int (Z.to_int n).

(** [int(x)] of a float: truncation towards zero; NaN and the infinities
    have no integer. *)
Definition int_of_float (x : float) : result Z :=
  match x with
  | NaN => Raise (Exception "ValueError")
  | Inf _ => Raise (Exception "OverflowError")
  | Fin s m => Ok (if s then (- Qfloor (Qabs m))%Z else Qfloor (Qabs m))
  end.

Section Format.

Variable cfg : Cli.Config.

(** The renderings of a float the f-strings ask for: [{x:.2f}],
    [{x:,.2f}] and [{x}]. *)
Variable format_2f : float -> string.
Variable format_grouped_2f : float -> string.
Variable str_float : float -> string.

(** The text of one pick, numbered [i]. *)
Definition entry_text (i : nat) (p : Entry.t) : result string :=
  rbind (int_of_float (fmul (Cli.TAKE_PROFIT_PCT cfg) (of_int 100)))
    (fun take_profit =>
  rbind (int_of_float (fmul (Cli.STOP_LOSS_PCT cfg) (of_int 100)))
    (fun stop_loss =>
  Ok (str_int (Z.of_nat i) +++ ". " +++ Entry.symbol p
      +++ " ‚Äî Price $" +++ format_2f (Entry.price p)
      +++ " | Buy shares: " +++ str_float (Entry.shares p)
      +++ " | Alloc $" +++ format_2f (Entry.allocation p) +++ nl
      +++ "     TP: $" +++ format_2f (Entry.take_profit_price p)
      +++ " (+" +++ str_int take_profit +++ "%)  SL: $"
      +++ format_2f (Entry.stop_loss_price p)
      +++ " (-" +++ str_int stop_loss +++ "%)"))).

(** [for i, p in enumerate(plan, i)], [lines] being the list built so
    far. *)
Fixpoint entry_lines (i : nat) (plan : list Entry.t) (lines : list string)
  : result (list string) :=
  match plan with
  | [] => Ok lines
  | p :: rest =>
      rbind (entry_text i p) (fun line =>
      entry_lines (S i) rest (lines ++ [line]))
  end.

Definition format_message (budget : float) (plan : list Entry.t)
  : result string :=
  match plan with
  | [] => Ok ("‚ö†Ô∏è No picks found for the universe." +++ nl)
  | _ =>
      let lines := [] in
      let lines := lines ++ ["üí∞ Budget: $" +++ format_grouped_2f budget] in
      let lines :=
        lines ++ ["üìå Picks (top " +++ str_int (Z.of_nat (List.length plan))
                  +++ "):" +++ nl] in
      rbind (entry_lines 1 plan lines) (fun lines =>
      let lines :=
        lines ++ [nl +++ "Note: This is a recommendation only. "
                  +++ "Review before trading."] in
      Ok (Env.join nl lines))
  end.

End Format.

(** The truth value of an environment variable: unset and empty are
    false. *)
Definition truthy (v : option string) : bool :=
  match v with
  | Some (String _ _) => true
  | _ => false
  end.

(** [Response.raise_for_status()]: the 4xx and 5xx codes raise. *)
Definition raise_for_status (status : nat) : result unit :=
  if ((400 <=? status) && (status <? 600))%nat
  then Raise (Exception "HTTPError")
  else Ok tt.

Section Telegram.

Variable TELEGRAM_TOKEN TELEGRAM_CHAT_ID : option string.

(** [requests.post(url, data={"chat_id": .., "text": ..}, timeout=10)]:
    the status code of the response, or the exception of a request that
    did not complete. *)
Variable post : string -> string -> string -> result nat.

(** [str(e)] of an exception. *)
Variable describe : exn -> string.

Definition send_telegram (msg : string) : IO bool :=
  match TELEGRAM_TOKEN, TELEGRAM_CHAT_ID with
  | Some token, Some chat_id =>
      if truthy TELEGRAM_TOKEN && truthy TELEGRAM_CHAT_ID then
        let url := "https://api.telegram.org/bot" +++ token +++ "/sendMessage" in
        match
          seq (emit (TelegramPost url chat_id msg)) (fun _ =>
          seq (lift (post url chat_id msg)) (fun status =>
          seq (lift (raise_for_status status)) (fun _ =>
          pure true)))
        with
        | (trace, Ok sent) => (trace, Ok sent)
        | (trace, Raise e) =>
            (trace ++ [Stdout ("[err] Telegram send failed: " +++ describe e);
                       Stdout msg],
             Ok false)
        end
      else
        ([Stdout "[warn] Telegram not configured, printing message instead:";
          Stdout msg], Ok false)
  | _, _ =>
      ([Stdout "[warn] Telegram not configured, printing message instead:";
        Stdout msg], Ok false)
  end.

End Telegram.

End Reporter.

(* ================================================================== *)
(** * A run, with what it prints and posts *)
(* ================================================================== *)

Module Run.

Import Binary64 Py Reporter.
Import Ascii String.
Local Open Scope string_scope.
Local Open Scope list_scope.
Local Infix "+++" := String.append (at level 60, right associativity).

(** How the [__main__] block ends: [exit(1)], or the return or exception
    of [plan_trades_from_budget]. *)
Inductive ending : Type :=
| Exited (status : Z)
| Finished (r : result (option (list Entry.t))).

Section Run.

Variable settings : Env.Settings.
Variable L : ScoreEngine.Library.
Variable fetch_history : string -> option (list float).
Variable sort_values : list Pick.t -> list Pick.t.
Variable format_2f format_grouped_2f str_float : float -> string.
Variable post : string -> string -> string -> result nat.
Variable describe : exn -> string.

(** [float(raw)]: [None] when the text is not a float. *)
Variable float_of_string : string -> option float.

Definition send (msg : string) : IO bool :=
  send_telegram (Env.TELEGRAM_TOKEN settings) (Env.TELEGRAM_CHAT_ID settings)
    post describe msg.

(** [plan_trades_from_budget], with its events. *)
Definition plan_trades_from_budget (budget : float)
  : IO (option (list Entry.t)) :=
  let cfg := Env.config settings in
  let picks :=
    Ranker.pick_top_symbols L fetch_history sort_values
      (Cli.UNIVERSE cfg) (Cli.TOP_N cfg) in
  match picks with
  | [] =>
      let msg := "No suitable picks found today." in
      seq (emit (Stdout msg)) (fun _ =>
      seq (send msg) (fun _ =>
      pure None))
  | _ =>
      seq (lift (outcome (BudgetAllocator.allocate_budget budget picks
                            (Cli.TAKE_PROFIT_PCT cfg) (Cli.STOP_LOSS_PCT cfg))))
        (fun plan =>
      seq (lift (format_message cfg format_2f format_grouped_2f str_float
                   budget plan)) (fun message =>
      seq (emit (Stdout (nl +++ message +++ nl))) (fun _ =>
      seq (send message) (fun _ =>
      pure (Some plan)))))
  end.

(** The [__main__] block: [args_budget] is [args.budget], [typed] what
    [input] returns or raises when no budget was given. *)
Definition main (args_budget : option float) (typed : result string)
  : list event * ending :=
  match args_budget with
  | Some budget =>
      let '(trace, r) := plan_trades_from_budget budget in
      (trace, Finished r)
  | None =>
      let prompt := Prompt "Enter budget in USD (e.g. 1000): " in
      match typed with
      | Ok raw =>
          match float_of_string (Text.strip raw) with
          | Some budget =>
              let '(trace, r) := plan_trades_from_budget budget in
              (prompt :: trace, Finished r)
          | None => ([prompt; Stdout "Invalid budget. Exiting."], Exited 1)
          end
      | Raise _ => ([prompt; Stdout "Invalid budget. Exiting."], Exited 1)
      end
  end.

End Run.

End Run.

(* ================================================================== *)
(** * The specification's vocabulary for a run *)
(* ================================================================== *)

Module RunSpec.

Import Binary64 Py Reporter.
Import String.

(** The run as the specification words it: whatever the budget, the
    pipeline runs to completion. *)
Definition completion_claim : Prop :=
  forall settings L fetch_history sort_values format_2f format_grouped_2f
         str_float post describe budget,
    exists r,
      returned (Run.plan_trades_from_budget settings L fetch_history
                  sort_values format_2f format_grouped_2f str_float post
                  describe budget) = Ok r.

(** The sample run: no Telegram, the flat series for every symbol, and
    the libraries as installed. *)
Definition sample_run (cfg : Cli.Config) (budget : float)
  : IO (option (list Entry.t)) :=
  Run.plan_trades_from_budget
    {| Env.config := cfg;
       Env.TELEGRAM_TOKEN := None;
       Env.TELEGRAM_CHAT_ID := None |}
    ScoreEngine.installed Spec.sample_fetch
    (Ranker.installed_sort (fun _ => []))
    (fun _ => EmptyString) (fun _ => EmptyString) (fun _ => EmptyString)
    (fun _ _ _ => Ok 200%nat) (fun _ => EmptyString) budget.

End RunSpec.

(* ================================================================== *)
(** * Reading a trace *)
(* ================================================================== *)

Module Trace.

Import Reporter.
Import String.

(** The address of the [sendMessage] method of a bot. *)
Definition bot_url (token : string) : string :=
  String.append "https://api.telegram.org/bot"
    (String.append token "/sendMessage").

Definition is_post (e : event) : bool :=
  match e with
  | TelegramPost _ _ _ => true
  | _ => false
  end.

(** The requests of a trace. *)
Definition posts (trace : list event) : list event := filter is_post trace.

(** The texts a trace prints. *)
Definition printed (trace : list event) : list string :=
  flat_map (fun e => match e with Stdout text => [text] | _ => [] end) trace.

End Trace.

(* ================================================================== *)
(** * Provider: [fetch_history] *)
(* ================================================================== *)

Module Provider.

Import Binary64 Py.

(** A row of a downloaded frame: its close, and the cells of its other
    columns. *)
Record row : Type := {
  close : float;
  others : list float
}.

(** A row [dropna()] drops: one of its cells is NaN. *)
Definition has_na (r : row) : bool :=
  is_nan (close r) || existsb is_nan (others r).

(** [df.dropna()]. *)
Definition dropna (df : list row) : list row :=
  filter (fun r => negb (has_na r)) df.

Section Fetch.

(** [yf.download(symbol, period="3mo", interval="1d", ...)]: a frame,
    [None], or an exception. *)
Variable download : String.string -> result (option (list row)).

Definition fetch_history (symbol : String.string) : option (list row) :=
  match download symbol with
  | Ok (Some df) =>
      match df with
      | [] => None
      | _ => Some (dropna df)
      end
  | Ok None => None
  | Raise _ => None
  end.

(** The column [df["Close"].astype(float)] of a fetched history, which is
    what [compute_score] reads. *)
Definition history (symbol : String.string) : option (list float) :=
  option_map (map close) (fetch_history symbol).

End Fetch.

End Provider.

(* ================================================================== *)
(** * Facts about binary64 rounding *)
(* ================================================================== *)

Module Binary64Facts.
Import Binary64.
Local Open Scope Q_scope.

Lemma pow2_pos e : 0 < pow2 e.
Proof. apply Qpower_0_lt. reflexivity. Qed.

Lemma pow2_add a b : pow2 (a + b) == pow2 a * pow2 b.
Proof. apply Qpower_plus. discriminate. Qed.

Lemma pow2_le a b : (a <= b)%Z -> pow2 a <= pow2 b.
Proof. intros H. apply Qpower_le_compat_l; [exact H | discriminate]. Qed.

Lemma pow2_inject e : (0 <= e)%Z -> pow2 e == inject_Z (2 ^ e).
Proof. intros H. unfold pow2. now rewrite Zpower_Qpower. Qed.

(** Rounding to the nearest integer moves a rational by at most one half. *)
Lemma round_half_even_error q :
  Qabs (inject_Z (round_half_even q) - q) <= 1 # 2.
Proof.
  unfold round_half_even.
  pose proof (Qfloor_le q) as Hlo.
  pose proof (Qlt_floor q) as Hhi.
  rewrite inject_Z_plus in Hhi. change (inject_Z 1) with 1 in Hhi.
  apply Qabs_Qle_condition.
  destruct (Qcompare (q - inject_Z (Qfloor q)) (1 # 2)) eqn:C.
  - apply Qeq_alt in C.
    destruct (Z.even (Qfloor q)); rewrite ?inject_Z_plus;
      change (inject_Z 1) with 1; split; lra.
  - apply Qlt_alt in C. split; lra.
  - apply Qgt_alt in C. rewrite inject_Z_plus.
    change (inject_Z 1) with 1. split; lra.
Qed.

Lemma round_half_even_nonneg q : 0 <= q -> (0 <= round_half_even q)%Z.
Proof.
  intros H. unfold round_half_even.
  assert (0 <= Qfloor q)%Z as Hf.
  { change 0%Z with (Qfloor 0). now apply Qfloor_resp_le. }
  destruct (Qcompare _ _); try destruct (Z.even _); lia.
Qed.

Lemma round_half_even_ge_1 q : 1 <= q -> (1 <= round_half_even q)%Z.
Proof.
  intros H. unfold round_half_even.
  assert (1 <= Qfloor q)%Z as Hf.
  { change 1%Z with (Qfloor 1). now apply Qfloor_resp_le. }
  destruct (Qcompare _ _); try destruct (Z.even _); lia.
Qed.

Lemma round_half_even_Z z : round_half_even (inject_Z z) = z.
Proof.
  unfold round_half_even. rewrite Qfloor_Z.
  assert (inject_Z z - inject_Z z == 0) as E by ring.
  destruct (Qcompare _ _) eqn:C; trivial.
  - apply Qeq_alt in C. rewrite E in C. discriminate.
  - apply Qgt_alt in C. rewrite E in C. discriminate.
Qed.

Lemma round_half_even_compat p q : p == q -> round_half_even p = round_half_even q.
Proof.
  intros H. unfold round_half_even.
  assert (Qfloor p = Qfloor q) as F by now rewrite H.
  rewrite F.
  assert (Qcompare (p - inject_Z (Qfloor q)) (1#2) = Qcompare (q - inject_Z (Qfloor q)) (1#2)) as C
    by now rewrite H.
  now rewrite C.
Qed.


Lemma pow2_lt_inv a b : pow2 a < pow2 b -> (a < b)%Z.
Proof. intros H. apply (Qpower_lt_compat_l_inv 2); [exact H | reflexivity]. Qed.

Lemma pow2_le_inv a b : pow2 a <= pow2 b -> (a <= b)%Z.
Proof. intros H. apply (Qpower_le_compat_l_inv 2); [exact H | reflexivity]. Qed.

Lemma Qmake_as_div a b : a # b == inject_Z a / inject_Z (Zpos b).
Proof. apply Qmake_Qdiv. Qed.

(** The exponent found by [ilog2] is the binary exponent. *)
Lemma ilog2_spec q :
  0 < q -> pow2 (ilog2 q) <= q /\ q < pow2 (ilog2 q + 1).
Proof.
  intros Hq. destruct q as [a b]. unfold ilog2. cbn [Qnum Qden].
  assert (0 < a)%Z as Ha by (unfold Qlt in Hq; cbn in Hq; lia).
  set (la := Z.log2 a). set (lb := Z.log2 (Zpos b)).
  destruct (Z.log2_spec a Ha) as [A1 A2]. fold la in A1, A2.
  destruct (Z.log2_spec (Zpos b) eq_refl) as [B1 B2]. fold lb in B1, B2.
  assert (0 <= la)%Z as Hla by apply Z.log2_nonneg.
  assert (0 <= lb)%Z as Hlb by apply Z.log2_nonneg.
  assert (pow2 la <= inject_Z a) as A1q.
  { rewrite pow2_inject by lia. rewrite <- Zle_Qle. exact A1. }
  assert (inject_Z a < pow2 (la + 1)) as A2q.
  { rewrite pow2_inject by lia. rewrite <- Zlt_Qlt. exact A2. }
  assert (pow2 lb <= inject_Z (Zpos b)) as B1q.
  { rewrite pow2_inject by lia. rewrite <- Zle_Qle. exact B1. }
  assert (inject_Z (Zpos b) < pow2 (lb + 1)) as B2q.
  { rewrite pow2_inject by lia. rewrite <- Zlt_Qlt. exact B2. }
  assert (0 < inject_Z (Zpos b)) as Hb by reflexivity.
  assert (inject_Z a / inject_Z (Zpos b) * inject_Z (Zpos b) == inject_Z a) as Hab
    by (field; discriminate).
  assert (forall e, pow2 e <= a # b <-> pow2 e * inject_Z (Zpos b) <= inject_Z a) as Le.
  { intros e. rewrite Qmake_as_div. split; intros H.
    - rewrite <- Hab. apply Qmult_le_compat_r; [exact H | now apply Qlt_le_weak].
    - apply Qle_shift_div_l; assumption. }
  assert (forall e, a # b < pow2 e <-> inject_Z a < pow2 e * inject_Z (Zpos b)) as Lt.
  { intros e. rewrite Qmake_as_div. split; intros H.
    - rewrite <- Hab. apply Qmult_lt_compat_r; assumption.
    - apply Qlt_shift_div_r; assumption. }
  destruct (Qle_bool (pow2 (la - lb)) (a # b)) eqn:T.
  - apply Qle_bool_iff in T. split; [exact T |].
    apply Lt.
    replace (la - lb + 1)%Z with ((la + 1) + (- lb))%Z by ring.
    rewrite pow2_add.
    assert (pow2 (- lb) * pow2 lb == 1) as I.
    { rewrite <- pow2_add. replace (- lb + lb)%Z with 0%Z by ring. reflexivity. }
    pose proof (pow2_pos (la + 1)). pose proof (pow2_pos (- lb)). pose proof (pow2_pos lb).
    apply Qlt_le_trans with (pow2 (la + 1)); [exact A2q |].
    setoid_replace (pow2 (la + 1)) with (pow2 (la + 1) * (pow2 (- lb) * pow2 lb)) at 1
      by (rewrite I; ring).
    rewrite <- Qmult_assoc.
    apply Qmult_le_l; [assumption |].
    apply Qmult_le_l; assumption.
  - assert (~ pow2 (la - lb) <= a # b) as T'.
    { intros H. apply Qle_bool_iff in H. congruence. }
    apply Qnot_le_lt in T'.
    split.
    + apply Le.
      assert (pow2 (la - lb - 1) * pow2 (lb + 1) == pow2 la) as I.
      { rewrite <- pow2_add. replace (la - lb - 1 + (lb + 1))%Z with la by ring. reflexivity. }
      pose proof (pow2_pos (la - lb - 1)).
      apply Qle_trans with (pow2 la); [| exact A1q].
      rewrite <- I. apply Qmult_le_l; [assumption | now apply Qlt_le_weak].
    + replace (la - lb - 1 + 1)%Z with (la - lb)%Z by ring. exact T'.
Qed.


Lemma rnd_compat s p q : p == q -> rnd s p = rnd s q.
Proof.
  intros H. unfold rnd.
  assert (Qabs p == Qabs q) as A by now rewrite H.
  now rewrite (Qred_complete _ _ A).
Qed.

(** Rounding keeps the sign: a finite result of that sign or its infinity. *)
Lemma rnd_sign s q :
  rnd s q = Inf s \/ exists r, rnd s q = Fin s r /\ 0 <= r.
Proof.
  unfold rnd.
  destruct (Qle_bool (Qred (Qabs q)) 0) eqn:Z0.
  - right. exists 0. split; [reflexivity | lra].
  - destruct (Qle_bool (pow2 1024) _); [now left | right].
    eexists. split; [reflexivity |].
    match goal with |- 0 <= Qred ?t => rewrite (Qred_correct t) end.
    assert (0 < Qred (Qabs q)) as Hq.
    { apply Qnot_le_lt. intros H. apply Qle_bool_iff in H. congruence. }
    pose proof (pow2_pos (ulp_exp (Qred (Qabs q)))) as HE.
    apply Qmult_le_0_compat; [| lra].
    change 0 with (inject_Z 0). rewrite <- Zle_Qle.
    apply round_half_even_nonneg.
    apply Qle_shift_div_l; lra.
Qed.

Lemma ulp_exp_cases q :
  0 < q -> ulp_exp q = (-1074)%Z \/ pow2 (ulp_exp q) <= q.
Proof.
  intros Hq. unfold ulp_exp.
  destruct (ilog2_spec Hq) as [Hlo _].
  destruct (Z.max_spec (ilog2 q - 52) (-1074)) as [[_ ->] | [_ ->]].
  - now left.
  - right. apply Qle_trans with (pow2 (ilog2 q)); [apply pow2_le; lia | exact Hlo].
Qed.

(** The error of rounding below the overflow range: with [q <= 2^k] the
    result is finite and within half a unit in the last place of [q]. *)
Lemma rnd_error s q k :
  0 <= q -> q <= pow2 k -> (k <= 1022)%Z ->
  exists r, rnd s q = Fin s r /\ 0 <= r /\
            Qabs (r - q) <= pow2 (Z.max (k - 53) (-1075)).
Proof.
  intros Hq Hk Hk'. unfold rnd.
  assert (Qred (Qabs q) == q) as Rq
    by (rewrite Qred_correct; now apply Qabs_pos).
  destruct (Qle_bool (Qred (Qabs q)) 0) eqn:Z0.
  - apply Qle_bool_iff in Z0. exists 0. split; [reflexivity |]. split; [lra |].
    pose proof (pow2_pos (Z.max (k - 53) (-1075))).
    apply Qabs_Qle_condition. split; lra.
  - assert (0 < Qred (Qabs q)) as Hq'.
    { apply Qnot_le_lt. intros H. apply Qle_bool_iff in H. congruence. }
    set (q' := Qred (Qabs q)) in *.
    set (E := ulp_exp q').
    set (n := round_half_even (q' / pow2 E)).
    pose proof (pow2_pos E) as HE.
    assert (Qabs (inject_Z n * pow2 E - q') <= pow2 (E - 1)) as Herr.
    { pose proof (round_half_even_error (q' / pow2 E)) as R. fold n in R.
      assert (inject_Z n * pow2 E - q' == (inject_Z n - q' / pow2 E) * pow2 E) as ->
        by (field; lra).
      rewrite Qabs_Qmult, (Qabs_pos (pow2 E)) by lra.
      assert (pow2 (E - 1) == (1 # 2) * pow2 E) as ->.
      { replace (E - 1)%Z with (-1 + E)%Z by ring. rewrite pow2_add. reflexivity. }
      apply Qmult_le_compat_r; [exact R | lra]. }
    assert (E <= Z.max (k - 52) (-1074))%Z as HEk.
    { unfold E, ulp_exp. destruct (ilog2_spec Hq') as [Hlo _].
      assert (ilog2 q' <= k)%Z.
      { apply pow2_le_inv. apply Qle_trans with q'; [exact Hlo | lra]. }
      lia. }
    assert (pow2 (E - 1) <= pow2 (Z.max (k - 53) (-1075))) as Hbound
      by (apply pow2_le; lia).
    assert (E - 1 <= 969)%Z as HE969 by lia.
    assert (0 <= inject_Z n) as Hn.
    { change 0 with (inject_Z 0). rewrite <- Zle_Qle.
      apply round_half_even_nonneg. apply Qle_shift_div_l; lra. }
    pose proof (Qred_correct (inject_Z n * pow2 E)) as Rr.
    set (r := Qred (inject_Z n * pow2 E)) in *.
    assert (Qle_bool (pow2 1024) r = false) as NoOv.
    { destruct (Qle_bool (pow2 1024) r) eqn:T; trivial. exfalso.
      apply Qle_bool_iff in T.
      apply Qabs_Qle_condition in Herr.
      pose proof (@pow2_le k 1022 Hk').
      pose proof (@pow2_le (E - 1) 1022 ltac:(lia)).
      assert (pow2 1024 == 4 * pow2 1022) as P
        by (change 1024%Z with (2 + 1022)%Z; rewrite pow2_add; reflexivity).
      pose proof (pow2_pos 1022). lra. }
    rewrite NoOv. exists r. split; [reflexivity |].
    assert (0 <= inject_Z n * pow2 E) by (apply Qmult_le_0_compat; lra).
    split; [lra |].
    apply Qabs_Qle_condition. apply Qabs_Qle_condition in Herr. lra.
Qed.

(** A number that is at least one does not round to zero. *)
Lemma rnd_nonzero s q : 1 <= q -> is_zero (rnd s q) = false.
Proof.
  intros Hq. unfold rnd.
  assert (Qred (Qabs q) == q) as Rq
    by (rewrite Qred_correct; apply Qabs_pos; lra).
  destruct (Qle_bool (Qred (Qabs q)) 0) eqn:Z0.
  - apply Qle_bool_iff in Z0. lra.
  - set (q' := Qred (Qabs q)) in *.
    assert (0 < q') as Hq' by lra.
    set (E := ulp_exp q').
    pose proof (pow2_pos E) as HE.
    assert (pow2 E <= q') as HEq.
    { destruct (ulp_exp_cases Hq') as [H | H]; fold E in H; [| exact H].
      apply Qle_trans with 1; [| lra].
      rewrite H. change 1 with (pow2 0). apply pow2_le. lia. }
    destruct (Qle_bool (pow2 1024) _); [reflexivity |].
    cbn [is_zero].
    pose proof (Qred_correct (inject_Z (round_half_even (q' / pow2 E)) * pow2 E)) as Rr.
    destruct (Qeq_bool _ 0) eqn:T; trivial. exfalso.
    apply Qeq_bool_iff in T.
    assert (1 <= round_half_even (q' / pow2 E))%Z as Hn.
    { apply round_half_even_ge_1. apply Qle_shift_div_l; lra. }
    rewrite Zle_Qle in Hn. change (inject_Z 1) with 1 in Hn.
    assert (0 < inject_Z (round_half_even (q' / pow2 E)) * pow2 E).
    { apply Qmult_lt_0_compat; lra. }
    lra.
Qed.


(** Integers below [2^53] are binary64 numbers. *)
Lemma of_int_exact n :
  (0 <= n < 2 ^ 53)%Z -> of_int n = Fin false (inject_Z n).
Proof.
  intros [Hn0 Hn]. unfold of_int, lit.
  assert (Qle_bool 0 (inject_Z n) = true) as ->.
  { apply Qle_bool_iff. change 0 with (inject_Z 0). now rewrite <- Zle_Qle. }
  cbn [negb]. unfold rnd.
  assert (Qabs (inject_Z n) = inject_Z n) as An.
  { unfold inject_Z, Qabs. now rewrite Z.abs_eq. }
  assert (Qred (inject_Z n) = inject_Z n) as Rn.
  { apply Qcanon.Qred_identity. cbn. apply Z.gcd_1_r. }
  rewrite An, Rn.
  destruct (Qle_bool (inject_Z n) 0) eqn:Z0.
  - apply Qle_bool_iff in Z0. change 0 with (inject_Z 0) in Z0.
    rewrite <- Zle_Qle in Z0. now replace n with 0%Z by lia.
  - assert (0 < inject_Z n) as Hq.
    { apply Qnot_le_lt. intros H. apply Qle_bool_iff in H. congruence. }
    set (E := ulp_exp (inject_Z n)).
    assert (E <= 0)%Z as HE.
    { unfold E, ulp_exp. destruct (ilog2_spec Hq) as [Hlo _].
      assert (ilog2 (inject_Z n) < 53)%Z.
      { apply pow2_lt_inv. apply Qle_lt_trans with (1 := Hlo).
        rewrite (@pow2_inject 53) by lia. now rewrite <- Zlt_Qlt. }
      lia. }
    assert (inject_Z n / pow2 E == inject_Z (n * 2 ^ (- E))) as Hdiv.
    { rewrite inject_Z_mult, <- pow2_inject by lia.
      pose proof (pow2_pos E).
      assert (pow2 (- E) * pow2 E == 1) as I.
      { rewrite <- pow2_add. replace (- E + E)%Z with 0%Z by ring. reflexivity. }
      apply Qmult_inj_r with (pow2 E); [lra |].
      rewrite <- Qmult_assoc, I. field. lra. }
    rewrite (round_half_even_compat Hdiv), round_half_even_Z.
    assert (inject_Z (n * 2 ^ (- E)) * pow2 E == inject_Z n) as Hback.
    { rewrite <- Hdiv. field. pose proof (pow2_pos E). lra. }
    rewrite (Qred_complete _ _ Hback), Rn.
    assert (Qle_bool (pow2 1024) (inject_Z n) = false) as ->; [| reflexivity].
    destruct (Qle_bool (pow2 1024) (inject_Z n)) eqn:T; trivial. exfalso.
    apply Qle_bool_iff in T.
    pose proof (@pow2_le 53 1024 ltac:(lia)) as P.
    rewrite (@pow2_inject 53) in P by lia.
    assert (inject_Z (2 ^ 53) <= inject_Z n) as C by lra.
    rewrite <- Zle_Qle in C. lia.
Qed.

Lemma of_int_nonzero n : (1 <= n)%Z -> is_zero (of_int n) = false.
Proof.
  intros Hn. unfold of_int, lit. apply rnd_nonzero.
  change 1 with (inject_Z 1). now rewrite <- Zle_Qle.
Qed.

End Binary64Facts.

Module PyFacts.
Import Binary64 Binary64Facts Py.
Local Open Scope Q_scope.

Lemma pow10_ge_1 nd : 1 <= pow10 nd.
Proof.
  unfold pow10. change 1 with (inject_Z 1). rewrite <- Zle_Qle.
  assert (0 < 10 ^ Z.of_nat nd)%Z by (apply Z.pow_pos_nonneg; lia). lia.
Qed.

(** The error of [round(x, nd)] on a finite float of magnitude below
    [2^k - 1]. *)
Lemma round_error s m nd k :
  0 <= m -> m + 1 <= pow2 k -> (k <= 1022)%Z ->
  exists r, round (Fin s m) nd = Fin s r /\ 0 <= r /\
            Qabs (r - m) <= (1 # 2) / pow10 nd + pow2 (Z.max (k - 53) (-1075)).
Proof.
  intros Hm Hk Hk'. unfold round.
  assert (Qabs m * pow10 nd == m * pow10 nd) as Am
    by (now rewrite Qabs_pos).
  rewrite (round_half_even_compat Am).
  pose proof (pow10_ge_1 nd) as Hp.
  set (N := round_half_even (m * pow10 nd)).
  pose proof (round_half_even_error (m * pow10 nd)) as R. fold N in R.
  assert (0 <= inject_Z N) as HN.
  { change 0 with (inject_Z 0). rewrite <- Zle_Qle.
    apply round_half_even_nonneg. apply Qmult_le_0_compat; lra. }
  assert (Qabs (inject_Z N / pow10 nd - m) <= (1 # 2) / pow10 nd) as HD.
  { assert (inject_Z N / pow10 nd - m == (inject_Z N - m * pow10 nd) * / pow10 nd) as ->
      by (field; lra).
    assert (0 < / pow10 nd) by (apply Qinv_lt_0_compat; lra).
    rewrite Qabs_Qmult, (Qabs_pos (/ pow10 nd)) by lra.
    unfold Qdiv. apply Qmult_le_compat_r; [exact R | lra]. }
  assert ((1 # 2) / pow10 nd <= 1 # 2) as Hhalf.
  { apply Qle_shift_div_r; [lra |]. nra. }
  assert (0 <= inject_Z N / pow10 nd) as HD0.
  { apply Qle_shift_div_l; lra. }
  apply Qabs_Qle_condition in HD.
  destruct (@rnd_error s (inject_Z N / pow10 nd) k HD0 ltac:(lra) Hk')
    as (r & Er & Hr0 & Hr).
  exists r. split; [exact Er |]. split; [exact Hr0 |].
  apply Qabs_Qle_condition in Hr. apply Qabs_Qle_condition. lra.
Qed.

(** [round] on the usual suspects: 2.675 is below the tie and goes down,
    0.125 is a tie and goes to the even digit, -0.001 keeps its sign. *)
Example round_examples :
  round (lit (2675 # 1000)) 2 = lit (267 # 100) /\
  round (lit (125 # 1000)) 2 = lit (12 # 100) /\
  round (lit (- 1 # 1000)) 2 = Fin true 0 /\
  round (Inf false) 2 = Inf false /\ round NaN 4 = NaN.
Proof. vm_compute. repeat split. Qed.

End PyFacts.

Module MachineFacts.

Import Binary64 Machine.

(** On the sample values (zeros, a subnormal, the largest float, an integer
    above [2^53], infinities, NaN and ordinary numbers, of both signs) the
    model computes what the processor computes. *)
Lemma model_agrees_with_machine :
  agree PrimFloat.add fadd && agree PrimFloat.sub fsub
  && agree PrimFloat.mul fmul && agree PrimFloat.div fdiv
  && agree_test PrimFloat.ltb flt && agree_test PrimFloat.leb fle
  && agree_test PrimFloat.eqb feq = true.
Proof. vm_compute. reflexivity. Qed.

End MachineFacts.

Module TextFacts.

Import String.
Local Open Scope string_scope.

Example normalized_symbol : Text.upper (Text.strip "  brk-b ") = "BRK-B".
Proof. reflexivity. Qed.

End TextFacts.

(* ================================================================== *)
(** * ScoreEngine: properties *)
(* ================================================================== *)

Module ScoreEngineFacts.

Import Binary64 Binary64Facts Py ScoreEngine.
Local Open Scope Q_scope.

Lemma iloc_neg_ok k s :
  (k <= length s)%nat -> iloc_neg k s = Ok (nth (length s - k) s NaN).
Proof.
  intros H. unfold iloc_neg.
  now rewrite (proj2 (Nat.leb_le k (length s)) H).
Qed.

Lemma lit_opp_8_10 : lit (- 8 # 10) = fopp (lit (8 # 10)).
Proof. vm_compute. reflexivity. Qed.

Lemma lit_opp_2_10 : lit (- 2 # 10) = fopp (lit (2 # 10)).
Proof. vm_compute. reflexivity. Qed.

(** With twenty closes or more the [try] block runs to its end and builds
    the expected result, whatever the indicators do. *)
Lemma score_body_expected L close :
  (20 <= length close)%nat ->
  score_body L close = Ok (Some (Spec.expected L close)).
Proof.
  intros Hlen. unfold score_body.
  assert ((length close <? 20)%nat = false) as -> by (apply Nat.ltb_ge; lia).
  assert ((10 <=? length close)%nat = true) as -> by (apply Nat.leb_le; lia).
  assert ((20 <=? length close)%nat = true) as -> by (apply Nat.leb_le; lia).
  rewrite !iloc_neg_ok by lia. cbn [rbind].
  unfold Spec.expected, Spec.smas, Spec.composite_of, Spec.recent_term,
    Spec.rsi_bucket, Spec.sma_bonus, Spec.plus.
  fold (Spec.latest close). fold (Spec.momentum close).
  fold (Spec.rsi_or_neutral L close).
  rewrite lit_opp_8_10, lit_opp_2_10. fold fsub.
  set (rsi := Spec.rsi_or_neutral L close).
  destruct (rolling_mean_last L 20 close) as [s20 | e20]; cbn [rbind].
  - destruct (50 <=? length close)%nat.
    + destruct (rolling_mean_last L 50 close) as [s50 | e50]; cbn [rbind].
      * destruct (flt rsi (of_int 30)), (fle (of_int 40) rsi && fle rsi (of_int 70)),
          (fgt rsi (of_int 75)), (fgt s20 s50),
          (pct_change_last L close) as [c | ec]; try destruct (is_nan c);
          reflexivity.
      * destruct (flt rsi (of_int 30)), (fle (of_int 40) rsi && fle rsi (of_int 70)),
          (fgt rsi (of_int 75)), (fgt (Spec.latest close) (Spec.latest close)),
          (pct_change_last L close) as [c | ec]; try destruct (is_nan c);
          reflexivity.
    + cbn [rbind].
      destruct (flt rsi (of_int 30)), (fle (of_int 40) rsi && fle rsi (of_int 70)),
        (fgt rsi (of_int 75)), (fgt s20 (Spec.latest close)),
        (pct_change_last L close) as [c | ec]; try destruct (is_nan c);
        reflexivity.
  - destruct (50 <=? length close)%nat;
      [destruct (rolling_mean_last L 50 close) as [s50 | e50] |];
      destruct (flt rsi (of_int 30)), (fle (of_int 40) rsi && fle rsi (of_int 70)),
        (fgt rsi (of_int 75)), (fgt (Spec.latest close) (Spec.latest close)),
        (pct_change_last L close) as [c | ec]; try destruct (is_nan c);
        reflexivity.
Qed.

Lemma compute_score_expected L close :
  (20 <= length close)%nat ->
  compute_score L close = Some (Spec.expected L close).
Proof.
  intros H. unfold compute_score. now rewrite score_body_expected.
Qed.

Lemma compute_score_short L close :
  (length close < 20)%nat -> compute_score L close = None.
Proof.
  intros H. unfold compute_score, score_body.
  now rewrite (proj2 (Nat.ltb_lt _ _) H).
Qed.

(** Comparisons of finite floats are comparisons of their values. *)
Lemma flt_fin s m s' m' :
  flt (Fin s m) (Fin s' m') = true <-> sval s m < sval s' m'.
Proof.
  unfold flt, fcompare. rewrite Qlt_alt.
  destruct (Qcompare (sval s m) (sval s' m')); split; congruence.
Qed.

Lemma fle_fin s m s' m' :
  fle (Fin s m) (Fin s' m') = true <-> sval s m <= sval s' m'.
Proof.
  unfold fle, fcompare. rewrite Qle_alt.
  destruct (Qcompare (sval s m) (sval s' m')); split; congruence.
Qed.

Lemma small_ints :
  of_int 30 = Fin false 30 /\ of_int 40 = Fin false 40 /\
  of_int 70 = Fin false 70 /\ of_int 75 = Fin false 75.
Proof. vm_compute. repeat split. Qed.

(** Settles a goal [flt a b = false] or [fle a b = false] about the float
    [x] and small integers from comparisons of the same kind at hand. *)
Ltac float_test x :=
  let E30 := fresh in let E40 := fresh in
  let E70 := fresh in let E75 := fresh in
  destruct small_ints as (E30 & E40 & E70 & E75);
  rewrite ?E30, ?E40, ?E70, ?E75 in *; clear E30 E40 E70 E75;
  destruct x as [| [|] | ? ?]; try (cbn in *; congruence);
  repeat match goal with
         | H : flt (Fin _ _) (Fin _ _) = true |- _ => apply flt_fin in H
         | H : fle (Fin _ _) (Fin _ _) = true |- _ => apply fle_fin in H
         end;
  match goal with
  | |- flt ?a ?b = false =>
      let T := fresh "T" in
      destruct (flt a b) eqn:T; [apply flt_fin in T | reflexivity]
  | |- fle ?a ?b = false =>
      let T := fresh "T" in
      destruct (fle a b) eqn:T; [apply fle_fin in T | reflexivity]
  end;
  exfalso; cbn [sval Qabs Z.abs] in *; lra.

Lemma bucket_below_30 rsi :
  flt rsi (of_int 30) = true -> Spec.rsi_bucket rsi = Some (lit (8 # 10)).
Proof. intros H. unfold Spec.rsi_bucket. now rewrite H. Qed.

Lemma bucket_40_to_70 rsi :
  fle (of_int 40) rsi = true -> fle rsi (of_int 70) = true ->
  Spec.rsi_bucket rsi = Some (lit (7 # 10)).
Proof.
  intros H1 H2. unfold Spec.rsi_bucket. rewrite H1, H2.
  assert (flt rsi (of_int 30) = false) as -> by float_test rsi.
  reflexivity.
Qed.

Lemma bucket_above_75 rsi :
  fgt rsi (of_int 75) = true -> Spec.rsi_bucket rsi = Some (lit (- 8 # 10)).
Proof.
  intros H. unfold Spec.rsi_bucket. rewrite H. unfold fgt in H.
  assert (flt rsi (of_int 30) = false) as -> by float_test rsi.
  assert (fle rsi (of_int 70) = false) as -> by float_test rsi.
  now rewrite andb_false_r.
Qed.

Lemma bucket_30_to_40 rsi :
  flt (of_int 30) rsi = true -> flt rsi (of_int 40) = true ->
  Spec.rsi_bucket rsi = None.
Proof.
  intros H1 H2. unfold Spec.rsi_bucket, fgt.
  assert (flt rsi (of_int 30) = false) as -> by float_test rsi.
  assert (fle (of_int 40) rsi = false) as -> by float_test rsi.
  assert (flt (of_int 75) rsi = false) as -> by float_test rsi.
  reflexivity.
Qed.

Lemma bucket_70_to_75 rsi :
  flt (of_int 70) rsi = true -> fle rsi (of_int 75) = true ->
  Spec.rsi_bucket rsi = None.
Proof.
  intros H1 H2. unfold Spec.rsi_bucket, fgt.
  assert (flt rsi (of_int 30) = false) as -> by float_test rsi.
  assert (fle rsi (of_int 70) = false) as -> by float_test rsi.
  assert (flt (of_int 75) rsi = false) as -> by float_test rsi.
  now rewrite andb_false_r.
Qed.

(** C1.  For every price series of at least twenty closes [compute_score]
    returns a result whose score is the additive composite: the momentum
    times 10.0, plus the RSI bucket (+0.8 below 30, +0.7 from 40 to 70,
    -0.8 above 75, nothing strictly between 30 and 40 or above 70 up to
    75), plus +0.8 when [sma20 > sma50] and -0.2 otherwise, plus the most
    recent one-day percent change times 5.0, which contributes nothing when
    it is undefined. *)
Theorem compute_score_additive_composite L close :
  (20 <= length close)%nat ->
  exists r,
    compute_score L close = Some r /\
    ScoreResult.score r =
      Spec.plus
        (fadd
           (Spec.plus
              (fadd (lit 0) (fmul (ScoreResult.momentum_10d r) (lit 10)))
              (Spec.rsi_bucket (ScoreResult.rsi r)))
           (if fgt (ScoreResult.sma20 r) (ScoreResult.sma50 r)
            then lit (8 # 10) else lit (- 2 # 10)))
        (match pct_change_last L close with
         | Ok change =>
             if is_nan change then None else Some (fmul change (lit 5))
         | Raise _ => None
         end) /\
    (flt (ScoreResult.rsi r) (of_int 30) = true ->
       Spec.rsi_bucket (ScoreResult.rsi r) = Some (lit (8 # 10))) /\
    (fle (of_int 40) (ScoreResult.rsi r) = true ->
     fle (ScoreResult.rsi r) (of_int 70) = true ->
       Spec.rsi_bucket (ScoreResult.rsi r) = Some (lit (7 # 10))) /\
    (fgt (ScoreResult.rsi r) (of_int 75) = true ->
       Spec.rsi_bucket (ScoreResult.rsi r) = Some (lit (- 8 # 10))) /\
    (flt (of_int 30) (ScoreResult.rsi r) = true ->
     flt (ScoreResult.rsi r) (of_int 40) = true ->
       Spec.rsi_bucket (ScoreResult.rsi r) = None) /\
    (flt (of_int 70) (ScoreResult.rsi r) = true ->
     fle (ScoreResult.rsi r) (of_int 75) = true ->
       Spec.rsi_bucket (ScoreResult.rsi r) = None).
Proof.
  intros Hlen. exists (Spec.expected L close).
  split; [now apply compute_score_expected |].
  unfold Spec.expected. destruct (Spec.smas L close) as [sma20 sma50].
  cbn [ScoreResult.score ScoreResult.momentum_10d ScoreResult.rsi
       ScoreResult.sma20 ScoreResult.sma50].
  split; [reflexivity |].
  repeat split.
  - apply bucket_below_30.
  - apply bucket_40_to_70.
  - apply bucket_above_75.
  - apply bucket_30_to_40.
  - apply bucket_70_to_75.
Qed.

(** The composite on the flat series, with an RSI indicator that has
    nothing to say. *)
Lemma compute_score_additive_composite_witness :
  (20 <= length Spec.flat_series)%nat /\
  exists r,
    compute_score Spec.sample_library Spec.flat_series = Some r /\
    ScoreResult.score r = fsub (lit (7 # 10)) (lit (2 # 10)).
Proof.
  assert (20 <= length Spec.flat_series)%nat as H by (vm_compute; lia).
  split; [exact H |].
  destruct (compute_score_additive_composite Spec.sample_library
              Spec.flat_series H) as (r & Hr & Hs & _).
  exists r. split; [exact Hr |].
  rewrite compute_score_expected in Hr by exact H.
  injection Hr as <-. vm_compute. reflexivity.
Defined.

Lemma expected_rsi L close :
  ScoreResult.rsi (Spec.expected L close) = Spec.rsi_or_neutral L close.
Proof. unfold Spec.expected. now destruct (Spec.smas L close). Qed.

Lemma expected_smas L close :
  (ScoreResult.sma20 (Spec.expected L close),
   ScoreResult.sma50 (Spec.expected L close)) = Spec.smas L close.
Proof. unfold Spec.expected. now destruct (Spec.smas L close). Qed.

(** C6.  [compute_score] returns [None] exactly on the series of fewer than
    twenty closes.  With twenty closes or more a failure of the RSI or of
    a rolling mean does not lose the result: the RSI becomes the neutral
    50.0, both averages the latest close. *)
Theorem compute_score_none_iff_short L close :
  (compute_score L close = None <-> (length close < 20)%nat) /\
  ((20 <= length close)%nat ->
   exists r,
     compute_score L close = Some r /\
     (Spec.undefined (rsi_last L close) -> ScoreResult.rsi r = lit 50) /\
     ((exists e, rolling_mean_last L 20 close = Raise e) ->
      ScoreResult.sma20 r = Spec.latest close /\
      ScoreResult.sma50 r = Spec.latest close) /\
     ((50 <= length close)%nat ->
      (exists e, rolling_mean_last L 50 close = Raise e) ->
      ScoreResult.sma20 r = Spec.latest close /\
      ScoreResult.sma50 r = Spec.latest close)).
Proof.
  split.
  - split.
    + intros H. destruct (Nat.lt_ge_cases (length close) 20) as [Hlt | Hge];
        [exact Hlt |].
      rewrite compute_score_expected in H by exact Hge. discriminate.
    + apply compute_score_short.
  - intros Hlen. exists (Spec.expected L close).
    split; [now apply compute_score_expected |].
    rewrite expected_rsi.
    pose proof (expected_smas L close) as E.
    destruct (Spec.smas L close) as [s20 s50] eqn:Hs.
    injection E as -> ->.
    unfold Spec.smas in Hs. repeat split.
    + unfold Spec.rsi_or_neutral, Spec.undefined.
      destruct (rsi_last L close) as [x | e]; [| reflexivity].
      now intros ->.
    + destruct H as [e He]. rewrite He in Hs. now injection Hs as <- <-.
    + destruct H as [e He]. rewrite He in Hs. now injection Hs as <- <-.
    + destruct H0 as [e He].
      rewrite (proj2 (Nat.leb_le _ _) H), He in Hs.
      destruct (rolling_mean_last L 20 close); now injection Hs as <- <-.
    + destruct H0 as [e He].
      rewrite (proj2 (Nat.leb_le _ _) H), He in Hs.
      destruct (rolling_mean_last L 20 close); now injection Hs as <- <-.
Qed.

Lemma flat_series_length : (20 <= length Spec.flat_series)%nat.
Proof. vm_compute. lia. Qed.

Lemma flat_series_smas ind :
  Spec.smas (pandas_with ind) Spec.flat_series = (lit 100, lit 100).
Proof. vm_compute. reflexivity. Qed.

(** On the flat series, whenever the RSI is 50.0 the score is
    0.7 - 0.2. *)
Lemma flat_series_neutral ind :
  Spec.rsi_or_neutral (pandas_with ind) Spec.flat_series = lit 50 ->
  Spec.expected (pandas_with ind) Spec.flat_series =
    ScoreResult.mk (fsub (lit (7 # 10)) (lit (2 # 10)))
      (lit 0) (lit 50) (lit 100) (lit 100) (lit 100).
Proof.
  intros H. unfold Spec.expected. rewrite flat_series_smas, H.
  vm_compute. reflexivity.
Qed.

(** On the flat series, whenever the RSI is 100.0 the score is
    -0.8 - 0.2, which is -1.0. *)
Lemma flat_series_rsi_100 ind :
  Spec.rsi_or_neutral (pandas_with ind) Spec.flat_series = lit 100 ->
  Spec.expected (pandas_with ind) Spec.flat_series =
    ScoreResult.mk (lit (- 1)) (lit 0) (lit 100) (lit 100) (lit 100)
      (lit 100).
Proof.
  intros H. unfold Spec.expected. rewrite flat_series_smas, H.
  vm_compute. reflexivity.
Qed.

(** What [ta] answers on the flat series: no close is below the one
    before, the mean loss is zero, and the RSI is 100. *)
Lemma ta_rsi_flat_series : ta_rsi_last Spec.flat_series = Ok (lit 100).
Proof. vm_compute. reflexivity. Qed.

(** C2, as stated: on the flat series the program returns an RSI of 100.0
    and a score of -1.0, so Scenario A does not hold of it; and no RSI
    indicator at all makes Scenario A come out with an RSI of 50.0 and a
    score near -0.2, since an RSI of 50.0 earns +0.7. *)
Lemma scenario_A_score_is_not_minus_0_2 :
  compute_score installed Spec.flat_series =
    Some (ScoreResult.mk (lit (- 1)) (lit 0) (lit 100) (lit 100) (lit 100)
            (lit 100)) /\
  ~ Spec.scenario_A installed /\
  ~ exists ind, Spec.scenario_A (pandas_with ind).
Proof.
  assert (~ exists ind, Spec.scenario_A (pandas_with ind)) as No.
  { intros [ind (r & Hr & _ & Hrsi & _ & _ & Happ)].
    rewrite compute_score_expected in Hr by exact flat_series_length.
    injection Hr as <-.
    assert (Spec.rsi_or_neutral (pandas_with ind) Spec.flat_series = lit 50)
      as N.
    { rewrite <- expected_rsi. exact Hrsi. }
    rewrite (flat_series_neutral ind N) in Happ.
    vm_compute in Happ. apply Happ. reflexivity. }
  split; [vm_compute; reflexivity |].
  split; [| exact No].
  intros H. apply No. exists ta_rsi_last. exact H.
Qed.

(** C2, amended.  On twenty closes of 100.0 the indicator of [ta] answers
    100.0, and whenever the RSI indicator does, [compute_score] returns
    momentum 0, the RSI 100.0, both averages 100 and the score -1.0: the
    RSI falls in the bucket above 75, which costs 0.8, and the SMA
    relation costs 0.2.  The neutral 50.0 stands in only for NaN or an
    exception. *)
Theorem scenario_A_score ind :
  ind Spec.flat_series = Ok (lit 100) ->
  exists r,
    compute_score (pandas_with ind) Spec.flat_series = Some r /\
    ScoreResult.momentum_10d r = lit 0 /\
    ScoreResult.rsi r = lit 100 /\
    ScoreResult.sma20 r = lit 100 /\
    ScoreResult.sma50 r = lit 100 /\
    ScoreResult.price r = lit 100 /\
    ScoreResult.score r = lit (- 1) /\
    ScoreResult.score r = fsub (fopp (lit (8 # 10))) (lit (2 # 10)).
Proof.
  intros U.
  assert (Spec.rsi_or_neutral (pandas_with ind) Spec.flat_series = lit 100)
    as N.
  { unfold Spec.rsi_or_neutral. cbn [rsi_last pandas_with].
    rewrite U. reflexivity. }
  eexists. split.
  - rewrite compute_score_expected by exact flat_series_length.
    rewrite (flat_series_rsi_100 ind N). reflexivity.
  - cbn [ScoreResult.momentum_10d ScoreResult.rsi ScoreResult.sma20
         ScoreResult.sma50 ScoreResult.score ScoreResult.price].
    do 6 (split; [reflexivity |]). vm_compute. reflexivity.
Qed.

(** Scenario A with the installed libraries. *)
Lemma scenario_A_score_witness :
  ta_rsi_last Spec.flat_series = Ok (lit 100) /\
  exists r,
    compute_score installed Spec.flat_series = Some r /\
    ScoreResult.rsi r = lit 100 /\
    ScoreResult.score r = lit (- 1).
Proof.
  split; [exact ta_rsi_flat_series |].
  destruct (scenario_A_score ta_rsi_last ta_rsi_flat_series)
    as (r & Hr & _ & Hrsi & _ & _ & _ & Hs & _).
  exists r. split; [exact Hr |]. split; [exact Hrsi | exact Hs].
Defined.

End ScoreEngineFacts.

(* ================================================================== *)
(** * Ranker: properties *)
(* ================================================================== *)

Module RankerFacts.

Import Binary64 Binary64Facts Py Ranker.
Local Open Scope Q_scope.

(** ** The order of floats *)

Lemma flt_nan_r x : flt x NaN = false.
Proof. now destruct x. Qed.

Lemma flt_asym x y : flt x y = true -> flt y x = false.
Proof.
  destruct x as [| [|] | s m], y as [| [|] | s' m']; try (cbn; congruence).
  unfold flt, fcompare.
  rewrite <- (Qcompare_antisym (sval s m) (sval s' m')).
  destruct (Qcompare (sval s m) (sval s' m')); cbn; congruence.
Qed.

(** Among numbers, "not below" is transitive. *)
Lemma flt_false_trans x y z :
  is_nan y = false ->
  flt x y = false -> flt y z = false -> flt x z = false.
Proof.
  destruct x as [| [|] | s m], y as [| [|] | s' m'], z as [| [|] | s'' m''];
    try (cbn; congruence).
  intros _ H1 H2.
  destruct (flt (Fin s m) (Fin s'' m'')) eqn:T; [| reflexivity].
  apply ScoreEngineFacts.flt_fin in T.
  assert (~ sval s m < sval s' m') as N1.
  { intros C. apply ScoreEngineFacts.flt_fin in C. congruence. }
  assert (~ sval s' m' < sval s'' m'') as N2.
  { intros C. apply ScoreEngineFacts.flt_fin in C. congruence. }
  apply Qnot_lt_le in N1, N2. lra.
Qed.

Lemma desc_trans a b c : desc a b -> desc b c -> desc a c.
Proof.
  unfold desc. intros [H1 N1] [H2 N2]. split; [| tauto].
  destruct (is_nan (Pick.score b)) eqn:Nb.
  - destruct (Pick.score c) eqn:Ec; try (now specialize (N2 eq_refl)).
    apply flt_nan_r.
  - now apply flt_false_trans with (Pick.score b).
Qed.

Lemma precedes_desc a b : precedes a b = true -> desc a b.
Proof.
  unfold precedes, desc. intros H.
  apply orb_true_iff in H as [H | H].
  - apply andb_true_iff in H as [Na Nb].
    destruct (Pick.score b); try discriminate.
    split; [apply flt_nan_r | reflexivity].
  - split; [now apply flt_asym |].
    intros Na. destruct (Pick.score a); try discriminate.
    now rewrite flt_nan_r in H.
Qed.

Lemma not_precedes_desc a b : precedes a b = false -> desc b a.
Proof.
  unfold precedes, desc. intros H.
  apply orb_false_iff in H as [H1 H2]. split; [exact H2 |].
  intros Nb. rewrite Nb, andb_true_r in H1.
  now destruct (is_nan (Pick.score a)).
Qed.

(** ** Insertion sorts meet the contract of [sort_values] *)

Section Insertion.

Variable lead : Pick.t -> Pick.t -> bool.
Hypothesis lead_desc : forall x y, lead x y = true -> desc x y.
Hypothesis not_lead_desc : forall x y, lead x y = false -> desc y x.

Lemma insert_row_perm x rows :
  Permutation (x :: rows) (insert_row lead x rows).
Proof.
  induction rows as [| y rest IH]; cbn; [apply Permutation_refl |].
  destruct (lead x y); [apply Permutation_refl |].
  eapply perm_trans; [apply perm_swap |]. now apply perm_skip.
Qed.

Lemma insert_row_sorted x rows :
  StronglySorted desc rows -> StronglySorted desc (insert_row lead x rows).
Proof.
  induction rows as [| y rest IH]; cbn; intros Hs.
  - constructor; constructor.
  - inversion Hs as [| ? ? Hrest Hy]; subst.
    destruct (lead x y) eqn:Hl.
    + constructor; [exact Hs |].
      constructor; [now apply lead_desc |].
      eapply Forall_impl; [| exact Hy].
      intros z Hz. apply desc_trans with y; [now apply lead_desc | exact Hz].
    + constructor; [now apply IH |].
      apply (Permutation_Forall (insert_row_perm x rest)).
      constructor; [now apply not_lead_desc | exact Hy].
Qed.

Lemma insertion_sort_contract : sorts_by_score (insertion_sort lead).
Proof.
  intros rows. unfold insertion_sort.
  induction rows as [| x rest [IHp IHs]]; cbn.
  - split; [apply Permutation_refl | constructor].
  - split; [| now apply insert_row_sorted].
    eapply perm_trans; [| apply insert_row_perm]. now apply perm_skip.
Qed.

End Insertion.

Lemma stable_sort_contract : sorts_by_score stable_sort.
Proof.
  apply insertion_sort_contract.
  - intros x y H. apply not_precedes_desc. now apply negb_true_iff.
  - intros x y H. apply precedes_desc. now apply negb_false_iff.
Qed.

(** ** The loop and the cut *)

Section Loop.

Variable L : ScoreEngine.Library.
Variable fetch_history : String.string -> option (list float).

(** The loop collects the valid results in the order of the universe. *)
Lemma scan_valid_results universe results :
  scan L fetch_history universe results =
    results ++ Spec.valid_results L fetch_history universe.
Proof.
  revert results. induction universe as [| sym rest IH]; intros results; cbn.
  - now rewrite app_nil_r.
  - unfold Spec.scored.
    destruct (fetch_history (Text.upper (Text.strip sym))) as [df |];
      [| apply IH].
    destruct (ScoreEngine.compute_score L df) as [r |]; cbn; [| apply IH].
    now rewrite IH, <- app_assoc.
Qed.

End Loop.

Lemma head_prefix {A} n (rows : list A) :
  exists k, head n rows = firstn k rows.
Proof. unfold head. destruct (0 <=? n)%Z; eexists; reflexivity. Qed.

Lemma head_length {A} n (rows : list A) :
  Z.of_nat (length (head n rows)) =
    if (0 <=? n)%Z then Z.min n (Z.of_nat (length rows))
    else Z.max 0 (Z.of_nat (length rows) + n).
Proof.
  unfold head. destruct (Z.leb_spec 0 n); rewrite length_firstn; lia.
Qed.

Lemma firstn_sorted {A} (R : A -> A -> Prop) k rows :
  StronglySorted R rows -> StronglySorted R (firstn k rows).
Proof.
  revert k. induction rows as [| x rest IH]; intros [| k] Hs; cbn;
    try constructor.
  - inversion Hs; subst. now apply IH.
  - inversion Hs as [| ? ? _ Hx]; subst.
    apply Forall_forall. intros y Hy.
    apply (proj1 (Forall_forall _ _) Hx).
    rewrite <- (firstn_skipn k rest). apply in_or_app. now left.
Qed.

(** What [pick_top_symbols] returns, for any [top_n]: the head of the
    sorted valid results. *)
Lemma pick_top_symbols_head L fetch_history sort universe top_n :
  sorts_by_score sort ->
  pick_top_symbols L fetch_history sort universe top_n =
    head top_n (sort (Spec.valid_results L fetch_history universe)).
Proof.
  intros Hsort. unfold pick_top_symbols.
  rewrite scan_valid_results. cbn [app].
  destruct (Spec.valid_results L fetch_history universe) as [| p rest] eqn:E;
    [| reflexivity].
  destruct (Hsort []) as [Hp _]. apply Permutation_nil in Hp. rewrite Hp.
  destruct (head_prefix top_n (@nil Pick.t)) as [k ->]. now destruct k.
Qed.

(** C3, as stated: with [top_n = -1] and two valid symbols the output has
    one row, which is not [min(-1, 2)]. *)
Lemma negative_top_n_drops_from_the_end :
  length (Spec.valid_results Spec.sample_library Spec.sample_fetch
            Spec.Universe.two) = 2%nat /\
  length (pick_top_symbols Spec.sample_library Spec.sample_fetch stable_sort
            Spec.Universe.two (-1)) = 1%nat /\
  ~ Spec.ranker_claim.
Proof.
  do 2 (split; [vm_compute; reflexivity |]).
  intros C.
  destruct (C Spec.sample_library Spec.sample_fetch stable_sort
              Spec.Universe.two (-1)%Z stable_sort_contract) as [H _].
  vm_compute in H. discriminate.
Qed.

(** C3, amended.  For every universe and every [top_n >= 0] the output of
    [pick_top_symbols] has [min(top_n, number of valid results)] rows; for
    a negative [top_n] it is the valid results without the last [-top_n]
    in sorted order.  In both cases it is sorted by score descending, and
    it is the empty list when no symbol qualifies. *)
Theorem pick_top_symbols_length_sorted L fetch_history sort universe top_n :
  sorts_by_score sort ->
  let valid := Spec.valid_results L fetch_history universe in
  let picks := pick_top_symbols L fetch_history sort universe top_n in
  ((0 <= top_n)%Z ->
   Z.of_nat (length picks) = Z.min top_n (Z.of_nat (length valid))) /\
  ((top_n < 0)%Z ->
   Z.of_nat (length picks) = Z.max 0 (Z.of_nat (length valid) + top_n)) /\
  StronglySorted desc picks /\
  (valid = [] -> picks = []).
Proof.
  intros Hsort valid picks. subst picks.
  rewrite (pick_top_symbols_head L fetch_history universe top_n Hsort).
  fold valid. destruct (Hsort valid) as [Hp Hs].
  pose proof (head_length top_n (sort valid)) as Hl.
  rewrite <- (Permutation_length Hp) in Hl.
  repeat split.
  - intros H. now rewrite Hl, (proj2 (Z.leb_le 0 top_n) H).
  - intros H. now rewrite Hl, (proj2 (Z.leb_gt 0 top_n) H).
  - destruct (head_prefix top_n (sort valid)) as [k ->].
    now apply firstn_sorted.
  - intros E. rewrite E in Hp |- *. apply Permutation_nil in Hp. rewrite Hp.
    destruct (head_prefix top_n (@nil Pick.t)) as [k ->]. now destruct k.
Qed.

(** Three valid symbols and [top_n = 2], sorted by the stable insertion
    sort. *)
Lemma pick_top_symbols_length_sorted_witness :
  sorts_by_score stable_sort /\
  length (pick_top_symbols Spec.sample_library Spec.sample_fetch stable_sort
            Spec.Universe.three 2) = 2%nat.
Proof.
  split; [exact stable_sort_contract |].
  destruct (pick_top_symbols_length_sorted Spec.sample_library
              Spec.sample_fetch Spec.Universe.three 2
              stable_sort_contract) as (H & _).
  specialize (H ltac:(lia)).
  apply Nat2Z.inj. rewrite H. vm_compute. reflexivity.
Defined.

(** ** Ties *)

Lemma tied_not_precedes v x y :
  Spec.tied v x = true -> Spec.tied v y = true -> precedes y x = false.
Proof.
  unfold Spec.tied, precedes, feq, flt.
  destruct (Pick.score x) as [| [|] | s m], (Pick.score y) as [| [|] | s' m'],
    v as [| [|] | sv mv]; try (cbn; congruence).
  cbn [fcompare is_nan negb andb orb].
  destruct (Qcompare_spec (sval s m) (sval sv mv)) as [E1 | |]; try discriminate.
  destruct (Qcompare_spec (sval s' m') (sval sv mv)) as [E2 | |]; try discriminate.
  intros _ _.
  destruct (Qcompare_spec (sval s m) (sval s' m')); try reflexivity.
  exfalso. lra.
Qed.

(** Inserting a row the stable way puts it in front of its ties. *)
Lemma stable_insert_ties v x rows :
  filter (Spec.tied v) (insert_row (fun x y => negb (precedes y x)) x rows) =
  filter (Spec.tied v) (x :: rows).
Proof.
  induction rows as [| y rest IH]; [reflexivity |].
  cbn [insert_row].
  destruct (precedes y x) eqn:P; cbn [negb]; [| reflexivity].
  cbn [filter] in *. rewrite IH.
  destruct (Spec.tied v x) eqn:Tx, (Spec.tied v y) eqn:Ty; try reflexivity.
  rewrite (tied_not_precedes v x y Tx Ty) in P. discriminate.
Qed.

Lemma stable_sort_ties rows v :
  filter (Spec.tied v) (stable_sort rows) = filter (Spec.tied v) rows.
Proof.
  unfold stable_sort, insertion_sort.
  induction rows as [| x rest IH]; [reflexivity |].
  cbn [fold_right]. rewrite stable_insert_ties. cbn [filter]. now rewrite IH.
Qed.

(** Every comparison of two rationals in the goal, decided either way. *)
Ltac order_cases :=
  repeat match goal with
  | |- context [Qcompare ?x ?y] =>
      destruct (Qcompare_spec x y); cbv beta iota; try (exfalso; lra)
  end.

(** Runs both sorts on rows whose scores have a known shape. *)
Ltac run_both_sorts :=
  repeat match goal with
  | |- context [sval ?s ?m] => generalize (sval s m); intro
  end;
  cbv -[Qcompare]; order_cases; reflexivity.

(** On three rows or fewer the installed sort returns what the stable sort
    returns. *)
Lemma installed_sort_few wide rows :
  (length rows <= 3)%nat -> installed_sort wide rows = stable_sort rows.
Proof.
  intros Hlen.
  destruct rows
    as [| [y1 k1 ? ? ? ? ?]
          [| [y2 k2 ? ? ? ? ?] [| [y3 k3 ? ? ? ? ?] [| ? ?]]]];
    [reflexivity | | | | cbn in Hlen; lia]; clear Hlen.
  - destruct k1 as [| [|] | s1 m1]; run_both_sorts.
  - destruct k1 as [| [|] | s1 m1], k2 as [| [|] | s2 m2]; run_both_sorts.
  - destruct k1 as [| [|] | s1 m1], k2 as [| [|] | s2 m2],
      k3 as [| [|] | s3 m3]; run_both_sorts.
Qed.

Lemma pick_top_symbols_installed wide L fetch_history universe top_n :
  pick_top_symbols L fetch_history (installed_sort wide) universe top_n =
    head top_n
      (installed_sort wide (Spec.valid_results L fetch_history universe)).
Proof.
  unfold pick_top_symbols. rewrite scan_valid_results. cbn [app].
  destruct (Spec.valid_results L fetch_history universe) as [| p rest];
    [| reflexivity].
  destruct (head_prefix top_n (installed_sort wide [])) as [k ->].
  now destruct k.
Qed.

(** C8, as stated: AAPL and MSFT have the flat series and score -1.0, AMZN
    and NVDA have the rising series and share a higher score.  The sort
    hands the four back in the order NVDA, AMZN, MSFT, AAPL: each pair of
    tied symbols comes out in the opposite order of the universe, and with
    [top_n = 3] the picks are NVDA, AMZN and MSFT. *)
Lemma four_symbols_come_back_reversed :
  map Pick.symbol
    (Spec.valid_results ScoreEngine.installed Spec.mixed_fetch
       Spec.Universe.four) = Spec.Universe.four /\
  (exists low high,
     map Pick.score
       (Spec.valid_results ScoreEngine.installed Spec.mixed_fetch
          Spec.Universe.four) = [low; low; high; high] /\
     low = lit (- 1) /\ flt low high = true) /\
  (forall wide,
     map Pick.symbol
       (pick_top_symbols ScoreEngine.installed Spec.mixed_fetch
          (installed_sort wide) Spec.Universe.four 4) =
       rev Spec.Universe.four /\
     map Pick.symbol
       (pick_top_symbols ScoreEngine.installed Spec.mixed_fetch
          (installed_sort wide) Spec.Universe.four 3) =
       firstn 3 (rev Spec.Universe.four)) /\
  ~ Spec.tie_break_claim.
Proof.
  split; [vm_compute; reflexivity |].
  split.
  { do 2 eexists. split; [vm_compute; reflexivity |].
    split; vm_compute; reflexivity. }
  split.
  { intros wide. split; vm_compute; reflexivity. }
  intros C.
  destruct (C (fun _ => []) ScoreEngine.installed Spec.mixed_fetch
              Spec.Universe.four 4%Z (lit (- 1))) as [rest H].
  vm_compute in H. discriminate.
Qed.

(** C8, amended.  When the universe has three valid symbols or fewer,
    [pick_top_symbols] returns what a stable sort of the valid results by
    descending score would give, cut to [top_n]: the symbols it returns
    with one and the same score are the first of the valid symbols with
    that score, in the order of the universe. *)
Theorem few_results_keep_universe_order wide L fetch_history universe top_n :
  (length (Spec.valid_results L fetch_history universe) <= 3)%nat ->
  pick_top_symbols L fetch_history (installed_sort wide) universe top_n =
    head top_n (stable_sort (Spec.valid_results L fetch_history universe)) /\
  Spec.ties_keep_order (Spec.valid_results L fetch_history universe)
    (pick_top_symbols L fetch_history (installed_sort wide) universe top_n).
Proof.
  intros Hlen.
  rewrite pick_top_symbols_installed, (installed_sort_few wide _ Hlen).
  split; [reflexivity |].
  intros v.
  set (valid := Spec.valid_results L fetch_history universe).
  destruct (head_prefix top_n (stable_sort valid)) as [k ->].
  exists (filter (Spec.tied v) (skipn k (stable_sort valid))).
  now rewrite <- filter_app, firstn_skipn, stable_sort_ties.
Qed.

(** Three symbols with the flat series, and [top_n = 2]: the picks are
    AAPL and MSFT. *)
Lemma few_results_keep_universe_order_witness :
  (length (Spec.valid_results ScoreEngine.installed Spec.sample_fetch
             Spec.Universe.three) <= 3)%nat /\
  map Pick.symbol
    (pick_top_symbols ScoreEngine.installed Spec.sample_fetch
       (installed_sort (fun _ => [])) Spec.Universe.three 2) =
    Spec.Universe.two /\
  Spec.ties_keep_order
    (Spec.valid_results ScoreEngine.installed Spec.sample_fetch
       Spec.Universe.three)
    (pick_top_symbols ScoreEngine.installed Spec.sample_fetch
       (installed_sort (fun _ => [])) Spec.Universe.three 2).
Proof.
  assert (length (Spec.valid_results ScoreEngine.installed Spec.sample_fetch
                    Spec.Universe.three) <= 3)%nat as Hlen
    by (vm_compute; lia).
  split; [exact Hlen |].
  destruct (few_results_keep_universe_order (fun _ => [])
              ScoreEngine.installed Spec.sample_fetch Spec.Universe.three 2
              Hlen) as [Hpicks Hties].
  split; [| exact Hties].
  rewrite Hpicks. vm_compute. reflexivity.
Defined.

End RankerFacts.

(* ================================================================== *)
(** * BudgetAllocator: properties *)
(* ================================================================== *)

Module BudgetAllocatorFacts.

Import Binary64 Binary64Facts Py PyFacts BudgetAllocator.
Import Spec (nonzero_price, below_zero, finite_positive).
Local Open Scope Q_scope.

Lemma positive_nonzero x : Spec.positive x = true -> is_zero x = false.
Proof.
  unfold Spec.positive. change (lit 0) with (Fin false 0).
  destruct x as [| s | s m]; try reflexivity.
  intros H. apply ScoreEngineFacts.flt_fin in H. cbn [is_zero].
  destruct (Qeq_bool m 0) eqn:E; [| reflexivity].
  apply Qeq_bool_iff in E.
  assert (Qabs m == 0) as A by now rewrite E.
  destruct s; cbn [sval Qabs Z.abs] in H; lra.
Qed.

Lemma positive_prices_nonzero picks :
  Forall (fun p => Spec.positive (Pick.price p) = true) picks ->
  Forall nonzero_price picks.
Proof.
  apply Forall_impl. intros p. apply positive_nonzero.
Qed.

(** The loop over picks with nonzero prices: it divides once per pick, by
    the price, and appends the entry of each pick. *)
Lemma plan_loop_ok per tp sl picks plan :
  Forall nonzero_price picks ->
  plan_loop per tp sl picks plan =
    (map Pick.price picks, Ok (plan ++ map (Spec.entry_of per tp sl) picks)).
Proof.
  intros H. revert plan.
  induction H as [| p rest Hp _ IH]; intros plan; cbn [plan_loop map].
  - unfold ret. now rewrite app_nil_r.
  - unfold nonzero_price in Hp. unfold bind, truediv. rewrite Hp.
    rewrite IH. cbn [app]. unfold Spec.entry_of.
    now rewrite <- app_assoc.
Qed.

(** The loop over picks one of which has a zero price. *)
Lemma plan_loop_zero per tp sl picks plan :
  Exists (fun p => is_zero (Pick.price p) = true) picks ->
  outcome (plan_loop per tp sl picks plan) = Raise ZeroDivisionError.
Proof.
  intros H. revert plan.
  induction picks as [| p rest IH]; intros plan; [inversion H |].
  cbn [plan_loop]. unfold bind, truediv.
  destruct (is_zero (Pick.price p)) eqn:Z; [reflexivity |].
  inversion H as [? ? Hp | ? ? Hrest]; subst; [congruence |].
  specialize (IH Hrest
    (plan ++ [Spec.entry_of per tp sl p])).
  unfold Spec.entry_of in IH.
  destruct (plan_loop per tp sl rest _) as [log r]. exact IH.
Qed.

Lemma count_nonzero (picks : list Pick.t) :
  picks <> [] -> is_zero (of_int (Z.of_nat (length picks))) = false.
Proof.
  intros H. apply of_int_nonzero. destruct picks; [congruence | cbn; lia].
Qed.

(** [allocate_budget] on picks with nonzero prices: one division by the
    count, one by each price, and the plan of the specification. *)
Lemma allocate_budget_ok budget picks tp sl :
  picks <> [] -> Forall nonzero_price picks ->
  allocate_budget budget picks tp sl =
    (of_int (Z.of_nat (length picks)) :: map Pick.price picks,
     Ok (map (Spec.entry_of
                (fdiv budget (of_int (Z.of_nat (length picks)))) tp sl)
             picks)).
Proof.
  intros Hne Hnz. unfold allocate_budget.
  destruct picks as [| p rest] eqn:E; [congruence |]. rewrite <- E in *.
  assert ((length picks =? 0)%nat = false) as ->
    by (apply Nat.eqb_neq; subst picks; discriminate).
  unfold bind at 1. unfold truediv. rewrite (count_nonzero Hne).
  now rewrite plan_loop_ok.
Qed.

(** C5.  For every budget, every non-empty list of picks with positive
    prices and every pair of percentages, each entry of the plan has
    [shares = round(per / price, 4)], [cost = round(shares * price, 2)],
    [take_profit_price = round(price * (1 + take_profit_pct), 2)],
    [stop_loss_price = round(price * (1 - stop_loss_pct), 2)] and
    [allocation = round(per, 2)], with [per = budget / count(picks)]; with
    percentages 0.10 and 0.05 a pick priced 50.00 gets the targets 55.00
    and 47.50. *)
Theorem allocate_budget_entries budget picks take_profit_pct stop_loss_pct :
  picks <> [] ->
  Forall (fun p => Spec.positive (Pick.price p) = true) picks ->
  let per := fdiv budget (of_int (Z.of_nat (length picks))) in
  exists plan,
    outcome (allocate_budget budget picks take_profit_pct stop_loss_pct) =
      Ok plan /\
    Forall2
      (fun p e =>
         Entry.shares e = round (fdiv per (Pick.price p)) 4 /\
         Entry.cost e = round (fmul (Entry.shares e) (Pick.price p)) 2 /\
         Entry.take_profit_price e =
           round (fmul (Pick.price p) (fadd (of_int 1) take_profit_pct)) 2 /\
         Entry.stop_loss_price e =
           round (fmul (Pick.price p) (fsub (of_int 1) stop_loss_pct)) 2 /\
         Entry.allocation e = round per 2 /\
         (take_profit_pct = lit (10 # 100) -> stop_loss_pct = lit (5 # 100) ->
          Pick.price p = lit 50 ->
          Entry.take_profit_price e = lit 55 /\
          Entry.stop_loss_price e = lit (475 # 10)))
      picks plan.
Proof.
  intros Hne Hpos per.
  rewrite (allocate_budget_ok budget take_profit_pct stop_loss_pct Hne
             (positive_prices_nonzero Hpos)).
  eexists. split; [reflexivity |]. fold per.
  clearbody per. clear Hne Hpos.
  induction picks as [| p rest IH]; cbn [map]; constructor; [| exact IH].
  cbn [Spec.entry_of Entry.shares Entry.cost Entry.take_profit_price
       Entry.stop_loss_price Entry.allocation].
  do 5 (split; [reflexivity |]).
  intros -> -> ->. vm_compute. split; reflexivity.
Qed.

(** Scenario D: 1000 on one pick priced 50.00, targets at 10% and 5%. *)
Lemma allocate_budget_entries_witness :
  [Spec.pick_at String.EmptyString (lit 50)] <> [] /\
  Forall (fun p => Spec.positive (Pick.price p) = true)
    [Spec.pick_at String.EmptyString (lit 50)] /\
  exists plan,
    outcome (allocate_budget (lit 1000)
               [Spec.pick_at String.EmptyString (lit 50)]
               (lit (10 # 100)) (lit (5 # 100))) = Ok plan /\
    map Entry.take_profit_price plan = [lit 55] /\
    map Entry.stop_loss_price plan = [lit (475 # 10)] /\
    map Entry.shares plan = [lit 20].
Proof.
  assert ([Spec.pick_at String.EmptyString (lit 50)] <> []) as Hne
    by discriminate.
  assert (Forall (fun p => Spec.positive (Pick.price p) = true)
            [Spec.pick_at String.EmptyString (lit 50)]) as Hpos
    by (constructor; [vm_compute; reflexivity | constructor]).
  split; [exact Hne |]. split; [exact Hpos |].
  destruct (allocate_budget_entries (lit 1000) (lit (10 # 100))
              (lit (5 # 100)) Hne Hpos) as (plan & Hplan & Hall).
  exists plan. split; [exact Hplan |].
  inversion Hall as [| p e ps es (Hsh & _ & _ & _ & _ & Hd) Hrest]; subst.
  inversion Hrest; subst.
  destruct (Hd eq_refl eq_refl eq_refl) as [Htp Hsl].
  cbn [map]. rewrite Htp, Hsl, Hsh. vm_compute. repeat split.
Defined.

(** C7.  On the empty list of picks [allocate_budget] returns the empty
    plan and divides by nothing; whenever it does divide by the count, the
    list of picks is not empty and the count is not zero. *)
Theorem allocate_budget_empty budget take_profit_pct stop_loss_pct :
  allocate_budget budget [] take_profit_pct stop_loss_pct = ([], Ok []) /\
  forall picks,
    match divisors (allocate_budget budget picks take_profit_pct
                      stop_loss_pct) with
    | [] => picks = []
    | count :: _ =>
        picks <> [] /\
        count = of_int (Z.of_nat (length picks)) /\
        is_zero count = false
    end.
Proof.
  split; [reflexivity |].
  intros picks. destruct picks as [| p rest] eqn:E; [reflexivity |].
  rewrite <- E.
  assert (picks <> []) as Hne by (subst picks; discriminate).
  unfold allocate_budget.
  assert ((length picks =? 0)%nat = false) as ->
    by (apply Nat.eqb_neq; subst picks; discriminate).
  unfold bind at 1. unfold truediv. rewrite (count_nonzero Hne).
  destruct (plan_loop _ _ _ _ _) as [log r]. cbn [divisors fst app].
  split; [exact Hne |]. split; [reflexivity | exact (count_nonzero Hne)].
Qed.

(** C9.  For every budget and every list of picks one of which has the
    price 0.0, [allocate_budget] ends in the [ZeroDivisionError] of
    [per / price]: no plan is returned and no entry is skipped. *)
Theorem zero_price_raises budget picks take_profit_pct stop_loss_pct :
  Exists (fun p => is_zero (Pick.price p) = true) picks ->
  outcome (allocate_budget budget picks take_profit_pct stop_loss_pct) =
    Raise ZeroDivisionError.
Proof.
  intros H.
  assert (picks <> []) as Hne by (intros ->; inversion H).
  unfold allocate_budget.
  assert ((length picks =? 0)%nat = false) as ->
    by (apply Nat.eqb_neq; destruct picks; [congruence | discriminate]).
  unfold bind at 1. unfold truediv. rewrite (count_nonzero Hne).
  pose proof (plan_loop_zero
                (fdiv budget (of_int (Z.of_nat (length picks))))
                take_profit_pct stop_loss_pct [] H) as Hz.
  destruct (plan_loop _ _ _ _ _) as [log r]. exact Hz.
Qed.

(** A pick priced 100 followed by one priced 0.0. *)
Lemma zero_price_raises_witness :
  Exists (fun p => is_zero (Pick.price p) = true)
    [Spec.pick_at String.EmptyString (lit 100);
     Spec.pick_at String.EmptyString (lit 0)] /\
  outcome (allocate_budget (lit 1000)
             [Spec.pick_at String.EmptyString (lit 100);
              Spec.pick_at String.EmptyString (lit 0)]
             (lit (10 # 100)) (lit (5 # 100))) = Raise ZeroDivisionError.
Proof.
  assert (Exists (fun p => is_zero (Pick.price p) = true)
            [Spec.pick_at String.EmptyString (lit 100);
             Spec.pick_at String.EmptyString (lit 0)]) as H
    by (apply Exists_cons_tl; apply Exists_cons_hd; reflexivity).
  split; [exact H |].
  exact (zero_price_raises (lit 1000) (lit (10 # 100)) (lit (5 # 100)) H).
Defined.

(** ** The sign of the entries *)

Lemma rnd_below_zero q : below_zero (rnd true q).
Proof.
  destruct (rnd_sign true q) as [-> | (r & -> & _)];
    [now left | right; now exists r].
Qed.

Lemma negative_below_zero x : Spec.negative x = true -> below_zero x.
Proof.
  unfold Spec.negative. change (lit 0) with (Fin false 0).
  destruct x as [| [|] | [|] m]; intros H; try (cbn in H; discriminate).
  - now left.
  - right. now exists m.
  - exfalso. apply ScoreEngineFacts.flt_fin in H.
    cbn [sval Qabs Z.abs] in H. pose proof (Qabs_nonneg m). lra.
Qed.

Lemma below_zero_nonpositive x : below_zero x -> Spec.nonpositive x = true.
Proof.
  unfold Spec.nonpositive. change (lit 0) with (Fin false 0).
  intros [-> | [m ->]]; [reflexivity |].
  apply ScoreEngineFacts.fle_fin. cbn [sval Qabs Z.abs].
  pose proof (Qabs_nonneg m). lra.
Qed.

Lemma positive_finite x :
  Spec.positive x = true -> is_finite x = true -> finite_positive x.
Proof.
  intros Hp Hf. pose proof (positive_nonzero x Hp) as Hz.
  unfold Spec.positive in Hp. change (lit 0) with (Fin false 0) in Hp.
  destruct x as [| s | [|] m]; try discriminate.
  - exfalso. apply ScoreEngineFacts.flt_fin in Hp.
    cbn [sval Qabs Z.abs] in Hp. pose proof (Qabs_nonneg m). lra.
  - exists m. split; [reflexivity |]. cbn in Hz.
    now apply Qeq_bool_neq.
Qed.

Lemma fdiv_below_zero x y :
  below_zero x -> finite_positive y -> below_zero (fdiv x y).
Proof.
  intros [-> | [m ->]] (m' & -> & Hm'); cbn [fdiv xorb]; [now left |].
  destruct (Qeq_bool m' 0) eqn:E;
    [apply Qeq_bool_iff in E; contradiction | apply rnd_below_zero].
Qed.

Lemma fmul_below_zero x y :
  below_zero x -> finite_positive y -> below_zero (fmul x y).
Proof.
  intros [-> | [m ->]] (m' & -> & Hm'); cbn [fmul xorb];
    [| apply rnd_below_zero].
  destruct (Qeq_bool m' 0) eqn:E;
    [apply Qeq_bool_iff in E; contradiction | now left].
Qed.

Lemma round_below_zero x nd : below_zero x -> below_zero (round x nd).
Proof.
  intros [-> | [m ->]]; [now left |]. unfold round. apply rnd_below_zero.
Qed.

(** ** The allocation invariant *)

(** The exact sum of as many copies of one finite float as a list has
    elements. *)
Lemma exact_sum_const {A} (x : float) a (l : list A) :
  value x = Some a ->
  exists total,
    Spec.exact_sum (map (fun _ => x) l) = Some total /\
    total == inject_Z (Z.of_nat (length l)) * a.
Proof.
  intros Hx. induction l as [| y rest (t & Ht & Et)]; cbn [map Spec.exact_sum].
  - exists 0. split; [reflexivity |]. cbn. ring.
  - rewrite Hx, Ht. exists (a + t). split; [reflexivity |].
    rewrite Et. cbn [length]. rewrite Nat2Z.inj_succ, <- Z.add_1_r.
    rewrite inject_Z_plus. change (inject_Z 1) with 1. ring.
Qed.

Lemma sval_diff s x y n :
  0 <= x -> 0 <= y ->
  Qabs (n * sval s x - sval s y) == Qabs (n * x - y).
Proof.
  intros Hx Hy. pose proof (Qabs_pos x Hx) as Ex.
  pose proof (Qabs_pos y Hy) as Ey.
  destruct s; cbn [sval]; rewrite Ex, Ey; [| reflexivity].
  setoid_replace (n * - x - - y) with (- (n * x - y)) by ring.
  apply Qabs_opp.
Qed.

(** The magnitude of a binary64 number is not negative. *)
Lemma representable_nonneg s m : representable (Fin s m) -> 0 <= m.
Proof.
  cbn [representable]. intros H.
  destruct (rnd_sign s m) as [E | (r & E & Hr)]; rewrite E in H;
    [discriminate |].
  now injection H as <-.
Qed.

Lemma allocation_budget_bounds :
  1000000000000 + 1 <= pow2 40 /\
  pow2 (Z.max (40 - 53) (-1075)) == 1 # 8192 /\
  pow2 (Z.max (41 - 53) (-1075)) == 1 # 4096 /\
  pow2 41 == 2 * pow2 40 /\ (1 # 2) / pow10 2 == 1 # 200.
Proof. vm_compute. repeat split; discriminate. Qed.

(** C4, as stated: a budget of 10^15 split over six picks gives six
    allocations of 166666666666666.65625, which add up to 0.0625 less
    than the budget, more than the six cents allowed. *)
Lemma large_budget_breaks_the_invariant :
  (exists plan,
     outcome (allocate_budget (lit 1000000000000000)
                (repeat (Spec.pick_at String.EmptyString (lit 100)) 6)
                (lit (10 # 100)) (lit (5 # 100))) = Ok plan /\
     map Entry.allocation plan =
       repeat (Fin false (5333333333333333 # 32)) 6 /\
     round (lit 1000000000000000) 2 = Fin false 1000000000000000 /\
     ~ Spec.allocation_invariant (lit 1000000000000000) plan /\
     Spec.allocation_check (lit 1000000000000000) plan = false) /\
  ~ Spec.allocation_claim.
Proof.
  split.
  { eexists. split; [vm_compute; reflexivity |].
    do 2 (split; [vm_compute; reflexivity |]).
    split; [| vm_compute; reflexivity].
    intros H. vm_compute in H. apply H. reflexivity. }
  intros C.
  destruct (C (lit 1000000000000000)
              (repeat (Spec.pick_at String.EmptyString (lit 100)) 6)
              (lit (10 # 100)) (lit (5 # 100)))
    as (plan & Hplan & Hinv).
  - discriminate.
  - apply Forall_forall. intros p Hp. apply repeat_spec in Hp. subst p.
    vm_compute. reflexivity.
  - vm_compute in Hplan. injection Hplan as <-.
    vm_compute in Hinv. apply Hinv. reflexivity.
Qed.

(** C4, amended.  For every binary64 budget of magnitude at most 10^12
    and every non-empty list of fewer than 2^53 picks with positive prices,
    the allocations of the plan add up to [round(budget, 2)] within
    [count(picks) * 0.01], the sum and the difference being exact. *)
Theorem allocations_add_up budget b picks take_profit_pct stop_loss_pct :
  representable budget ->
  value budget = Some b -> Qabs b <= 1000000000000 ->
  picks <> [] -> (Z.of_nat (length picks) < 2 ^ 53)%Z ->
  Forall (fun p => Spec.positive (Pick.price p) = true) picks ->
  exists plan,
    outcome (allocate_budget budget picks take_profit_pct stop_loss_pct) =
      Ok plan /\
    Spec.allocation_invariant budget plan.
Proof.
  intros Hrep Hval Hmag Hne Hlen Hprices.
  rewrite (allocate_budget_ok budget take_profit_pct stop_loss_pct Hne
             (positive_prices_nonzero Hprices)).
  eexists. split; [reflexivity |].
  destruct budget as [| | sb mb]; try discriminate.
  pose proof (representable_nonneg Hrep) as Hmb.
  cbn [value] in Hval. injection Hval as <-.
  assert (mb <= 1000000000000) as Hmb'.
  { pose proof (Qabs_pos mb Hmb) as Em.
    pose proof (Qabs_pos _ (Qabs_nonneg mb)) as Em'.
    destruct sb; cbn [sval] in Hmag; [rewrite Qabs_opp in Hmag |];
      rewrite Em' in Hmag; lra. }
  clear Hmag.
  destruct allocation_budget_bounds as (B40 & E13 & E12 & B41 & E200).
  set (n := Z.of_nat (length picks)) in *.
  assert (1 <= n)%Z as Hn1 by (subst n; destruct picks; [congruence | cbn; lia]).
  set (N := inject_Z n).
  assert (1 <= N) as HN1.
  { unfold N. change 1 with (inject_Z 1). now rewrite <- Zle_Qle. }
  (* the target *)
  destruct (@round_error sb mb 2 41 Hmb ltac:(lra) ltac:(lia))
    as (rt & Et & Hrt0 & Hrt).
  rewrite E200, E12 in Hrt.
  (* the share of one pick *)
  set (per := fdiv (Fin sb mb) (of_int n)).
  assert (exists rp, per = Fin sb rp /\ 0 <= rp /\
                     Qabs (rp - mb / N) <= 1 # 8192 /\
                     (n = 1%Z -> rp = mb)) as (rp & Eper & Hrp0 & Hrp & Hone).
  { unfold per. rewrite of_int_exact by lia. fold N. cbn [fdiv].
    assert (Qeq_bool N 0 = false) as ->.
    { destruct (Qeq_bool N 0) eqn:E; [| reflexivity].
      apply Qeq_bool_iff in E. lra. }
    rewrite xorb_false_r.
    assert (0 <= mb / N) as Hq0 by (apply Qle_shift_div_l; lra).
    assert (mb / N <= pow2 40) as Hq1.
    { apply Qle_shift_div_r; [lra |]. pose proof (pow2_pos 40). nra. }
    destruct (@rnd_error sb (mb / N) 40 Hq0 Hq1 ltac:(lia))
      as (rp & Erp & Hrp0 & Hrp).
    rewrite E13 in Hrp.
    exists rp. repeat split; try assumption.
    intros H1.
    assert (mb / N == mb) as Eq1.
    { unfold N. rewrite H1. change (inject_Z 1) with 1. field. }
    rewrite (rnd_compat sb Eq1) in Erp. cbn [representable] in Hrep.
    rewrite Hrep in Erp. now injection Erp. }
  (* the allocation of one pick *)
  assert (mb / N <= mb) as Hshare.
  { apply Qle_shift_div_r; [lra |]. nra. }
  apply Qabs_Qle_condition in Hrp.
  destruct (@round_error sb rp 2 41 Hrp0 ltac:(lra) ltac:(lia))
    as (ra & Ea & Hra0 & Hra).
  rewrite E200, E12 in Hra.
  (* the sum *)
  unfold Spec.allocation_invariant.
  rewrite map_map. cbn [Spec.entry_of Entry.allocation].
  fold n. fold per. rewrite Eper, Ea, Et.
  destruct (exact_sum_const (Fin sb ra) picks (a := sval sb ra) eq_refl)
    as (total & -> & Etotal).
  cbn [value]. rewrite length_map. fold n. fold N.
  rewrite Etotal. fold n. fold N.
  rewrite (sval_diff sb N Hra0 Hrt0).
  destruct (Z.eq_dec n 1) as [H1 | H1].
  - (* a single pick: the allocation is the target *)
    specialize (Hone H1). subst rp.
    rewrite Et in Ea. injection Ea as <-.
    assert (N == 1) as -> by (unfold N; now rewrite H1).
    apply Qabs_Qle_condition. split; lra.
  - (* two picks or more: half a cent per pick and half a cent for the
       target leave room for the rounding of the divisions *)
    assert (2 <= N) as HN2.
    { unfold N. change 2 with (inject_Z 2). rewrite <- Zle_Qle. lia. }
    assert (N * (mb / N) == mb) as Hmul by (field; lra).
    apply Qabs_Qle_condition in Hra, Hrt.
    set (d := ra - mb / N) in *.
    assert (- ((1 # 200) + (1 # 4096) + (1 # 8192)) <= ra - mb / N
            <= (1 # 200) + (1 # 4096) + (1 # 8192)) as Hd by lra.
    assert (N * ra - rt == N * (ra - mb / N) + (mb - rt)) as ->
      by (rewrite <- Hmul at 2; ring).
    apply Qabs_Qle_condition.
    split; nra.
Qed.

(** Scenario B: 900 over three picks priced 100, 150 and 300. *)
Lemma allocations_add_up_witness :
  representable (lit 900) /\
  exists plan,
    outcome (allocate_budget (lit 900)
               [Spec.pick_at String.EmptyString (lit 100);
                Spec.pick_at String.EmptyString (lit 150);
                Spec.pick_at String.EmptyString (lit 300)]
               (lit (10 # 100)) (lit (5 # 100))) = Ok plan /\
    Spec.allocation_invariant (lit 900) plan.
Proof.
  assert (representable (lit 900)) as Hrep by (vm_compute; reflexivity).
  split; [exact Hrep |].
  apply (@allocations_add_up (lit 900) 900
           [Spec.pick_at String.EmptyString (lit 100);
            Spec.pick_at String.EmptyString (lit 150);
            Spec.pick_at String.EmptyString (lit 300)]
           (lit (10 # 100)) (lit (5 # 100)) Hrep).
  - vm_compute. reflexivity.
  - vm_compute. discriminate.
  - discriminate.
  - vm_compute. reflexivity.
  - repeat constructor; vm_compute; reflexivity.
Defined.

(** Scenario B: 900 over three picks priced 100, 150 and 300 allocates 300
    to each and buys 3, 2 and 1 shares at a cost of 300 each. *)
Example scenario_B :
  match outcome (allocate_budget (lit 900)
                   [Spec.pick_at String.EmptyString (lit 100);
                    Spec.pick_at String.EmptyString (lit 150);
                    Spec.pick_at String.EmptyString (lit 300)]
                   (lit (10 # 100)) (lit (5 # 100))) with
  | Ok plan =>
      map Entry.allocation plan = [lit 300; lit 300; lit 300] /\
      map Entry.shares plan = [lit 3; lit 2; lit 1] /\
      map Entry.cost plan = [lit 300; lit 300; lit 300]
  | Raise _ => False
  end.
Proof. vm_compute. repeat split. Qed.

End BudgetAllocatorFacts.

(* ================================================================== *)
(** * The order of floats under rounding *)
(* ================================================================== *)

Module RoundingFacts.

Import Binary64 Py Binary64Facts PyFacts ScoreEngineFacts.
Local Open Scope Q_scope.

Lemma round_half_even_bounds q :
  (Qfloor q <= round_half_even q <= Qfloor q + 1)%Z.
Proof.
  unfold round_half_even.
  destruct (Qcompare _ _); try destruct (Z.even _); lia.
Qed.

Lemma round_half_even_mono p q :
  p <= q -> (round_half_even p <= round_half_even q)%Z.
Proof.
  intros H.
  pose proof (Qfloor_resp_le _ _ H) as Hf.
  pose proof (round_half_even_bounds p) as Bp.
  pose proof (round_half_even_bounds q) as Bq.
  destruct (Z.eq_dec (Qfloor p) (Qfloor q)) as [E | N]; [| lia].
  clear Bp Bq. unfold round_half_even. rewrite E.
  destruct (Qcompare_spec (p - inject_Z (Qfloor q)) (1 # 2)) as [Cp | Cp | Cp];
    destruct (Qcompare_spec (q - inject_Z (Qfloor q)) (1 # 2))
      as [Cq | Cq | Cq];
    try destruct (Z.even (Qfloor q)); try lia; exfalso; lra.
Qed.

Lemma ilog2_mono p q : 0 < p -> p <= q -> (ilog2 p <= ilog2 q)%Z.
Proof.
  intros Hp Hpq.
  assert (0 < q) as Hq by lra.
  destruct (ilog2_spec Hp) as [Lp _].
  destruct (ilog2_spec Hq) as [_ Uq].
  assert (pow2 (ilog2 p) < pow2 (ilog2 q + 1)) as H by lra.
  apply pow2_lt_inv in H. lia.
Qed.

Lemma pow2_split a b : pow2 a == pow2 (a - b) * pow2 b.
Proof. rewrite <- pow2_add. now replace (a - b + b)%Z with a by lia. Qed.

(** Rounding to nearest does not reverse the order of two magnitudes. *)
Lemma raw_mono p q :
  0 < p -> p <= q ->
  inject_Z (round_half_even (p / pow2 (ulp_exp p))) * pow2 (ulp_exp p) <=
  inject_Z (round_half_even (q / pow2 (ulp_exp q))) * pow2 (ulp_exp q).
Proof.
  intros Hp Hpq.
  assert (0 < q) as Hq by lra.
  pose proof (ilog2_mono Hp Hpq) as Hlog.
  destruct (ilog2_spec Hp) as [_ Up].
  destruct (ilog2_spec Hq) as [Lq _].
  set (ep := ilog2 p) in *. set (eq := ilog2 q) in *.
  assert (ulp_exp p = Z.max (ep - 52) (-1074)) as EP by reflexivity.
  assert (ulp_exp q = Z.max (eq - 52) (-1074)) as EQ by reflexivity.
  set (Ep := ulp_exp p) in *. set (Eq := ulp_exp q) in *.
  pose proof (pow2_pos Ep) as HEp. pose proof (pow2_pos Eq) as HEq.
  destruct (Z.eq_dec Ep Eq) as [Same | Diff].
  - rewrite Same. apply Qmult_le_compat_r; [| lra].
    rewrite <- Zle_Qle. apply round_half_even_mono.
    apply Qle_shift_div_l; [lra |].
    rewrite Same in HEp.
    setoid_replace (p / pow2 Eq * pow2 Eq) with p by (field; lra).
    exact Hpq.
  - assert (Ep < Eq)%Z as Lt by lia.
    assert (Eq = eq - 52)%Z as EQ' by lia.
    set (K := Z.max (ep + 1 - Ep) 0).
    assert (0 <= K)%Z as HK by lia.
    assert (K + Ep <= eq)%Z as HKE by lia.
    apply Qle_trans with (pow2 eq).
    + apply Qle_trans with (pow2 (K + Ep)); [| apply pow2_le; lia].
      rewrite pow2_add. apply Qmult_le_compat_r; [| lra].
      rewrite (pow2_inject HK). rewrite <- Zle_Qle.
      rewrite <- (round_half_even_Z (2 ^ K)).
      apply round_half_even_mono. rewrite <- (pow2_inject HK).
      apply Qle_shift_div_r; [lra |].
      rewrite <- pow2_add.
      apply Qle_trans with (pow2 (ep + 1)); [lra | apply pow2_le; lia].
    + rewrite (pow2_split eq Eq).
      apply Qmult_le_compat_r; [| lra].
      replace (eq - Eq)%Z with 52%Z by lia.
      rewrite (@pow2_inject 52 ltac:(lia)). rewrite <- Zle_Qle.
      rewrite <- (round_half_even_Z (2 ^ 52)) at 1.
      apply round_half_even_mono.
      rewrite <- (@pow2_inject 52 ltac:(lia)).
      apply Qle_shift_div_l; [lra |].
      rewrite <- pow2_add. replace (52 + Eq)%Z with eq by lia. exact Lq.
Qed.

Lemma rnd_zero s q : Qabs q == 0 -> rnd s q = Fin s 0.
Proof.
  intros H. unfold rnd.
  assert (Qle_bool (Qred (Qabs q)) 0 = true) as ->; [| reflexivity].
  apply Qle_bool_iff. rewrite Qred_correct, H. lra.
Qed.

Lemma rnd_mono s p q :
  Qabs p <= Qabs q ->
  rnd s q = Inf s \/
  exists a b, rnd s p = Fin s a /\ rnd s q = Fin s b /\ 0 <= a /\ a <= b.
Proof.
  intros H.
  pose proof (Qabs_nonneg p) as Hp0.
  destruct (Qle_bool (Qabs p) 0) eqn:Zp.
  - apply Qle_bool_iff in Zp.
    assert (Qabs p == 0) as Z0 by lra.
    rewrite (rnd_zero s p Z0).
    destruct (rnd_sign s q) as [-> | (r & -> & Hr)]; [now left | right].
    exists 0, r. repeat split; lra.
  - assert (0 < Qabs p) as Hp.
    { apply Qnot_le_lt. intros C. apply Qle_bool_iff in C. congruence. }
    unfold rnd.
    pose proof (Qred_correct (Qabs p)) as Rp.
    pose proof (Qred_correct (Qabs q)) as Rq.
    set (p' := Qred (Qabs p)) in *. set (q' := Qred (Qabs q)) in *.
    assert (0 < p') as Hp' by lra.
    assert (p' <= q') as Hpq by lra.
    assert (Qle_bool p' 0 = false) as ->.
    { destruct (Qle_bool p' 0) eqn:C; [| reflexivity].
      apply Qle_bool_iff in C. lra. }
    assert (Qle_bool q' 0 = false) as ->.
    { destruct (Qle_bool q' 0) eqn:C; [| reflexivity].
      apply Qle_bool_iff in C. lra. }
    pose proof (raw_mono Hp' Hpq) as M.
    set (rp := inject_Z (round_half_even (p' / pow2 (ulp_exp p'))) *
               pow2 (ulp_exp p')) in *.
    set (rq := inject_Z (round_half_even (q' / pow2 (ulp_exp q'))) *
               pow2 (ulp_exp q')) in *.
    pose proof (Qred_correct rp) as Rrp.
    pose proof (Qred_correct rq) as Rrq.
    assert (0 <= rp) as Hrp.
    { subst rp. pose proof (pow2_pos (ulp_exp p')) as HE.
      apply Qmult_le_0_compat; [| lra].
      change 0 with (inject_Z 0). rewrite <- Zle_Qle.
      apply round_half_even_nonneg. apply Qle_shift_div_l; lra. }
    destruct (Qle_bool (pow2 1024) (Qred rq)) eqn:Oq; [now left | right].
    assert (Qle_bool (pow2 1024) (Qred rp) = false) as ->.
    { destruct (Qle_bool (pow2 1024) (Qred rp)) eqn:Op; [| reflexivity].
      apply Qle_bool_iff in Op.
      assert (Qle_bool (pow2 1024) (Qred rq) = true) as T.
      { apply Qle_bool_iff.
        apply Qle_trans with (Qred rp); [exact Op |].
        apply Qle_trans with rp; [rewrite Rrp; apply Qle_refl |].
        apply Qle_trans with rq; [exact M |].
        rewrite Rrq. apply Qle_refl. }
      congruence. }
    exists (Qred rp), (Qred rq). split; [reflexivity |].
    split; [reflexivity |]. split.
    + apply Qle_trans with rp; [exact Hrp | rewrite Rrp; apply Qle_refl].
    + apply Qle_trans with rp; [rewrite Rrp; apply Qle_refl |].
      apply Qle_trans with rq; [exact M | rewrite Rrq; apply Qle_refl].
Qed.


(** Rounding does not reverse the order of two signed values. *)
Lemma rnd_signed_le sb qb sa qa :
  sval sb qb <= sval sa qa -> fle (rnd sb qb) (rnd sa qa) = true.
Proof.
  intros H.
  pose proof (Qabs_nonneg qa) as Ha. pose proof (Qabs_nonneg qb) as Hb.
  destruct sb, sa; cbn [sval] in H.
  - assert (Qabs qa <= Qabs qb) as M by lra.
    destruct (@rnd_mono true qa qb M) as [-> | (a & b & -> & -> & A & B)].
    + destruct (rnd_sign true qa) as [-> | (r & -> & _)]; reflexivity.
    + apply fle_fin. cbn [sval].
      rewrite (Qabs_pos a) by lra. rewrite (Qabs_pos b) by lra. lra.
  - destruct (rnd_sign true qb) as [-> | (r & -> & Hr)];
      destruct (rnd_sign false qa) as [-> | (r' & -> & Hr')];
      try reflexivity.
    apply fle_fin. cbn [sval].
    pose proof (Qabs_nonneg r). pose proof (Qabs_nonneg r'). lra.
  - assert (Qabs qa == 0) as Za by lra.
    assert (Qabs qb == 0) as Zb by lra.
    rewrite (rnd_zero false qb Zb), (rnd_zero true qa Za). reflexivity.
  - assert (Qabs qb <= Qabs qa) as M by lra.
    destruct (@rnd_mono false qb qa M) as [-> | (a & b & -> & -> & A & B)].
    + destruct (rnd_sign false qb) as [-> | (r & -> & _)]; reflexivity.
    + apply fle_fin. cbn [sval].
      rewrite (Qabs_pos a) by lra. rewrite (Qabs_pos b) by lra. lra.
Qed.



Lemma fle_trans x y z : fle x y = true -> fle y z = true -> fle x z = true.
Proof.
  destruct x as [| [|] | sx mx], y as [| [|] | sy my], z as [| [|] | sz mz];
    try (cbn; congruence).
  rewrite !fle_fin. lra.
Qed.

(** [round(x, ndigits)] does not reverse the order of two floats. *)
Lemma round_mono x y nd :
  fle x y = true -> fle (round x nd) (round y nd) = true.
Proof.
  destruct x as [| [|] | sx mx], y as [| [|] | sy my];
    try (cbn; congruence); intros H.
  - cbn [round]. destruct (rnd_sign sy (inject_Z (round_half_even
        (Qabs my * pow10 nd)) / pow10 nd)) as [-> | (r & -> & _)];
      destruct sy; reflexivity.
  - cbn [round]. destruct (rnd_sign sx (inject_Z (round_half_even
        (Qabs mx * pow10 nd)) / pow10 nd)) as [-> | (r & -> & _)];
      destruct sx; reflexivity.
  - apply fle_fin in H. cbn [round]. apply rnd_signed_le.
    pose proof (pow10_ge_1 nd) as P.
    pose proof (Qabs_nonneg mx) as Hx. pose proof (Qabs_nonneg my) as Hy.
    assert (forall m, 0 <= Qabs m ->
              0 <= inject_Z (round_half_even (Qabs m * pow10 nd)) / pow10 nd)
      as Nonneg.
    { intros m Hm. apply Qle_shift_div_l; [lra |].
      rewrite Qmult_0_l. change 0 with (inject_Z 0). rewrite <- Zle_Qle.
      apply round_half_even_nonneg. apply Qmult_le_0_compat; lra. }
    assert (forall a b, 0 <= Qabs a -> Qabs a <= Qabs b ->
              inject_Z (round_half_even (Qabs a * pow10 nd)) / pow10 nd <=
              inject_Z (round_half_even (Qabs b * pow10 nd)) / pow10 nd)
      as Mono.
    { intros a b _ Hab. apply Qmult_le_compat_r.
      - rewrite <- Zle_Qle. apply round_half_even_mono.
        apply Qmult_le_compat_r; lra.
      - apply Qlt_le_weak, Qinv_lt_0_compat. lra. }
    pose proof (Nonneg mx Hx) as Nx. pose proof (Nonneg my Hy) as Ny.
    destruct sx, sy; cbn [sval] in *;
      rewrite ?(Qabs_pos _ Nx), ?(Qabs_pos _ Ny).
    + assert (Qabs my <= Qabs mx) as M by lra.
      pose proof (Mono my mx Hy M). lra.
    + lra.
    + assert (Qabs mx == 0) as Zx by lra.
      assert (Qabs my == 0) as Zy by lra.
      assert (Qabs mx <= Qabs my) as M1 by lra.
      assert (Qabs my <= Qabs mx) as M2 by lra.
      pose proof (Mono mx my Hx M1). pose proof (Mono my mx Hy M2).
      assert (inject_Z (round_half_even (Qabs mx * pow10 nd)) / pow10 nd == 0).
      { assert (Qabs mx * pow10 nd == inject_Z 0) as E
          by (rewrite Zx; ring).
        rewrite (round_half_even_compat E), round_half_even_Z.
        unfold Qdiv. ring. }
      lra.
    + assert (Qabs mx <= Qabs my) as M by lra.
      pose proof (Mono mx my Hx M). lra.
Qed.

(** Multiplying by a positive finite float does not reverse the order. *)
Lemma fmul_mono p x y :
  Spec.finite_positive p -> fle x y = true ->
  fle (fmul p x) (fmul p y) = true.
Proof.
  intros (m & -> & Hm) H.
  assert (Qeq_bool m 0 = false) as Nz.
  { destruct (Qeq_bool m 0) eqn:E; [| reflexivity].
    apply Qeq_bool_iff in E. contradiction. }
  destruct x as [| [|] | sx mx], y as [| [|] | sy my];
    try (cbn in H; congruence); cbn [fmul xorb]; rewrite ?Nz;
    try reflexivity.
  - destruct (rnd_sign sy (m * my)) as [-> | (r & -> & _)];
      destruct sy; reflexivity.
  - destruct (rnd_sign sx (m * mx)) as [-> | (r & -> & _)];
      destruct sx; reflexivity.
  - apply fle_fin in H. apply rnd_signed_le.
    assert (forall s v, sval s (m * v) == Qabs m * sval s v) as E.
    { intros s v. destruct s; cbn [sval]; rewrite Qabs_Qmult; ring. }
    rewrite !E. pose proof (Qabs_nonneg m) as Hm0.
    rewrite !(Qmult_comm (Qabs m)).
    apply Qmult_le_compat_r; assumption.
Qed.

Lemma of_int_0_1 : of_int 0 = Fin false 0 /\ of_int 1 = Fin false 1 /\
                   rnd false 1 = Fin false 1.
Proof. vm_compute. repeat split; reflexivity. Qed.

End RoundingFacts.

(* ================================================================== *)
(** * Text: the normal form of a symbol *)
(* ================================================================== *)

Module NormalFormFacts.

Import Text.
Import Ascii String.
Local Open Scope string_scope.

Lemma upper_char_idem c : upper_char (upper_char c) = upper_char c.
Proof. destruct c as [[] [] [] [] [] [] [] []]; reflexivity. Qed.

Lemma is_space_upper_char c : is_space (upper_char c) = is_space c.
Proof. destruct c as [[] [] [] [] [] [] [] []]; reflexivity. Qed.

Lemma upper_idem s : upper (upper s) = upper s.
Proof.
  induction s as [| c s IH]; [reflexivity |].
  cbn. now rewrite upper_char_idem, IH.
Qed.

Lemma upper_lstrip s : upper (lstrip s) = lstrip (upper s).
Proof.
  induction s as [| c s IH]; [reflexivity |].
  cbn [lstrip upper]. rewrite is_space_upper_char.
  destruct (is_space c); [exact IH | reflexivity].
Qed.

Lemma upper_rev_onto s : forall acc,
  upper (rev_onto s acc) = rev_onto (upper s) (upper acc).
Proof.
  induction s as [| c s IH]; intros acc; [reflexivity |].
  cbn [rev_onto upper]. now rewrite IH.
Qed.

Lemma upper_reverse s : upper (reverse s) = reverse (upper s).
Proof. apply upper_rev_onto. Qed.

Lemma upper_strip s : upper (strip s) = strip (upper s).
Proof.
  unfold strip.
  now rewrite upper_reverse, upper_lstrip, upper_reverse, upper_lstrip.
Qed.

Lemma append_assoc s t u :
  String.append (String.append s t) u = String.append s (String.append t u).
Proof. induction s; cbn; congruence. Qed.

Lemma append_empty_r s : String.append s EmptyString = s.
Proof. induction s; cbn; congruence. Qed.

Lemma rev_onto_append s : forall acc,
  rev_onto s acc = String.append (reverse s) acc.
Proof.
  unfold reverse.
  induction s as [| c s IH]; intros acc; [reflexivity |].
  cbn [rev_onto]. rewrite IH, (IH (String c EmptyString)).
  now rewrite append_assoc.
Qed.

Lemma reverse_cons c s :
  reverse (String c s) = String.append (reverse s) (String c EmptyString).
Proof. unfold reverse. cbn [rev_onto]. apply rev_onto_append. Qed.

Lemma reverse_append s t :
  reverse (String.append s t) = String.append (reverse t) (reverse s).
Proof.
  induction s as [| c s IH]; cbn [String.append].
  - change (reverse EmptyString) with EmptyString.
    now rewrite append_empty_r.
  - now rewrite !reverse_cons, IH, append_assoc.
Qed.

Lemma reverse_involutive s : reverse (reverse s) = s.
Proof.
  induction s as [| c s IH]; [reflexivity |].
  rewrite reverse_cons, reverse_append, IH. reflexivity.
Qed.

Lemma lstrip_idem s : lstrip (lstrip s) = lstrip s.
Proof.
  induction s as [| c s IH]; [reflexivity |].
  cbn. destruct (is_space c) eqn:E; [exact IH |].
  cbn. now rewrite E.
Qed.

(** Stripping on the left a text that ends with a character that is not a
    space leaves that character at the end. *)
Lemma lstrip_snoc s c :
  is_space c = false ->
  exists w, lstrip (String.append s (String c EmptyString)) =
            String.append w (String c EmptyString).
Proof.
  intros Hc. induction s as [| d s [w IH]].
  - exists EmptyString. cbn. now rewrite Hc.
  - cbn. destruct (is_space d).
    + now exists w.
    + now exists (String d s).
Qed.

Lemma strip_idem s : strip (strip s) = strip s.
Proof.
  unfold strip.
  assert (forall t, lstrip t = t ->
                    lstrip (reverse (lstrip (reverse t))) =
                    reverse (lstrip (reverse t))) as Keep.
  { intros [| c t] Ht; [reflexivity |].
    cbn in Ht. destruct (is_space c) eqn:Hc.
    - exfalso. clear - Ht.
      assert (String.length (lstrip t) <= String.length t)%nat as Hlen.
      { clear. induction t as [| d t IH]; cbn; [lia |].
        destruct (is_space d); cbn; lia. }
      rewrite Ht in Hlen. cbn in Hlen. lia.
    - rewrite reverse_cons.
      destruct (lstrip_snoc (reverse t) c Hc) as [w ->].
      rewrite reverse_append. cbn. unfold reverse at 1. cbn.
      now rewrite Hc. }
  rewrite (Keep (lstrip s) (lstrip_idem s)).
  now rewrite reverse_involutive, lstrip_idem.
Qed.

(** The symbol [pick_top_symbols] works with, [sym.strip().upper()], is
    its own normal form. *)
Lemma normal_form_idem s :
  upper (strip (upper (strip s))) = upper (strip s).
Proof. now rewrite <- upper_strip, upper_idem, strip_idem. Qed.

End NormalFormFacts.

(* ================================================================== *)
(** * Configuration: properties *)
(* ================================================================== *)

Module EnvFacts.

Import Binary64 Py Env.
Import Ascii String.
Local Open Scope string_scope.
Local Open Scope list_scope.

Lemma join_cons sep piece next rest :
  join sep (piece :: next :: rest) =
    String.append piece (String.append sep (join sep (next :: rest))).
Proof. reflexivity. Qed.

(** Cutting at the commas and joining with commas are inverse. *)
Lemma split_commas_join s :
  join "," (split_commas s) = s /\
  split_commas s <> [] /\
  Forall (fun piece => has_comma piece = false) (split_commas s).
Proof.
  induction s as [| c rest (J & N & F)].
  - cbn. repeat split; [discriminate | repeat constructor].
  - cbn [split_commas]. destruct (Ascii.eqb c ",") eqn:C.
    + apply Ascii.eqb_eq in C. subst c.
      destruct (split_commas rest) as [| piece pieces]; [congruence |].
      rewrite join_cons, J. repeat split; [discriminate |].
      constructor; [reflexivity | assumption].
    + destruct (split_commas rest) as [| piece pieces]; [congruence |].
      repeat split; [| discriminate |].
      * rewrite <- J. destruct pieces; reflexivity.
      * inversion F; subst. constructor; [| assumption].
        cbn. now rewrite C.
Qed.

Section Load.

Variable getenv : string -> option string.
Variable int_of_string : string -> option Z.
Variable float_of_string : string -> option float.

(** Loading the module fails exactly when [TOP_N], [TAKE_PROFIT_PCT] or
    [STOP_LOSS_PCT] is not a number, with [ValueError].  Otherwise every
    setting is what the environment (or the default) says, and the
    universe is the text of [UNIVERSE] cut at its commas: joining its
    symbols with commas gives the text back, no symbol holds a comma, and
    the universe is never empty; nothing else is checked. *)
Theorem load_reads_the_environment :
  match load getenv int_of_string float_of_string with
  | Ok settings =>
      let cfg := config settings in
      join "," (Cli.UNIVERSE cfg) =
        getenv_or getenv "UNIVERSE" "AAPL,MSFT,AMZN,NVDA,TSLA" /\
      Cli.UNIVERSE cfg <> [] /\
      Forall (fun symbol => has_comma symbol = false) (Cli.UNIVERSE cfg) /\
      int_of_string (getenv_or getenv "TOP_N" "3") = Some (Cli.TOP_N cfg) /\
      float_of_string (getenv_or getenv "TAKE_PROFIT_PCT" "0.10") =
        Some (Cli.TAKE_PROFIT_PCT cfg) /\
      float_of_string (getenv_or getenv "STOP_LOSS_PCT" "0.05") =
        Some (Cli.STOP_LOSS_PCT cfg) /\
      TELEGRAM_TOKEN settings = getenv "TELEGRAM_TOKEN" /\
      TELEGRAM_CHAT_ID settings = getenv "TELEGRAM_CHAT_ID"
  | Raise e =>
      e = Exception "ValueError" /\
      (int_of_string (getenv_or getenv "TOP_N" "3") = None \/
       float_of_string (getenv_or getenv "TAKE_PROFIT_PCT" "0.10") = None \/
       float_of_string (getenv_or getenv "STOP_LOSS_PCT" "0.05") = None)
  end.
Proof.
  unfold load.
  destruct (int_of_string (getenv_or getenv "TOP_N" "3")) as [n |];
    cbn [parsed rbind]; [| split; [reflexivity | now left]].
  destruct (float_of_string (getenv_or getenv "TAKE_PROFIT_PCT" "0.10"))
    as [tp |]; cbn [parsed rbind]; [| split; [reflexivity | right; now left]].
  destruct (float_of_string (getenv_or getenv "STOP_LOSS_PCT" "0.05"))
    as [sl |]; cbn [parsed rbind];
    [| split; [reflexivity | right; now right]].
  cbn zeta. cbn [config Cli.UNIVERSE Cli.TOP_N Cli.TAKE_PROFIT_PCT
                 Cli.STOP_LOSS_PCT TELEGRAM_TOKEN TELEGRAM_CHAT_ID].
  destruct (split_commas_join
              (getenv_or getenv "UNIVERSE" "AAPL,MSFT,AMZN,NVDA,TSLA"))
    as (J & N & F).
  repeat split; assumption.
Qed.

End Load.

(** With nothing set in the environment the settings are the defaults. *)
Example load_defaults int_of_string float_of_string :
  int_of_string "3" = Some 3%Z ->
  float_of_string "0.10" = Some (lit (10 # 100)) ->
  float_of_string "0.05" = Some (lit (5 # 100)) ->
  load (fun _ => None) int_of_string float_of_string =
    Ok {| config := Cli.default_config;
          TELEGRAM_TOKEN := None;
          TELEGRAM_CHAT_ID := None |}.
Proof.
  intros Hn Htp Hsl. unfold load, getenv_or. rewrite Hn, Htp, Hsl.
  reflexivity.
Qed.

End EnvFacts.

(* ================================================================== *)
(** * ScoreEngine: invariants of a result *)
(* ================================================================== *)

Module ScoreInvariantFacts.

Import Binary64 Py Binary64Facts PyFacts RoundingFacts.
Import ScoreEngine ScoreEngineFacts Spec.
Local Open Scope Q_scope.

Lemma compute_score_some L close r :
  compute_score L close = Some r ->
  (20 <= length close)%nat /\ r = Spec.expected L close.
Proof.
  intros H. destruct (Nat.lt_ge_cases (length close) 20) as [Short | Long].
  - rewrite (@compute_score_short L close Short) in H. discriminate.
  - rewrite (@compute_score_expected L close Long) in H.
    split; [exact Long | congruence].
Qed.

Lemma expected_price L close :
  ScoreResult.price (Spec.expected L close) = Spec.latest close.
Proof. unfold Spec.expected. now destruct (Spec.smas L close). Qed.

Lemma expected_momentum L close :
  ScoreResult.momentum_10d (Spec.expected L close) = Spec.momentum close.
Proof. unfold Spec.expected. now destruct (Spec.smas L close). Qed.

Lemma smas_cases L close :
  let '(sma20, sma50) := Spec.smas L close in
  ((length close < 50)%nat -> sma50 = Spec.latest close) /\
  (rolling_mean_last L 20 close = Ok sma20 \/
   sma20 = Spec.latest close /\ sma50 = Spec.latest close).
Proof.
  unfold Spec.smas.
  destruct (rolling_mean_last L 20 close) as [a | e];
    destruct (Nat.leb_spec 50 (length close)) as [Ge | Lt];
    try destruct (rolling_mean_last L 50 close) as [b | e'];
    split; try (intros H; first [reflexivity | lia]);
    first [left; reflexivity | right; split; reflexivity].
Qed.

(** What every result of [compute_score] satisfies, whatever the indicator
    calls do: there were at least twenty closes; the price is the latest
    close; the RSI is a number (never NaN); below fifty closes SMA50 is the
    latest close; and SMA20 is the 20-row mean the library gave, unless
    both averages fell back to the latest close. *)
Theorem compute_score_metrics L close :
  match compute_score L close with
  | Some r =>
      (20 <= length close)%nat /\
      ScoreResult.price r = Spec.latest close /\
      ScoreResult.momentum_10d r = Spec.momentum close /\
      is_nan (ScoreResult.rsi r) = false /\
      ((length close < 50)%nat -> ScoreResult.sma50 r = ScoreResult.price r) /\
      (rolling_mean_last L 20 close = Ok (ScoreResult.sma20 r) \/
       ScoreResult.sma20 r = ScoreResult.price r /\
       ScoreResult.sma50 r = ScoreResult.price r)
  | None => (length close < 20)%nat
  end.
Proof.
  destruct (Nat.lt_ge_cases (length close) 20) as [Short | Long].
  - now rewrite (@compute_score_short L close Short).
  - rewrite (@compute_score_expected L close Long).
    pose proof (expected_rsi L close) as Hrsi.
    pose proof (expected_smas L close) as Hsmas.
    assert (ScoreResult.price (Spec.expected L close) = Spec.latest close)
      as Hprice.
    { unfold Spec.expected. now destruct (Spec.smas L close). }
    assert (ScoreResult.momentum_10d (Spec.expected L close) =
            Spec.momentum close) as Hmom.
    { unfold Spec.expected. now destruct (Spec.smas L close). }
    split; [exact Long |]. split; [exact Hprice |]. split; [exact Hmom |].
    split.
    { rewrite Hrsi. unfold Spec.rsi_or_neutral.
      destruct (rsi_last L close) as [r | e]; [| reflexivity].
      destruct (is_nan r) eqn:N; [reflexivity | exact N]. }
    rewrite Hprice.
    pose proof (smas_cases L close) as C.
    destruct (Spec.smas L close) as [a b].
    injection Hsmas as -> ->. exact C.
Qed.

(** The sum of two finite floats, from its exact value. *)
Lemma fadd_fin_le s1 m1 s2 m2 s3 m3 s4 m4 :
  sval s1 m1 + sval s2 m2 <= sval s3 m3 + sval s4 m4 ->
  fle (fadd (Fin s1 m1) (Fin s2 m2)) (fadd (Fin s3 m3) (Fin s4 m4)) = true.
Proof.
  intros H. cbn [fadd].
  set (v := sval s1 m1 + sval s2 m2) in *.
  set (w := sval s3 m3 + sval s4 m4) in *.
  assert (forall s, sval s 0 == 0) as Z by (intros [|]; reflexivity).
  destruct (Qcompare_spec v 0) as [Ev | Lv | Gv];
    destruct (Qcompare_spec w 0) as [Ew | Lw | Gw]; try (exfalso; lra).
  - apply fle_fin. rewrite !Z. lra.
  - destruct (rnd_sign false w) as [-> | (r & -> & Hr)]; [reflexivity |].
    apply fle_fin. rewrite Z. cbn [sval]. apply Qabs_nonneg.
  - destruct (rnd_sign true v) as [-> | (r & -> & Hr)]; [reflexivity |].
    apply fle_fin. rewrite Z. cbn [sval].
    pose proof (Qabs_nonneg r). lra.
  - apply rnd_signed_le. cbn [sval].
    rewrite (Qabs_neg v), (Qabs_neg w) by lra. lra.
  - apply rnd_signed_le. cbn [sval].
    pose proof (Qabs_nonneg v). pose proof (Qabs_nonneg w). lra.
  - apply rnd_signed_le. cbn [sval].
    rewrite (Qabs_pos v), (Qabs_pos w) by lra. lra.
Qed.

(** Subtracting 1 keeps the order. *)
Lemma fsub_one_mono x y :
  fle x y = true -> fle (fsub x (of_int 1)) (fsub y (of_int 1)) = true.
Proof.
  destruct of_int_0_1 as (_ & -> & _). unfold fsub. cbn [fopp negb].
  destruct x as [| [|] | sx mx], y as [| [|] | sy my];
    try (cbn; congruence); intros H.
  - cbn [fadd].
    destruct (Qcompare (sval sy my + sval true 1) 0);
      try destruct (rnd_sign true (sval sy my + sval true 1))
        as [-> | (r & -> & _)];
      try destruct (rnd_sign false (sval sy my + sval true 1))
        as [-> | (r & -> & _)]; reflexivity.
  - cbn [fadd].
    destruct (Qcompare (sval sx mx + sval true 1) 0);
      try destruct (rnd_sign true (sval sx mx + sval true 1))
        as [-> | (r & -> & _)];
      try destruct (rnd_sign false (sval sx mx + sval true 1))
        as [-> | (r & -> & _)]; reflexivity.
  - apply fle_fin in H. apply fadd_fin_le. lra.
Qed.

Lemma fsub_one_one : fsub (of_int 1) (of_int 1) = of_int 0.
Proof. vm_compute. reflexivity. Qed.

Lemma fdiv_self_le last back :
  finite_positive last -> finite_positive back ->
  (fle back last = true -> fle (of_int 1) (fdiv last back) = true) /\
  (fle last back = true -> fle (fdiv last back) (of_int 1) = true).
Proof.
  intros (a & -> & Ha) (b & -> & Hb).
  destruct of_int_0_1 as (_ & -> & R1).
  assert (Qeq_bool b 0 = false) as Nz.
  { destruct (Qeq_bool b 0) eqn:E; [| reflexivity].
    apply Qeq_bool_iff in E. contradiction. }
  cbn [fdiv xorb]. rewrite Nz.
  assert (0 < Qabs b) as Pb.
  { pose proof (Qabs_nonneg b) as N0.
    destruct (Qeq_dec (Qabs b) 0) as [E | N]; [| lra].
    exfalso. apply Hb.
    assert (Qabs b <= 0) as Le by lra.
    apply Qabs_Qle_condition in Le. lra. }
  assert (Qabs (a / b) == Qabs a / Qabs b) as D.
  { unfold Qdiv. rewrite Qabs_Qmult, Qabs_Qinv. reflexivity. }
  split; intros H; apply fle_fin in H; cbn [sval] in H; rewrite <- R1;
    apply rnd_signed_le; cbn [sval]; rewrite D;
    change (Qabs 1) with 1.
  - apply Qle_shift_div_l; lra.
  - apply Qle_shift_div_r; lra.
Qed.

(** The momentum has the sign of the move: when the latest close and the
    close at [iloc[-10]] are positive numbers, a latest close at or above
    the earlier one gives a momentum that is not negative, and one at or
    below it a momentum that is not positive, the two roundings of
    [close.iloc[-1] / close.iloc[-10] - 1] notwithstanding. *)
Theorem momentum_has_the_sign_of_the_move L close r :
  compute_score L close = Some r ->
  finite_positive (latest close) ->
  finite_positive (nth (length close - 10) close NaN) ->
  (fle (nth (length close - 10) close NaN) (latest close) = true ->
   fle (of_int 0) (ScoreResult.momentum_10d r) = true) /\
  (fle (latest close) (nth (length close - 10) close NaN) = true ->
   fle (ScoreResult.momentum_10d r) (of_int 0) = true).
Proof.
  intros H Hl Hb. apply compute_score_some in H as [_ ->].
  rewrite expected_momentum. unfold Spec.momentum.
  destruct (fdiv_self_le Hl Hb) as [Up Down].
  rewrite <- fsub_one_one.
  split; intros C; apply fsub_one_mono; [now apply Up | now apply Down].
Qed.

Lemma momentum_has_the_sign_of_the_move_witness :
  exists r,
    compute_score sample_library flat_series = Some r /\
    fle (of_int 0) (ScoreResult.momentum_10d r) = true /\
    fle (ScoreResult.momentum_10d r) (of_int 0) = true.
Proof.
  assert (finite_positive (lit 100)) as P.
  { exists 100. split; [vm_compute; reflexivity |].
    intros H. vm_compute in H. discriminate. }
  assert (latest flat_series = lit 100) as El by reflexivity.
  assert (nth (length flat_series - 10) flat_series NaN = lit 100) as Eb
    by reflexivity.
  assert (fle (lit 100) (lit 100) = true) as Le by (vm_compute; reflexivity).
  exists (Spec.expected sample_library flat_series).
  assert (compute_score sample_library flat_series =
          Some (Spec.expected sample_library flat_series)) as E
    by (apply compute_score_expected; apply flat_series_length).
  split; [exact E |].
  destruct (@momentum_has_the_sign_of_the_move sample_library flat_series _ E)
    as [Up Down].
  - rewrite El. exact P.
  - rewrite Eb. exact P.
  - split; [apply Up | apply Down]; rewrite El, Eb; exact Le.
Defined.

End ScoreInvariantFacts.

(* ================================================================== *)
(** * Ranker: what is picked *)
(* ================================================================== *)

Module SelectionFacts.

Import Binary64 Py Ranker RankerFacts NormalFormFacts ScoreInvariantFacts.

Lemma sorted_app_split {A} (R : A -> A -> Prop) front : forall back,
  StronglySorted R (front ++ back) ->
  Forall (fun x => Forall (R x) back) front.
Proof.
  induction front as [| x front IH]; intros back H; [constructor |].
  cbn in H. apply StronglySorted_inv in H as [H Hx].
  constructor; [| now apply IH].
  apply Forall_app in Hx. tauto.
Qed.

Section Picks.

Variable L : ScoreEngine.Library.
Variable fetch_history : String.string -> option (list float).
Variable sort : list Pick.t -> list Pick.t.
Hypothesis sort_ok : sorts_by_score sort.

(** The picks and the valid results left out. *)
Lemma picks_and_rest universe top_n :
  exists rest,
    Permutation
      (pick_top_symbols L fetch_history sort universe top_n ++ rest)
      (Spec.valid_results L fetch_history universe) /\
    StronglySorted desc
      (pick_top_symbols L fetch_history sort universe top_n ++ rest).
Proof.
  rewrite (@pick_top_symbols_head L fetch_history sort universe top_n sort_ok).
  set (valid := Spec.valid_results L fetch_history universe).
  destruct (head_prefix top_n (sort valid)) as [k ->].
  exists (skipn k (sort valid)). rewrite firstn_skipn.
  destruct (sort_ok valid) as [P S]. split; [now symmetry | exact S].
Qed.

(** The picks are the best of the valid results: the picks and the valid
    results left out make up the valid results, and no result left out
    would have to come before a pick; its score is not above the score of
    any pick. *)
Theorem picks_are_the_best_valid_results universe top_n :
  exists rest,
    Permutation
      (pick_top_symbols L fetch_history sort universe top_n ++ rest)
      (Spec.valid_results L fetch_history universe) /\
    Forall (fun p =>
              Forall (fun q => desc p q /\
                               flt (Pick.score p) (Pick.score q) = false)
                     rest)
           (pick_top_symbols L fetch_history sort universe top_n).
Proof.
  destruct (picks_and_rest universe top_n) as (rest & P & S).
  exists rest. split; [exact P |].
  apply sorted_app_split in S.
  eapply Forall_impl; [| exact S]. intros p Hp.
  eapply Forall_impl; [| exact Hp]. intros q Hq. split; [exact Hq |].
  apply Hq.
Qed.

End Picks.

Lemma picks_are_the_best_valid_results_witness :
  sorts_by_score stable_sort /\
  exists rest,
    Permutation
      (pick_top_symbols Spec.sample_library Spec.sample_fetch stable_sort
         Spec.Universe.three 2 ++ rest)
      (Spec.valid_results Spec.sample_library Spec.sample_fetch
         Spec.Universe.three) /\
    length rest = 1%nat.
Proof.
  split; [exact stable_sort_contract |].
  destruct (@picks_are_the_best_valid_results Spec.sample_library
              Spec.sample_fetch stable_sort stable_sort_contract
              Spec.Universe.three 2) as (rest & P & _).
  exists rest. split; [exact P |].
  apply Permutation_length in P. rewrite length_app in P.
  assert (length (pick_top_symbols Spec.sample_library Spec.sample_fetch
                    stable_sort Spec.Universe.three 2) = 2%nat) as E2
    by (vm_compute; reflexivity).
  assert (length (Spec.valid_results Spec.sample_library Spec.sample_fetch
                    Spec.Universe.three) = 3%nat) as E3
    by (vm_compute; reflexivity).
  rewrite E2, E3 in P. lia.
Defined.

Lemma valid_results_in L fetch_history universe p :
  In p (Spec.valid_results L fetch_history universe) ->
  exists sym df r,
    In sym universe /\
    Pick.symbol p = Text.upper (Text.strip sym) /\
    fetch_history (Pick.symbol p) = Some df /\
    ScoreEngine.compute_score L df = Some r /\
    p = with_symbol (Pick.symbol p) r.
Proof.
  unfold Spec.valid_results. rewrite in_flat_map.
  intros (sym & Hin & Hp). unfold Spec.scored in Hp.
  destruct (fetch_history (Text.upper (Text.strip sym))) as [df |] eqn:F;
    [| destruct Hp].
  destruct (ScoreEngine.compute_score L df) as [r |] eqn:C; [| destruct Hp].
  cbn in Hp. destruct Hp as [<- | []].
  exists sym, df, r. cbn. repeat split; assumption.
Qed.

(** Every pick can be traced back: its symbol is the normal form
    [sym.strip().upper()] of an entry of the universe, and is its own
    normal form; the provider had data under that symbol, with at least
    twenty closes; and the pick carries the result of [compute_score] on
    that data, its price being the latest close. *)
Theorem picks_come_from_the_universe L fetch_history sort universe top_n :
  sorts_by_score sort ->
  Forall (fun p =>
            exists sym df r,
              In sym universe /\
              Pick.symbol p = Text.upper (Text.strip sym) /\
              Text.upper (Text.strip (Pick.symbol p)) = Pick.symbol p /\
              fetch_history (Pick.symbol p) = Some df /\
              (20 <= length df)%nat /\
              ScoreEngine.compute_score L df = Some r /\
              p = with_symbol (Pick.symbol p) r /\
              Pick.price p = Spec.latest df)
         (pick_top_symbols L fetch_history sort universe top_n).
Proof.
  intros sort_ok.
  destruct (@picks_and_rest L fetch_history sort sort_ok universe top_n)
    as (rest & P & _).
  apply Forall_forall. intros p Hp.
  assert (In p (Spec.valid_results L fetch_history universe)) as Hv.
  { eapply Permutation_in; [exact P |]. apply in_or_app. now left. }
  destruct (@valid_results_in _ _ _ _ Hv) as (sym & df & r & Hs & Hn & Hf & Hc & E).
  exists sym, df, r.
  destruct (@compute_score_some _ _ _ Hc) as [Hlen Er].
  repeat split; try assumption.
  - rewrite Hn. apply normal_form_idem.
  - rewrite E. cbn [Pick.price with_symbol]. rewrite Er.
    apply expected_price.
Qed.

Lemma picks_come_from_the_universe_witness :
  sorts_by_score stable_sort /\
  Forall (fun p => In (Pick.symbol p) Spec.Universe.three /\
                   Pick.price p = lit 100)
    (pick_top_symbols Spec.sample_library Spec.sample_fetch stable_sort
       Spec.Universe.three 2).
Proof.
  split; [exact stable_sort_contract |].
  eapply Forall_impl;
    [| exact (@picks_come_from_the_universe Spec.sample_library
                Spec.sample_fetch stable_sort Spec.Universe.three 2
                stable_sort_contract)].
  intros p (sym & df & r & Hs & Hn & _ & Hf & _ & _ & _ & Hp).
  injection Hf as <-. split; [| exact Hp].
  rewrite Hn.
  destruct Hs as [<- | [<- | [<- | []]]]; vm_compute; auto.
Defined.

Lemma equal_normal_forms_equal_results L fetch_history u1 : forall u2,
  map (fun sym => Text.upper (Text.strip sym)) u1 =
  map (fun sym => Text.upper (Text.strip sym)) u2 ->
  Spec.valid_results L fetch_history u1 =
  Spec.valid_results L fetch_history u2.
Proof.
  induction u1 as [| a u1 IH]; intros [| b u2] H;
    try discriminate; [reflexivity |].
  cbn in H. injection H as Hab H.
  unfold Spec.valid_results in *. cbn [flat_map].
  rewrite (IH u2 H). unfold Spec.scored. now rewrite Hab.
Qed.

(** The valid results carry, in the order of the universe, the normal form
    of every entry that gets a row. *)
Lemma valid_results_symbols L fetch_history universe :
  map Pick.symbol (Spec.valid_results L fetch_history universe) =
  map (fun sym => Text.upper (Text.strip sym))
    (filter (Spec.has_row L fetch_history) universe).
Proof.
  unfold Spec.valid_results.
  induction universe as [| sym rest IH]; [reflexivity |].
  cbn [flat_map filter]. rewrite map_app, IH.
  unfold Spec.has_row, Spec.scored.
  destruct (fetch_history (Text.upper (Text.strip sym))) as [df |];
    [| reflexivity].
  destruct (ScoreEngine.compute_score L df) as [r |]; reflexivity.
Qed.

Lemma valid_results_length L fetch_history universe :
  (length (Spec.valid_results L fetch_history universe) <= length universe)%nat.
Proof.
  rewrite <- (length_map Pick.symbol), valid_results_symbols, length_map.
  apply filter_length_le.
Qed.

(** Only the normal forms of the universe count, and each entry counts:
    two universes whose entries agree after [strip().upper()] give the same
    picks; and nothing removes duplicates, so that with a [top_n] that
    leaves no row out the picks are the valid results rearranged, one for
    each entry of the universe that gets a row, under the normal form of
    that entry. *)
Theorem equal_normal_forms_equal_picks L fetch_history sort u1 u2 top_n :
  (map (fun sym => Text.upper (Text.strip sym)) u1 =
   map (fun sym => Text.upper (Text.strip sym)) u2 ->
   pick_top_symbols L fetch_history sort u1 top_n =
   pick_top_symbols L fetch_history sort u2 top_n) /\
  (sorts_by_score sort -> (Z.of_nat (length u1) <= top_n)%Z ->
   Permutation (pick_top_symbols L fetch_history sort u1 top_n)
     (Spec.valid_results L fetch_history u1) /\
   Permutation
     (map Pick.symbol (pick_top_symbols L fetch_history sort u1 top_n))
     (map (fun sym => Text.upper (Text.strip sym))
        (filter (Spec.has_row L fetch_history) u1)) /\
   length (pick_top_symbols L fetch_history sort u1 top_n) =
     length (filter (Spec.has_row L fetch_history) u1)).
Proof.
  split.
  - intros H. unfold pick_top_symbols.
    rewrite !scan_valid_results. cbn [app].
    now rewrite (equal_normal_forms_equal_results L fetch_history u1 u2 H).
  - intros Hsort Htop.
    assert (Permutation (pick_top_symbols L fetch_history sort u1 top_n)
              (Spec.valid_results L fetch_history u1)) as P.
    { rewrite (pick_top_symbols_head L fetch_history u1 top_n Hsort).
      destruct (Hsort (Spec.valid_results L fetch_history u1)) as [Hp _].
      pose proof (valid_results_length L fetch_history u1) as Hlen.
      pose proof (Permutation_length Hp) as Hlen'.
      unfold head. destruct (Z.leb_spec 0 top_n); [| lia].
      rewrite firstn_all2 by lia. now symmetry. }
    split; [exact P |].
    split.
    + rewrite <- valid_results_symbols. now apply Permutation_map.
    + rewrite (Permutation_length P).
      now rewrite <- (length_map Pick.symbol), valid_results_symbols,
        length_map.
Qed.

Import String.

(** Two spellings of AAPL and two of MSFT: four picks, two under each
    symbol. *)
Lemma equal_normal_forms_equal_picks_witness :
  map (fun sym => Text.upper (Text.strip sym))
    [" aapl"; "Msft  "; "AAPL"; "msft"]%string =
  map (fun sym => Text.upper (Text.strip sym))
    ["AAPL"; "MSFT"; "aapl "; "MSFT"]%string /\
  pick_top_symbols Spec.sample_library Spec.sample_fetch stable_sort
    [" aapl"; "Msft  "; "AAPL"; "msft"]%string 4 =
  pick_top_symbols Spec.sample_library Spec.sample_fetch stable_sort
    ["AAPL"; "MSFT"; "aapl "; "MSFT"]%string 4 /\
  Permutation
    (map Pick.symbol
       (pick_top_symbols Spec.sample_library Spec.sample_fetch stable_sort
          [" aapl"; "Msft  "; "AAPL"; "msft"]%string 4))
    ["AAPL"; "MSFT"; "AAPL"; "MSFT"]%string.
Proof.
  destruct (@equal_normal_forms_equal_picks Spec.sample_library
              Spec.sample_fetch stable_sort
              [" aapl"; "Msft  "; "AAPL"; "msft"]%string
              ["AAPL"; "MSFT"; "aapl "; "MSFT"]%string 4) as [Hsame Hall].
  assert (map (fun sym => Text.upper (Text.strip sym))
            [" aapl"; "Msft  "; "AAPL"; "msft"]%string =
          map (fun sym => Text.upper (Text.strip sym))
            ["AAPL"; "MSFT"; "aapl "; "MSFT"]%string) as H
    by reflexivity.
  split; [exact H |]. split; [exact (Hsame H) |].
  destruct (Hall stable_sort_contract ltac:(cbn; lia)) as (_ & Hsyms & _).
  exact Hsyms.
Defined.

End SelectionFacts.

(* ================================================================== *)
(** * Provider: properties *)
(* ================================================================== *)

Module ProviderFacts.

Import Binary64 Py Provider Ranker RankerFacts.
Import ScoreInvariantFacts SelectionFacts.

Lemma dropna_closes df :
  Forall (fun c => is_nan c = false) (map close (dropna df)).
Proof.
  apply Forall_forall. intros c Hc. apply in_map_iff in Hc.
  destruct Hc as (r & <- & Hr). apply filter_In in Hr as [_ Hr].
  unfold has_na in Hr. apply negb_true_iff, orb_false_iff in Hr. apply Hr.
Qed.

Lemma dropna_clean df : Forall (fun r => has_na r = false) (dropna df).
Proof.
  apply Forall_forall. intros x Hx. apply filter_In in Hx as [_ Hx].
  now apply negb_true_iff in Hx.
Qed.

Lemma dropna_nil df :
  dropna df = [] <-> Forall (fun r => has_na r = true) df.
Proof.
  induction df as [| x df IH]; cbn.
  - split; [constructor | reflexivity].
  - destruct (has_na x) eqn:N; cbn.
    + rewrite IH. split; intros H; [now constructor | now inversion H].
    + split; [discriminate |]. intros H. inversion H; congruence.
Qed.

Lemma fetch_history_some download symbol df :
  fetch_history download symbol = Some df <->
  exists raw, download symbol = Ok (Some raw) /\ raw <> [] /\
              df = dropna raw.
Proof.
  unfold fetch_history.
  destruct (download symbol) as [[raw |] | e].
  - destruct raw as [| r raw']; cbv beta iota.
    + split; [discriminate |]. intros (raw0 & H & Hne & _).
      injection H as <-. congruence.
    + split.
      * intros H. exists (r :: raw'). split; [reflexivity |].
        split; [discriminate | congruence].
      * intros (raw0 & H & _ & ->). congruence.
  - split; [discriminate |]. intros (raw & H & _). discriminate.
  - split; [discriminate |]. intros (raw & H & _). discriminate.
Qed.

Lemma history_closes download symbol closes :
  history download symbol = Some closes ->
  Forall (fun c => is_nan c = false) closes.
Proof.
  unfold history.
  destruct (fetch_history download symbol) as [df |] eqn:F; [| discriminate].
  apply fetch_history_some in F as (raw & _ & _ & ->).
  cbn [option_map]. intros H. injection H as <-. apply dropna_closes.
Qed.

(** [fetch_history] never raises.  It answers [None] exactly when the
    download raised, returned [None] or returned a frame without rows;
    otherwise it answers the rows of the frame that have no NaN cell, in
    their order, so that no close of a fetched history is NaN.  The answer
    can be a frame without rows: that of a download all of whose rows have
    a gap. *)
Theorem fetch_history_drops_the_gaps download symbol :
  (fetch_history download symbol = None <->
   (exists e, download symbol = Raise e) \/
   download symbol = Ok None \/ download symbol = Ok (Some [])) /\
  (forall df,
     fetch_history download symbol = Some df ->
     exists raw, download symbol = Ok (Some raw) /\ raw <> [] /\
                 df = dropna raw /\
                 Forall (fun r => has_na r = false) df /\
                 Forall (fun c => is_nan c = false) (map close df) /\
                 (df = [] <-> Forall (fun r => has_na r = true) raw)).
Proof.
  split.
  - destruct (fetch_history download symbol) as [df |] eqn:F.
    + apply fetch_history_some in F as (raw & D & Hne & _).
      split; [discriminate |].
      intros [[e H] | [H | H]]; congruence.
    + split; [| reflexivity]. intros _.
      unfold fetch_history in F.
      destruct (download symbol) as [[[| r raw] |] | e];
        [auto | discriminate | auto |].
      left. now exists e.
  - intros df F. apply fetch_history_some in F as (raw & D & Hne & ->).
    exists raw. split; [exact D |]. split; [exact Hne |].
    split; [reflexivity |]. split; [apply dropna_clean |].
    split; [apply dropna_closes | apply dropna_nil].
Qed.

(** With the histories of [fetch_history], the price of every pick is a
    number: it is the latest of at least twenty closes, none of which is
    NaN. *)
Theorem pick_prices_are_numbers L download sort universe top_n :
  sorts_by_score sort ->
  Forall (fun p => is_nan (Pick.price p) = false)
    (pick_top_symbols L (history download) sort universe top_n).
Proof.
  intros sort_ok.
  destruct (@picks_and_rest L (history download) sort sort_ok universe top_n)
    as (rest & P & _).
  apply Forall_forall. intros p Hp.
  assert (In p (Spec.valid_results L (history download) universe)) as Hv.
  { eapply Permutation_in; [exact P |]. apply in_or_app. now left. }
  destruct (valid_results_in _ _ _ _ Hv)
    as (sym & df & r & _ & _ & Hf & Hc & E).
  apply compute_score_some in Hc as [Hlen ->].
  rewrite E. cbn [Pick.price with_symbol].
  assert (ScoreResult.price (Spec.expected L df) = Spec.latest df) as ->.
  { unfold Spec.expected. now destruct (Spec.smas L df). }
  pose proof (history_closes _ _ Hf) as Hn.
  rewrite Forall_forall in Hn. apply Hn. unfold Spec.latest.
  apply nth_In. lia.
Qed.

Lemma pick_prices_are_numbers_witness :
  sorts_by_score stable_sort /\
  Forall (fun p => is_nan (Pick.price p) = false)
    (pick_top_symbols Spec.sample_library
       (history (fun _ => Ok (Some (repeat {| close := lit 100;
                                              others := [NaN] |} 5 ++
                                    repeat {| close := lit 100;
                                              others := [lit 100] |} 20))))
       stable_sort Spec.Universe.two 2).
Proof.
  split; [exact stable_sort_contract |].
  exact (@pick_prices_are_numbers Spec.sample_library _ stable_sort
           Spec.Universe.two 2 stable_sort_contract).
Defined.

End ProviderFacts.

(* ================================================================== *)
(** * BudgetAllocator: outcomes and targets *)
(* ================================================================== *)

Module AllocationFacts.

Import Binary64 Py Binary64Facts PyFacts RoundingFacts ScoreEngineFacts.
Import BudgetAllocator Spec BudgetAllocatorFacts.
Local Open Scope Q_scope.

(** A list of picks has no zero price, or a first one. *)
Lemma first_zero_price picks :
  Forall nonzero_price picks \/
  exists good bad rest,
    picks = good ++ bad :: rest /\ Forall nonzero_price good /\
    is_zero (Pick.price bad) = true.
Proof.
  induction picks as [| p picks [IH | (good & bad & rest & -> & G & B)]].
  - left. constructor.
  - destruct (is_zero (Pick.price p)) eqn:Z.
    + right. exists [], p, picks. repeat split; [constructor | exact Z].
    + left. constructor; assumption.
  - destruct (is_zero (Pick.price p)) eqn:Z.
    + right. exists [], p, (good ++ bad :: rest).
      repeat split; [constructor | exact Z].
    + right. exists (p :: good), bad, rest.
      repeat split; [constructor; assumption | exact B].
Qed.

(** The loop stops at the first zero price. *)
Lemma plan_loop_first_zero per tp sl good bad rest : forall plan,
  Forall nonzero_price good -> is_zero (Pick.price bad) = true ->
  plan_loop per tp sl (good ++ bad :: rest) plan =
    (map Pick.price good ++ [Pick.price bad], Raise ZeroDivisionError).
Proof.
  induction good as [| p good IH]; intros plan G B; cbn [plan_loop app map].
  - unfold bind, truediv. now rewrite B.
  - inversion G as [| ? ? Hp G']; subst. unfold nonzero_price in Hp.
    unfold bind, truediv. rewrite Hp. rewrite IH by assumption.
    reflexivity.
Qed.

Lemma allocate_budget_first_zero budget tp sl good bad rest :
  Forall nonzero_price good -> is_zero (Pick.price bad) = true ->
  allocate_budget budget (good ++ bad :: rest) tp sl =
    (of_int (Z.of_nat (length (good ++ bad :: rest)))
       :: map Pick.price good ++ [Pick.price bad],
     Raise ZeroDivisionError).
Proof.
  intros G B.
  assert (good ++ bad :: rest <> []) as Hne by now destruct good.
  unfold allocate_budget.
  destruct (Nat.eqb_spec (length (good ++ bad :: rest)) 0) as [L0 | _].
  { destruct good; discriminate. }
  unfold bind, truediv. rewrite (count_nonzero Hne).
  rewrite plan_loop_first_zero by assumption. reflexivity.
Qed.

(** The two outcomes of [allocate_budget]. *)
Lemma allocate_budget_outcome budget picks tp sl :
  (Forall nonzero_price picks /\
   exists plan, outcome (allocate_budget budget picks tp sl) = Ok plan) \/
  (Exists (fun p => is_zero (Pick.price p) = true) picks /\
   outcome (allocate_budget budget picks tp sl) = Raise ZeroDivisionError).
Proof.
  destruct (first_zero_price picks) as [H | (good & bad & rest & -> & G & B)].
  - left. split; [exact H |]. destruct picks as [| p picks].
    + exists []. reflexivity.
    + rewrite (@allocate_budget_ok budget (p :: picks) tp sl
                 ltac:(discriminate) H).
      eexists. reflexivity.
  - right. split.
    + apply Exists_app. right. now constructor.
    + now rewrite allocate_budget_first_zero by assumption.
Qed.

(** [allocate_budget] returns a plan with one entry per pick, or raises
    [ZeroDivisionError]; it raises exactly when a price is zero, at the
    first such pick, after dividing by the count and by the prices before
    it, and nothing of the plan built so far is returned. *)
Theorem allocate_budget_raises_only_on_zero_price
    budget picks take_profit_pct stop_loss_pct :
  (Forall nonzero_price picks /\
   exists plan,
     outcome (allocate_budget budget picks take_profit_pct stop_loss_pct) =
       Ok plan /\
     length plan = length picks) \/
  (exists good bad rest,
     picks = good ++ bad :: rest /\ Forall nonzero_price good /\
     is_zero (Pick.price bad) = true /\
     allocate_budget budget picks take_profit_pct stop_loss_pct =
       (of_int (Z.of_nat (length picks))
          :: map Pick.price good ++ [Pick.price bad],
        Raise ZeroDivisionError)).
Proof.
  destruct (first_zero_price picks) as [H | (good & bad & rest & E & G & B)].
  - left. split; [exact H |]. destruct picks as [| p picks].
    + exists []. split; reflexivity.
    + rewrite (@allocate_budget_ok budget (p :: picks) take_profit_pct
                 stop_loss_pct ltac:(discriminate) H).
      eexists. split; [reflexivity |]. now rewrite length_map.
  - right. exists good, bad, rest. repeat split; try assumption.
    subst picks. now apply allocate_budget_first_zero.
Qed.

(** The budget reaches the amounts only.  Whether [allocate_budget] raises
    does not depend on the budget, and two budgets give plans with the
    same symbols, prices, scores, RSIs, take-profit and stop-loss prices.
    A NaN budget, which [float] accepts, gives a plan all of whose
    allocations, shares and costs are NaN. *)
Theorem budget_reaches_the_amounts_only
    budget budget' picks take_profit_pct stop_loss_pct :
  match outcome (allocate_budget budget picks take_profit_pct stop_loss_pct),
        outcome (allocate_budget budget' picks take_profit_pct stop_loss_pct)
  with
  | Ok plan, Ok plan' =>
      Forall2 (fun e e' =>
                 Entry.symbol e = Entry.symbol e' /\
                 Entry.price e = Entry.price e' /\
                 Entry.score e = Entry.score e' /\
                 Entry.rsi e = Entry.rsi e' /\
                 Entry.take_profit_price e = Entry.take_profit_price e' /\
                 Entry.stop_loss_price e = Entry.stop_loss_price e')
        plan plan'
  | Raise e, Raise e' => e = e'
  | _, _ => False
  end /\
  match outcome (allocate_budget NaN picks take_profit_pct stop_loss_pct) with
  | Ok plan =>
      Forall (fun e => Entry.allocation e = NaN /\
                       Entry.shares e = NaN /\
                       Entry.cost e = NaN) plan
  | Raise _ => True
  end.
Proof.
  destruct (first_zero_price picks) as [H | (good & bad & rest & E & G & B)].
  - destruct picks as [| p picks].
    { cbn. split; constructor. }
    rewrite !(@allocate_budget_ok _ (p :: picks) take_profit_pct
                stop_loss_pct ltac:(discriminate) H).
    cbn [outcome snd]. split.
    + generalize (fdiv budget (of_int (Z.of_nat (length (p :: picks))))).
      generalize (fdiv budget' (of_int (Z.of_nat (length (p :: picks))))).
      intros per' per. generalize (p :: picks) as l. intros l.
      induction l as [| q l IH]; cbn [map]; [constructor |].
      constructor; [| exact IH]. cbn. repeat split.
    + apply Forall_forall. intros e He. apply in_map_iff in He.
      destruct He as (q & <- & _).
      assert (fdiv NaN (of_int (Z.of_nat (length (p :: picks)))) = NaN) as ->
        by reflexivity.
      cbn. repeat split.
  - assert (forall b,
              outcome (allocate_budget b picks take_profit_pct stop_loss_pct)
                = Raise ZeroDivisionError) as R.
    { intros b. subst picks.
      now rewrite allocate_budget_first_zero by assumption. }
    rewrite !R. split; [reflexivity | exact I].
Qed.

(** [1 + pct] is at least 1 for a percentage that is not negative. *)
Lemma one_plus_pct pct :
  fle (of_int 0) pct = true -> fle (of_int 1) (fadd (of_int 1) pct) = true.
Proof.
  destruct of_int_0_1 as (-> & -> & R1).
  destruct pct as [| [|] | s t]; try (cbn; congruence).
  intros H. apply fle_fin in H.
  assert (sval false 0 == 0) as Z0 by reflexivity.
  assert (sval false 1 == 1) as Z1 by reflexivity.
  cbn [fadd].
  destruct (Qcompare_spec (sval false 1 + sval s t) 0) as [E | L | G];
    try (exfalso; lra).
  rewrite <- R1 at 1. apply rnd_signed_le. cbn [sval].
  rewrite (Qabs_pos (Qabs 1 + sval s t)) by (cbn [sval] in *; lra).
  cbn [sval] in *. lra.
Qed.

(** [1 - pct] is at most 1 for a percentage that is not negative. *)
Lemma one_minus_pct pct :
  fle (of_int 0) pct = true -> fle (fsub (of_int 1) pct) (of_int 1) = true.
Proof.
  destruct of_int_0_1 as (-> & -> & R1).
  destruct pct as [| [|] | s t]; try (cbn; congruence).
  intros H. apply fle_fin in H.
  assert (sval false 0 == 0) as Z0 by reflexivity.
  assert (sval false 1 == 1) as Z1 by reflexivity.
  assert (sval (negb s) t == - sval s t) as N.
  { destruct s; cbn [sval negb]; ring. }
  unfold fsub. cbn [fopp fadd].
  destruct (Qcompare_spec (sval false 1 + sval (negb s) t) 0) as [E | L | G].
  - cbn [andb]. apply fle_fin. lra.
  - rewrite <- R1. apply rnd_signed_le. cbn [sval].
    pose proof (Qabs_nonneg (Qabs 1 + sval (negb s) t)).
    change (Qabs 1) with 1 in *. lra.
  - rewrite <- R1. apply rnd_signed_le.
    cbn [sval]. rewrite (Qabs_pos (Qabs 1 + sval (negb s) t)) by
      (cbn [sval] in *; lra).
    cbn [sval] in *. change (Qabs 1) with 1 in *. lra.
Qed.

(** A binary64 price times 1. *)
Lemma fmul_one p :
  finite_positive p -> representable p -> fmul p (of_int 1) = p.
Proof.
  intros (m & -> & _) R. destruct of_int_0_1 as (_ & -> & _).
  cbn [fmul xorb]. cbn [representable] in R.
  rewrite <- R. apply rnd_compat. ring.
Qed.

(** The targets of one entry. *)
Lemma entry_targets_ordered per tp sl p :
  fle (of_int 0) tp = true -> fle (of_int 0) sl = true ->
  finite_positive (Pick.price p) -> representable (Pick.price p) ->
  let e := entry_of per tp sl p in
  fle (Entry.stop_loss_price e) (round (Entry.price e) 2) = true /\
  fle (round (Entry.price e) 2) (Entry.take_profit_price e) = true /\
  fle (Entry.stop_loss_price e) (Entry.take_profit_price e) = true.
Proof.
  intros Htp Hsl Hp Rp. cbn zeta. unfold entry_of.
  cbn [Entry.stop_loss_price Entry.take_profit_price Entry.price].
  assert (fle (round (fmul (Pick.price p) (fsub (of_int 1) sl)) 2)
              (round (Pick.price p) 2) = true) as Lo.
  { rewrite <- (fmul_one Hp Rp) at 2.
    apply round_mono, fmul_mono; [exact Hp | now apply one_minus_pct]. }
  assert (fle (round (Pick.price p) 2)
              (round (fmul (Pick.price p) (fadd (of_int 1) tp)) 2) = true)
    as Hi.
  { rewrite <- (fmul_one Hp Rp) at 1.
    apply round_mono, fmul_mono; [exact Hp | now apply one_plus_pct]. }
  split; [exact Lo |]. split; [exact Hi |].
  exact (fle_trans _ _ _ Lo Hi).
Qed.

(** With percentages that are not negative and prices that are positive
    binary64 numbers, every entry has its stop-loss price at or below the
    price rounded to cents, and its take-profit price at or above it: the
    two roundings never cross. *)
Theorem stop_loss_below_take_profit budget picks take_profit_pct stop_loss_pct :
  fle (of_int 0) take_profit_pct = true ->
  fle (of_int 0) stop_loss_pct = true ->
  Forall (fun p => finite_positive (Pick.price p) /\
                   representable (Pick.price p)) picks ->
  exists plan,
    outcome (allocate_budget budget picks take_profit_pct stop_loss_pct) =
      Ok plan /\
    Forall (fun e =>
              fle (Entry.stop_loss_price e) (round (Entry.price e) 2) = true /\
              fle (round (Entry.price e) 2) (Entry.take_profit_price e)
                = true /\
              fle (Entry.stop_loss_price e) (Entry.take_profit_price e)
                = true) plan.
Proof.
  intros Htp Hsl Hp.
  destruct picks as [| p picks].
  { exists []. split; [reflexivity | constructor]. }
  assert (Forall nonzero_price (p :: picks)) as Hnz.
  { eapply Forall_impl; [| exact Hp]. intros q [(m & E & Hm) _].
    unfold nonzero_price. rewrite E. cbn [is_zero].
    destruct (Qeq_bool m 0) eqn:T; [| reflexivity].
    apply Qeq_bool_iff in T. contradiction. }
  rewrite (@allocate_budget_ok budget (p :: picks) take_profit_pct
             stop_loss_pct ltac:(discriminate) Hnz).
  eexists. split; [reflexivity |].
  apply Forall_forall. intros e He. apply in_map_iff in He.
  destruct He as (q & <- & Hq).
  rewrite Forall_forall in Hp. destruct (Hp q Hq) as [Fq Rq].
  now apply entry_targets_ordered.
Qed.

Lemma stop_loss_below_take_profit_witness :
  fle (of_int 0) (lit (10 # 100)) = true /\
  fle (of_int 0) (lit (5 # 100)) = true /\
  exists plan,
    outcome (allocate_budget (lit 1000) [pick_at String.EmptyString (lit 50)]
               (lit (10 # 100)) (lit (5 # 100))) = Ok plan /\
    Forall (fun e =>
              fle (Entry.stop_loss_price e) (round (Entry.price e) 2) = true /\
              fle (round (Entry.price e) 2) (Entry.take_profit_price e)
                = true /\
              fle (Entry.stop_loss_price e) (Entry.take_profit_price e)
                = true) plan.
Proof.
  assert (fle (of_int 0) (lit (10 # 100)) = true) as Htp
    by (vm_compute; reflexivity).
  assert (fle (of_int 0) (lit (5 # 100)) = true) as Hsl
    by (vm_compute; reflexivity).
  split; [exact Htp |]. split; [exact Hsl |].
  apply (@stop_loss_below_take_profit (lit 1000)
           [pick_at String.EmptyString (lit 50)] _ _ Htp Hsl).
  constructor; [| constructor]. split.
  - exists 50. split; [vm_compute; reflexivity |].
    intros H. vm_compute in H. discriminate.
  - vm_compute. reflexivity.
Defined.

Lemma rnd_abs s q : rnd s q = rnd s (Qabs q).
Proof.
  unfold rnd.
  assert (Qabs q == Qabs (Qabs q)) as A
    by (symmetry; apply Qabs_pos, Qabs_nonneg).
  now rewrite (Qred_complete _ _ A).
Qed.

Lemma cost_bounds :
  100000000 + 3 <= pow2 27 /\
  pow2 (Z.max (27 - 53) (-1075)) == 1 # 67108864 /\
  1000000 + 7 <= pow2 20 /\
  pow2 (Z.max (20 - 53) (-1075)) == 1 # 8589934592 /\
  (1 # 2) / pow10 4 == 1 # 20000 /\ (1 # 2) / pow10 2 == 1 # 200.
Proof. vm_compute. repeat split; discriminate. Qed.

(** The cost of one entry, on magnitudes: [a] is the share of the budget,
    [b] the price. *)
Lemma cost_of_share s a b :
  0 <= a -> a <= 1000000 + (1 # 1000) ->
  1 # 100 <= b -> b <= 100000 ->
  exists r2 r4,
    round (rnd s (a / b)) 4 = Fin s r2 /\ 0 <= r2 /\
    round (rnd s (r2 * b)) 2 = Fin s r4 /\ 0 <= r4 /\
    Qabs (r4 - a) <= b * (51 # 1000000) + (501 # 100000).
Proof.
  intros Ha0 Ha Hb0 Hb.
  destruct cost_bounds as (B27 & E26 & B20 & E33 & E4 & E2).
  assert (b * (a / b) == a) as Hmul by (field; lra).
  assert (0 <= a / b) as Hq0 by (apply Qle_shift_div_l; lra).
  assert (a / b <= 100000000 + 1) as Hq1.
  { apply Qle_shift_div_r; [lra |]. nra. }
  destruct (@rnd_error s (a / b) 27 Hq0 ltac:(lra) ltac:(lia))
    as (r1 & E1 & Hr10 & Hr1).
  rewrite E26 in Hr1. apply Qabs_Qle_condition in Hr1.
  destruct (@round_error s r1 4 27 Hr10 ltac:(lra) ltac:(lia))
    as (r2 & Er2 & Hr20 & Hr2).
  rewrite E4, E26 in Hr2. apply Qabs_Qle_condition in Hr2.
  assert (- (5003 # 100000000) <= r2 - a / b <= 5003 # 100000000) as Hd
    by lra.
  assert (- (b * (5003 # 100000000)) <= r2 * b - a <=
          b * (5003 # 100000000)) as Hprod.
  { assert (r2 * b - a == b * (r2 - a / b)) as ->
      by (rewrite <- Hmul at 1; ring).
    set (d := r2 - a / b) in *. split; nra. }
  assert (0 <= r2 * b) as Hp0 by nra.
  destruct (@rnd_error s (r2 * b) 20 Hp0 ltac:(nra) ltac:(lia))
    as (r3 & E3 & Hr30 & Hr3).
  rewrite E33 in Hr3. apply Qabs_Qle_condition in Hr3.
  destruct (@round_error s r3 2 20 Hr30 ltac:(nra) ltac:(lia))
    as (r4 & Er4 & Hr40 & Hr4).
  rewrite E2, E33 in Hr4. apply Qabs_Qle_condition in Hr4.
  exists r2, r4. rewrite E1, Er2, E3, Er4.
  repeat split; try assumption; try reflexivity.
  apply Qabs_Qle_condition. split; nra.
Qed.

(** A price read as a positive number. *)
Lemma priced p pr :
  value (Pick.price p) = Some pr -> 1 # 100 <= pr ->
  exists pm, Pick.price p = Fin false pm /\ Qabs pm == pr /\
             Qeq_bool pm 0 = false.
Proof.
  destruct (Pick.price p) as [| | sp pm]; try discriminate.
  cbn [value]. intros H Hpr. injection H as <-.
  pose proof (Qabs_nonneg pm) as Hp.
  destruct sp; cbn [sval] in *; [lra |].
  exists pm. split; [reflexivity |]. split; [reflexivity |].
  destruct (Qeq_bool pm 0) eqn:E; [| reflexivity].
  apply Qeq_bool_iff in E. rewrite E in Hpr. cbn in Hpr. lra.
Qed.

(** The cost of every entry stays near the share of the budget it was
    bought for: for a finite budget of magnitude at most 10^6 and prices
    between 0.01 and 10^5, the cost of an entry is within
    [0.00006 * price + 0.006] of [budget / count], and within
    [0.00006 * price + 0.011] of the allocation shown.  The term in the
    price is the rounding of the shares to four decimals. *)
Theorem cost_tracks_the_allocation
    budget b picks take_profit_pct stop_loss_pct :
  value budget = Some b -> Qabs b <= 1000000 ->
  picks <> [] -> (Z.of_nat (length picks) < 2 ^ 53)%Z ->
  Forall (fun p => exists pr, value (Pick.price p) = Some pr /\
                              1 # 100 <= pr /\ pr <= 100000) picks ->
  exists plan,
    outcome (allocate_budget budget picks take_profit_pct stop_loss_pct) =
      Ok plan /\
    Forall (fun e =>
              exists cost allocation price,
                value (Entry.cost e) = Some cost /\
                value (Entry.allocation e) = Some allocation /\
                value (Entry.price e) = Some price /\
                Qabs (cost - b / inject_Z (Z.of_nat (length picks))) <=
                  price * (6 # 100000) + (6 # 1000) /\
                Qabs (cost - allocation) <=
                  price * (6 # 100000) + (11 # 1000)) plan.
Proof.
  intros Hval Hmag Hne Hlen Hprices.
  assert (Forall nonzero_price picks) as Hnz.
  { eapply Forall_impl; [| exact Hprices].
    intros p (pr & Hv & Hlo & _).
    destruct (priced p Hv Hlo) as (pm & E & _ & Z).
    unfold nonzero_price. now rewrite E. }
  rewrite (allocate_budget_ok budget take_profit_pct stop_loss_pct Hne Hnz).
  eexists. split; [reflexivity |].
  destruct budget as [| | sb mb]; try discriminate.
  cbn [value] in Hval. injection Hval as <-.
  destruct cost_bounds as (B27 & E26 & B20 & E33 & E4 & E2).
  set (n := Z.of_nat (length picks)) in *.
  assert (1 <= n)%Z as Hn1
    by (subst n; destruct picks; [congruence | cbn; lia]).
  set (N := inject_Z n).
  assert (1 <= N) as HN1.
  { unfold N. change 1 with (inject_Z 1). now rewrite <- Zle_Qle. }
  pose proof (Qabs_nonneg mb) as Hm0.
  assert (Qabs mb <= 1000000) as Hm.
  { destruct sb; cbn [sval] in Hmag; [rewrite Qabs_opp in Hmag |];
      rewrite (Qabs_pos _ Hm0) in Hmag; exact Hmag. }
  clear Hmag.
  (* the share of one pick *)
  set (per := fdiv (Fin sb mb) (of_int n)).
  assert (exists r0, per = Fin sb r0 /\ 0 <= r0 /\
                     r0 <= 1000000 + (1 # 1000) /\
                     Qabs (r0 - Qabs mb / N) <= 1 # 8589934592)
    as (r0 & Eper & Hr00 & Hr01 & Hr0).
  { unfold per. rewrite of_int_exact by lia. fold N. cbn [fdiv].
    assert (Qeq_bool N 0 = false) as ->.
    { destruct (Qeq_bool N 0) eqn:E; [| reflexivity].
      apply Qeq_bool_iff in E. lra. }
    rewrite xorb_false_r, rnd_abs.
    assert (Qabs (mb / N) == Qabs mb / N) as D.
    { unfold Qdiv. rewrite Qabs_Qmult, Qabs_Qinv.
      now rewrite (Qabs_pos N) by lra. }
    rewrite (rnd_compat sb D).
    assert (0 <= Qabs mb / N) as Hq0 by (apply Qle_shift_div_l; lra).
    assert (Qabs mb / N <= 1000000) as Hq1.
    { apply Qle_shift_div_r; [lra |]. nra. }
    destruct (@rnd_error sb (Qabs mb / N) 20 Hq0 ltac:(lra) ltac:(lia))
      as (r0 & Er0 & Hr00 & Hr0).
    rewrite E33 in Hr0. exists r0. repeat split; try assumption.
    apply Qabs_Qle_condition in Hr0. lra. }
  apply Qabs_Qle_condition in Hr0.
  (* the allocation shown *)
  destruct (@round_error sb r0 2 20 Hr00 ltac:(lra) ltac:(lia))
    as (ra & Ea & Hra0 & Hra).
  rewrite E2, E33 in Hra. apply Qabs_Qle_condition in Hra.
  (* one entry *)
  apply Forall_forall. intros e He. apply in_map_iff in He.
  destruct He as (p & <- & Hp).
  rewrite Forall_forall in Hprices.
  destruct (Hprices p Hp) as (pr & Hv & Hlo & Hhi).
  destruct (priced p Hv Hlo) as (pm & Eprice & Epm & Zpm).
  destruct (@cost_of_share sb r0 pr Hr00 Hr01 Hlo Hhi)
    as (r2 & r4 & Er2 & Hr20 & Er4 & Hr40 & Hr4).
  apply Qabs_Qle_condition in Hr4.
  assert (Entry.cost (entry_of per take_profit_pct stop_loss_pct p) =
          Fin sb r4) as Ecost.
  { unfold entry_of. cbn [Entry.cost]. fold n. fold per.
    rewrite Eper, Eprice. cbn [fdiv]. rewrite Zpm, xorb_false_r, rnd_abs.
    assert (Qabs (r0 / pm) == r0 / pr) as D1.
    { unfold Qdiv. rewrite Qabs_Qmult, Qabs_Qinv, Epm.
      now rewrite (Qabs_pos r0) by assumption. }
    rewrite (rnd_compat sb D1), Er2. cbn [fmul].
    rewrite xorb_false_r, rnd_abs.
    assert (Qabs (r2 * pm) == r2 * pr) as D2.
    { rewrite Qabs_Qmult, Epm. now rewrite (Qabs_pos r2) by assumption. }
    now rewrite (rnd_compat sb D2). }
  assert (Entry.allocation (entry_of per take_profit_pct stop_loss_pct p) =
          Fin sb ra) as Ealloc.
  { unfold entry_of. cbn [Entry.allocation]. fold n. fold per.
    now rewrite Eper. }
  exists (sval sb r4), (sval sb ra), pr.
  rewrite Ecost, Ealloc. cbn [value].
  split; [reflexivity |]. split; [reflexivity |].
  split; [unfold entry_of; cbn [Entry.price]; exact Hv |].
  fold N.
  assert (sval sb r4 == (if sb then - r4 else r4)) as S4
    by (destruct sb; cbn [sval]; rewrite (Qabs_pos r4) by assumption;
        reflexivity).
  assert (sval sb ra == (if sb then - ra else ra)) as Sa
    by (destruct sb; cbn [sval]; rewrite (Qabs_pos ra) by assumption;
        reflexivity).
  assert (sval sb mb / N == (if sb then - (Qabs mb / N) else Qabs mb / N))
    as Sm by (destruct sb; cbn [sval]; field; lra).
  rewrite S4, Sa, Sm.
  split; apply Qabs_Qle_condition; destruct sb; split; lra.
Qed.

Lemma cost_tracks_the_allocation_witness :
  exists plan,
    outcome (allocate_budget (lit 100)
               [pick_at String.EmptyString (lit 7000)]
               (lit (10 # 100)) (lit (5 # 100))) = Ok plan /\
    map Entry.shares plan = [lit (143 # 10000)] /\
    map Entry.allocation plan = [lit 100] /\
    map Entry.cost plan = [lit (1001 # 10)] /\
    Forall (fun e =>
              exists cost allocation price,
                value (Entry.cost e) = Some cost /\
                value (Entry.allocation e) = Some allocation /\
                value (Entry.price e) = Some price /\
                Qabs (cost - 100 / inject_Z 1) <=
                  price * (6 # 100000) + (6 # 1000) /\
                Qabs (cost - allocation) <=
                  price * (6 # 100000) + (11 # 1000)) plan.
Proof.
  destruct (@cost_tracks_the_allocation (lit 100) 100
              [pick_at String.EmptyString (lit 7000)]
              (lit (10 # 100)) (lit (5 # 100)))
    as (plan & E & H).
  - vm_compute. reflexivity.
  - vm_compute. discriminate.
  - discriminate.
  - vm_compute. reflexivity.
  - constructor; [| constructor]. exists 7000.
    split; [vm_compute; reflexivity |].
    split; vm_compute; discriminate.
  - exists plan. split; [exact E |].
    assert (outcome (allocate_budget (lit 100)
                       [pick_at String.EmptyString (lit 7000)]
                       (lit (10 # 100)) (lit (5 # 100))) =
            Ok [entry_of (lit 100) (lit (10 # 100)) (lit (5 # 100))
                  (pick_at String.EmptyString (lit 7000))]) as E'
      by (vm_compute; reflexivity).
    rewrite E' in E. injection E as <-.
    split; [vm_compute; reflexivity |].
    split; [vm_compute; reflexivity |].
    split; [vm_compute; reflexivity |]. exact H.
Defined.

(** The count of a non-empty list converts to a finite float above
    zero.  A list has at most [sys.maxsize = 2^63 - 1] entries. *)
Lemma count_finite_positive (picks : list Pick.t) :
  picks <> [] -> (Z.of_nat (length picks) < 2 ^ 63)%Z ->
  finite_positive (of_int (Z.of_nat (length picks))).
Proof.
  intros Hne Hlt.
  set (n := Z.of_nat (length picks)) in *.
  assert (1 <= n)%Z as Hn by (subst n; destruct picks; [congruence | cbn; lia]).
  assert (1 <= inject_Z n) as Hq
    by (change 1 with (inject_Z 1); now rewrite <- Zle_Qle).
  assert (inject_Z n <= inject_Z (2 ^ 63)) as Hq'
    by (rewrite <- Zle_Qle; lia).
  unfold of_int, lit.
  assert (Qle_bool 0 (inject_Z n) = true) as -> by (apply Qle_bool_iff; lra).
  cbn [negb].
  assert (Qabs (inject_Z n) == inject_Z n) as An by (apply Qabs_pos; lra).
  assert (rnd false (inject_Z (2 ^ 63)) = Fin false (inject_Z (2 ^ 63))) as Top
    by (vm_compute; reflexivity).
  destruct (@rnd_mono false (inject_Z n) (inject_Z (2 ^ 63)))
    as [Over | (a & b & Ea & _ & _ & _)].
  { rewrite An, Qabs_pos by lra. exact Hq'. }
  { rewrite Top in Over. discriminate. }
  destruct (@rnd_mono false 1 (inject_Z n))
    as [Over | (a' & b' & E1 & En & _ & Hab)].
  { rewrite An. change (Qabs 1) with 1. exact Hq. }
  { rewrite Ea in Over. discriminate. }
  destruct of_int_0_1 as (_ & _ & One). rewrite One in E1.
  injection E1 as <-.
  exists b'. split; [exact En | lra].
Qed.

(** Neither the size nor the sign of the budget matters to
    [allocate_budget]: for a non-empty list of picks with positive finite
    prices it returns one entry per pick, in the same order, each
    allocated [round(budget / count, 2)]; a negative budget gives
    allocations, shares and costs that carry the negative sign and are
    not above zero. *)
Lemma allocate_budget_any_budget budget picks take_profit_pct stop_loss_pct :
  picks <> [] -> (Z.of_nat (length picks) < 2 ^ 63)%Z ->
  Forall (fun p => Spec.positive (Pick.price p) = true /\
                   is_finite (Pick.price p) = true) picks ->
  exists plan,
    outcome (allocate_budget budget picks take_profit_pct stop_loss_pct) =
      Ok plan /\
    map Entry.symbol plan = map Pick.symbol picks /\
    Forall (fun e => Entry.allocation e =
              round (fdiv budget (of_int (Z.of_nat (length picks)))) 2)
           plan /\
    (Spec.negative budget = true ->
     Forall (fun e =>
               (below_zero (Entry.allocation e) /\
                Spec.nonpositive (Entry.allocation e) = true) /\
               (below_zero (Entry.shares e) /\
                Spec.nonpositive (Entry.shares e) = true) /\
               (below_zero (Entry.cost e) /\
                Spec.nonpositive (Entry.cost e) = true)) plan).
Proof.
  intros Hne Hlen Hprices.
  set (tp := take_profit_pct). set (sl := stop_loss_pct).
  assert (Forall nonzero_price picks) as Hnz.
  { eapply Forall_impl; [| exact Hprices].
    intros p [Hp _]. now apply positive_nonzero. }
  rewrite (allocate_budget_ok budget tp sl Hne Hnz).
  eexists. split; [reflexivity |].
  set (per := fdiv budget (of_int (Z.of_nat (length picks)))).
  split; [| split].
  - rewrite map_map. reflexivity.
  - apply Forall_forall. intros e He. apply in_map_iff in He.
    destruct He as (p & <- & _). reflexivity.
  - intros Hneg.
    assert (below_zero per) as Hper.
    { apply fdiv_below_zero;
        [now apply negative_below_zero | now apply count_finite_positive]. }
    apply Forall_forall. intros e He. apply in_map_iff in He.
    destruct He as (p & <- & Hin).
    destruct (proj1 (Forall_forall _ _) Hprices p Hin) as [Hp Hf].
    pose proof (positive_finite _ Hp Hf) as Hfp.
    cbn [Spec.entry_of Entry.allocation Entry.shares Entry.cost].
    assert (forall x, below_zero x ->
              below_zero x /\ Spec.nonpositive x = true) as both
      by (intros x Hx; split; [exact Hx | now apply below_zero_nonpositive]).
    split; [| split]; apply both.
    + now apply round_below_zero.
    + apply round_below_zero. now apply fdiv_below_zero.
    + apply round_below_zero. apply fmul_below_zero; [| exact Hfp].
      apply round_below_zero. now apply fdiv_below_zero.
Qed.

End AllocationFacts.

(* ================================================================== *)
(** * Reporter: properties *)
(* ================================================================== *)

Module ReporterFacts.

Import Binary64 Py Reporter Trace.
Import String.
Local Open Scope string_scope.
Local Open Scope list_scope.
Local Infix "+++" := String.append (at level 60, right associativity).

Lemma truthy_some v :
  truthy v = true <-> exists text, v = Some text /\ text <> EmptyString.
Proof.
  split.
  - destruct v as [[| c rest] |]; cbn; try discriminate.
    intros _. eexists. split; [reflexivity | discriminate].
  - intros (text & -> & Hne). destruct text; [congruence | reflexivity].
Qed.

Lemma raise_for_status_ok status :
  raise_for_status status = Ok tt <-> (status < 400 \/ 600 <= status)%nat.
Proof.
  unfold raise_for_status.
  destruct (Nat.leb_spec 400 status) as [A | A],
           (Nat.ltb_spec status 600) as [B | B]; cbn [andb];
    split; intros H; try reflexivity; try discriminate;
    try (exfalso; lia); lia.
Qed.

(** The three ways a call of [send_telegram] goes. *)
Lemma send_telegram_cases token chat post describe msg :
  let run := send_telegram token chat post describe msg in
  (truthy token && truthy chat = false /\
   run = ([Stdout "[warn] Telegram not configured, printing message instead:";
           Stdout msg], Ok false)) \/
  (exists t c,
     token = Some t /\ t <> EmptyString /\
     chat = Some c /\ c <> EmptyString /\
     ((exists status,
         post (bot_url t) c msg = Ok status /\
         raise_for_status status = Ok tt /\
         run = ([TelegramPost (bot_url t) c msg], Ok true)) \/
      (exists e,
         (post (bot_url t) c msg = Raise e \/
          exists status, post (bot_url t) c msg = Ok status /\
                         raise_for_status status = Raise e) /\
         run = ([TelegramPost (bot_url t) c msg;
                 Stdout (String.append "[err] Telegram send failed: "
                           (describe e));
                 Stdout msg], Ok false)))).
Proof.
  cbn zeta. unfold send_telegram.
  destruct token as [t |]; [| left; split; reflexivity].
  destruct chat as [c |];
    [| left; split; [apply andb_false_r | reflexivity]].
  fold (bot_url t).
  destruct (truthy (Some t)) eqn:Tt; cbn [andb];
    [| left; split; reflexivity].
  destruct (truthy (Some c)) eqn:Tc; [| left; split; reflexivity].
  apply truthy_some in Tt as (t0 & Et & Ht). injection Et as <-.
  apply truthy_some in Tc as (c0 & Ec & Hc). injection Ec as <-.
  right. exists t, c. do 4 (split; [reflexivity || assumption |]).
  unfold seq, emit, lift, pure. cbn [app].
  destruct (post (bot_url t) c msg) as [status | e] eqn:P.
  - destruct (raise_for_status status) as [[] | e] eqn:R.
    + left. exists status. repeat split; assumption.
    + right. exists e. split; [| reflexivity].
      right. exists status. split; [reflexivity | assumption].
  - right. exists e. split; [| reflexivity]. now left.
Qed.

(** What every call of [send_telegram] leaves in the trace. *)
Lemma send_telegram_trace token chat post describe msg :
  let run := send_telegram token chat post describe msg in
  (exists sent, returned run = Ok sent) /\
  (posts (events run) = [] \/
   exists t c, token = Some t /\ t <> EmptyString /\
               chat = Some c /\ c <> EmptyString /\
               posts (events run) = [TelegramPost (bot_url t) c msg]) /\
  (truthy token && truthy chat = false -> posts (events run) = []) /\
  (returned run = Ok false -> In msg (printed (events run))).
Proof.
  cbn zeta.
  destruct (send_telegram_cases token chat post describe msg)
    as [[U ->] | (t & c & -> & Ht & -> & Hc & [(st & _ & _ & ->) |
                                               (e & _ & ->)])].
  - cbn. repeat split; try (eexists; reflexivity); auto.
  - cbn [events returned fst snd posts filter is_post printed flat_map app].
    split; [eexists; reflexivity |]. split.
    + right. exists t, c. repeat split; assumption.
    + split; [| discriminate]. intros U.
      destruct t; [congruence |]. destruct c; [congruence |]. discriminate.
  - cbn [events returned fst snd posts filter is_post printed flat_map app].
    split; [eexists; reflexivity |]. split.
    + right. exists t, c. repeat split; assumption.
    + split; [| intros _; right; now left]. intros U.
      destruct t; [congruence |]. destruct c; [congruence |]. discriminate.
Qed.

Section Telegram.

Variable token chat : option string.
Variable post : string -> string -> string -> result nat.
Variable describe : exn -> string.

(** [send_telegram] never raises, and it returns [True] exactly when both
    settings are non-empty and the request came back with a status
    outside 400..599. *)
Theorem send_telegram_true_iff_delivered msg :
  (exists sent,
     returned (send_telegram token chat post describe msg) = Ok sent) /\
  (returned (send_telegram token chat post describe msg) = Ok true <->
   exists t c status,
     token = Some t /\ t <> EmptyString /\
     chat = Some c /\ c <> EmptyString /\
     post (bot_url t) c msg = Ok status /\
     (status < 400 \/ 600 <= status)%nat).
Proof.
  unfold send_telegram.
  destruct token as [t |], chat as [c |];
    try (split; [eexists; reflexivity |];
         split; [discriminate | intros (? & ? & ? & ? & ? & ? & ? & ?);
                                discriminate]).
  fold (bot_url t).
  destruct (truthy (Some t)) eqn:Tt; cbn [andb].
  2: { split; [eexists; reflexivity |]. split; [discriminate |].
       intros (t' & c' & st & E1 & N1 & _). injection E1 as <-.
       destruct t; [congruence | discriminate]. }
  destruct (truthy (Some c)) eqn:Tc.
  2: { split; [eexists; reflexivity |]. split; [discriminate |].
       intros (t' & c' & st & _ & _ & E2 & N2 & _). injection E2 as <-.
       destruct c; [congruence | discriminate]. }
  apply truthy_some in Tt as (t0 & Et & Ht). injection Et as <-.
  apply truthy_some in Tc as (c0 & Ec & Hc). injection Ec as <-.
  unfold seq, emit, lift, pure. cbn [app].
  destruct (post (bot_url t) c msg) as [status | e] eqn:P.
  - destruct (raise_for_status status) as [[] | e] eqn:R; cbn [returned snd].
    + split; [eexists; reflexivity |]. split; [| reflexivity].
      intros _. exists t, c, status. repeat split; try assumption.
      now apply raise_for_status_ok.
    + split; [eexists; reflexivity |]. split; [discriminate |].
      intros (t' & c' & st & E1 & _ & E2 & _ & P' & S).
      injection E1 as <-. injection E2 as <-.
      rewrite P in P'. injection P' as <-.
      apply raise_for_status_ok in S. congruence.
  - cbn [returned snd]. split; [eexists; reflexivity |].
    split; [discriminate |].
    intros (t' & c' & st & E1 & _ & E2 & _ & P' & _).
    injection E1 as <-. injection E2 as <-. congruence.
Qed.

(** Every request [send_telegram] makes goes to the configured bot and
    chat and carries the message; there is at most one; none is made when
    a setting is missing or empty; and when the answer is [False] the
    message has been printed. *)
Theorem send_telegram_posts_or_prints msg :
  let run := send_telegram token chat post describe msg in
  (forall url chat_id text,
     In (TelegramPost url chat_id text) (events run) ->
     exists t, token = Some t /\ t <> EmptyString /\ url = bot_url t /\
               chat = Some chat_id /\ chat_id <> EmptyString /\
               text = msg) /\
  (List.length (posts (events run)) <= 1)%nat /\
  (returned run = Ok false -> In (Stdout msg) (events run)).
Proof.
  cbn zeta. unfold send_telegram.
  assert (forall r : result bool,
            let run : IO bool :=
              ([Stdout "[warn] Telegram not configured, printing message instead:";
                Stdout msg], r) in
            (forall url chat_id text,
               In (TelegramPost url chat_id text) (events run) ->
               exists t, token = Some t /\ t <> EmptyString /\
                         url = bot_url t /\ chat = Some chat_id /\
                         chat_id <> EmptyString /\ text = msg) /\
            (List.length (posts (events run)) <= 1)%nat /\
            (returned run = Ok false -> In (Stdout msg) (events run)))
    as Unconfigured.
  { intros r. cbn. repeat split.
    - intros url chat_id text [H | [H | []]]; discriminate.
    - lia.
    - intros _. right. now left. }
  destruct token as [t |], chat as [c |]; try apply Unconfigured.
  fold (bot_url t).
  destruct (truthy (Some t)) eqn:Tt; cbn [andb]; [| apply Unconfigured].
  destruct (truthy (Some c)) eqn:Tc; [| apply Unconfigured].
  apply truthy_some in Tt as (t0 & Et & Ht). injection Et as <-.
  apply truthy_some in Tc as (c0 & Ec & Hc). injection Ec as <-.
  unfold seq, emit, lift, pure. cbn [app].
  assert (forall url chat_id text rest,
            In (TelegramPost url chat_id text)
               (TelegramPost (bot_url t) c msg :: rest) ->
            (forall e, In e rest -> exists line, e = Stdout line) ->
            exists t', Some t = Some t' /\ t' <> EmptyString /\
                       url = bot_url t' /\ Some c = Some chat_id /\
                       chat_id <> EmptyString /\ text = msg) as Posted.
  { intros url chat_id text rest [H | H] Hrest.
    - injection H as <- <- <-. exists t. repeat split; assumption.
    - destruct (Hrest _ H) as [line E]. discriminate. }
  destruct (post (bot_url t) c msg) as [status | e];
    [destruct (raise_for_status status) as [[] | e] |];
    cbn [events returned fst snd app posts filter is_post List.length].
  - repeat split; [| lia | discriminate].
    intros url chat_id text H. apply (Posted _ _ _ [] H). intros e [].
  - repeat split; [| lia | intros _; right; right; now left].
    intros url chat_id text H. apply (Posted _ _ _ _ H).
    intros e' [<- | [<- | []]]; eexists; reflexivity.
  - repeat split; [| lia | intros _; right; right; now left].
    intros url chat_id text H. apply (Posted _ _ _ _ H).
    intros e' [<- | [<- | []]]; eexists; reflexivity.
Qed.

End Telegram.

Lemma int_of_float_ok x :
  (exists n, int_of_float x = Ok n) <-> is_finite x = true.
Proof.
  destruct x as [| s | s m]; cbn; split; intros H;
    try discriminate; try (destruct H; discriminate);
    try reflexivity; eexists; reflexivity.
Qed.

Section Format.

Variable cfg : Cli.Config.
Variable format_2f format_grouped_2f str_float : float -> string.

Let take_profit := fmul (Cli.TAKE_PROFIT_PCT cfg) (of_int 100).
Let stop_loss := fmul (Cli.STOP_LOSS_PCT cfg) (of_int 100).

Lemma entry_text_cases i p :
  match int_of_float take_profit, int_of_float stop_loss with
  | Ok _, Ok _ => exists text, entry_text cfg format_2f str_float i p = Ok text
  | Ok _, Raise e => entry_text cfg format_2f str_float i p = Raise e
  | Raise e, _ => entry_text cfg format_2f str_float i p = Raise e
  end.
Proof.
  unfold entry_text. fold take_profit stop_loss.
  destruct (int_of_float take_profit) as [a | e]; cbn [rbind];
    [| reflexivity].
  destruct (int_of_float stop_loss) as [b | e]; cbn [rbind];
    [| reflexivity].
  eexists. reflexivity.
Qed.

Lemma entry_lines_ok plan : forall i lines,
  is_finite take_profit = true -> is_finite stop_loss = true ->
  exists texts,
    entry_lines cfg format_2f str_float i plan lines = Ok (lines ++ texts) /\
    List.length texts = List.length plan /\
    forall k p, nth_error plan k = Some p ->
      exists text, entry_text cfg format_2f str_float (i + k) p = Ok text /\
                   nth_error texts k = Some text.
Proof.
  induction plan as [| p rest IH]; intros i lines Ha Hb.
  - exists []. cbn. rewrite app_nil_r. repeat split.
    intros [| k] p H; discriminate.
  - pose proof (entry_text_cases i p) as T.
    apply int_of_float_ok in Ha as Ha'. destruct Ha' as [a Ea].
    apply int_of_float_ok in Hb as Hb'. destruct Hb' as [b Eb].
    rewrite Ea, Eb in T. destruct T as [text Et].
    destruct (IH (S i) (lines ++ [text]) Ha Hb) as (texts & E & Hlen & Hnth).
    exists (text :: texts). cbn [entry_lines]. rewrite Et. cbn [rbind].
    rewrite E, <- app_assoc. cbn [app List.length].
    split; [reflexivity |]. split; [now rewrite Hlen |].
    intros [| k] q H; cbn in H.
    + injection H as <-. exists text. rewrite Nat.add_0_r. now split.
    + destruct (Hnth k q H) as (t & Ht & Hk). exists t.
      rewrite Nat.add_succ_r. now split.
Qed.

Lemma entry_lines_raise plan : forall i lines e,
  plan <> [] ->
  (int_of_float take_profit = Raise e \/
   (exists n, int_of_float take_profit = Ok n) /\
   int_of_float stop_loss = Raise e) ->
  entry_lines cfg format_2f str_float i plan lines = Raise e.
Proof.
  destruct plan as [| p rest]; intros i lines e Hne H; [congruence |].
  cbn [entry_lines]. pose proof (entry_text_cases i p) as T.
  destruct H as [H | [[n Hn] H]].
  - rewrite H in T. now rewrite T.
  - rewrite Hn, H in T. now rewrite T.
Qed.

Lemma format_message_ok budget plan :
  is_finite take_profit = true -> is_finite stop_loss = true ->
  exists text,
    format_message cfg format_2f format_grouped_2f str_float budget plan =
      Ok text.
Proof.
  intros Fa Fb. destruct plan as [| p plan]; [eexists; reflexivity |].
  unfold format_message.
  match goal with
  | |- context [entry_lines _ _ _ 1 (p :: plan) ?lines] =>
      destruct (entry_lines_ok (p :: plan) 1 lines Fa Fb) as (texts & E & _);
      rewrite E
  end.
  cbn [rbind]. eexists. reflexivity.
Qed.

(** On a plan with entries [format_message] raises what the first failing
    [int(...)] raises. *)
Lemma format_message_raises budget plan e :
  plan <> [] ->
  format_message cfg format_2f format_grouped_2f str_float budget plan
    = Raise e <->
  int_of_float take_profit = Raise e \/
  is_finite take_profit = true /\ int_of_float stop_loss = Raise e.
Proof.
  intros Hne. destruct plan as [| p plan]; [congruence |].
  unfold format_message.
  match goal with
  | |- context [entry_lines _ _ _ 1 (p :: plan) ?l] => set (lines := l)
  end.
  destruct (int_of_float take_profit) as [a | e1] eqn:Ea.
  - assert (is_finite take_profit = true) as Fa
      by (apply int_of_float_ok; now exists a).
    destruct (int_of_float stop_loss) as [b | e2] eqn:Eb.
    + assert (is_finite stop_loss = true) as Fb
        by (apply int_of_float_ok; now exists b).
      destruct (entry_lines_ok (p :: plan) 1 lines Fa Fb)
        as (texts & E & _).
      rewrite E. cbn [rbind]. split; [discriminate |].
      intros [H | [_ H]]; discriminate.
    + rewrite (@entry_lines_raise (p :: plan) 1 lines e2
                 ltac:(discriminate))
        by (right; split; [now exists a | exact Eb]).
      cbn [rbind]. split.
      * intros H. injection H as <-. right. now split.
      * intros [H | [_ H]]; congruence.
  - rewrite (@entry_lines_raise (p :: plan) 1 lines e1
               ltac:(discriminate))
      by (left; exact Ea).
    cbn [rbind]. split.
    + intros H. injection H as <-. now left.
    + intros [H | [Fa _]]; [congruence |].
      apply int_of_float_ok in Fa as [a Ha]. fold take_profit in Ea. congruence.
Qed.

(** [format_message] on an empty plan is the fixed warning.  On a plan
    with entries it succeeds exactly when [TAKE_PROFIT_PCT * 100] and
    [STOP_LOSS_PCT * 100] are finite, and the message is then the budget
    line, the count line, one text per entry, numbered from 1 in the order
    of the plan, and the note, joined by newlines.  Otherwise it raises
    the exception of the first [int(...)] that fails: [ValueError] on NaN,
    [OverflowError] on an infinity. *)
Theorem format_message_needs_finite_percentages budget p plan :
  format_message cfg format_2f format_grouped_2f str_float budget [] =
    Ok ("‚ö†Ô∏è No picks found for the universe." +++ nl) /\
  ((exists texts,
      List.length texts = List.length (p :: plan) /\
      (forall k q,
         nth_error (p :: plan) k = Some q ->
         exists line,
           entry_text cfg format_2f str_float (S k) q = Ok line /\
           nth_error texts k = Some line) /\
      format_message cfg format_2f format_grouped_2f str_float budget
        (p :: plan) =
        Ok (Env.join nl
              (["üí∞ Budget: $" +++ format_grouped_2f budget;
                "üìå Picks (top " +++ str_int (Z.of_nat (List.length (p :: plan)))
                +++ "):" +++ nl]
               ++ texts
               ++ [nl +++ "Note: This is a recommendation only. "
                   +++ "Review before trading."]))) <->
   is_finite take_profit = true /\ is_finite stop_loss = true) /\
  (forall e,
     format_message cfg format_2f format_grouped_2f str_float budget
       (p :: plan) = Raise e <->
     int_of_float take_profit = Raise e \/
     is_finite take_profit = true /\ int_of_float stop_loss = Raise e).
Proof.
  split; [reflexivity |].
  pose proof (entry_text_cases 1 p) as T.
  unfold format_message. cbn [app].
  set (lines := ["üí∞ Budget: $" +++ format_grouped_2f budget;
                 "üìå Picks (top " +++ str_int (Z.of_nat (List.length (p :: plan)))
                 +++ "):" +++ nl]).
  destruct (int_of_float take_profit) as [a | e] eqn:Ea.
  - assert (is_finite take_profit = true) as Fa
      by (apply int_of_float_ok; now exists a).
    destruct (int_of_float stop_loss) as [b | e] eqn:Eb.
    + assert (is_finite stop_loss = true) as Fb
        by (apply int_of_float_ok; now exists b).
      destruct (entry_lines_ok (p :: plan) 1 lines Fa Fb)
        as (texts & E & Hlen & Hnth).
      rewrite E. cbn [rbind]. split.
      * split; [intros _; now split |]. intros _.
        exists texts. split; [exact Hlen |]. split; [exact Hnth |].
        now rewrite <- app_assoc.
      * intros e. split; [discriminate |].
        intros [H | [_ H]]; discriminate.
    + rewrite (@entry_lines_raise (p :: plan) 1 lines e ltac:(discriminate))
        by (right; split; [now exists a | rewrite Eb; reflexivity]).
      cbn [rbind]. split.
      * split; [intros (texts & _ & _ & H); discriminate |].
        intros [_ Fb]. apply int_of_float_ok in Fb as [b Hb].
        fold stop_loss in Eb. congruence.
      * intros e'. split.
        -- intros H. injection H as <-. right. now split.
        -- intros [H | [_ H]]; congruence.
  - rewrite (@entry_lines_raise (p :: plan) 1 lines e ltac:(discriminate))
      by (left; rewrite Ea; reflexivity).
    cbn [rbind]. split.
    + split; [intros (texts & _ & _ & H); discriminate |].
      intros [Fa _]. apply int_of_float_ok in Fa as [a Ha].
      fold take_profit in Ea. congruence.
    + intros e'. split.
      * intros H. injection H as <-. now left.
      * intros [H | [Fa _]]; [congruence |].
        apply int_of_float_ok in Fa as [a Ha]. congruence.
Qed.

End Format.

(** [int(0.29 * 100)] is 28: the percentage shown is cut, not rounded. *)
Example percentage_is_truncated :
  int_of_float (fmul (lit (29 # 100)) (of_int 100)) = Ok 28%Z /\
  int_of_float (fmul (lit (10 # 100)) (of_int 100)) = Ok 10%Z /\
  int_of_float (fmul (lit (5 # 100)) (of_int 100)) = Ok 5%Z.
Proof. vm_compute. repeat split; reflexivity. Qed.

End ReporterFacts.

(* ================================================================== *)
(** * A run: properties *)
(* ================================================================== *)

Module RunFacts.

Import Binary64 Py Reporter Trace ReporterFacts AllocationFacts.
Import String.
Local Open Scope string_scope.
Local Open Scope list_scope.

Section Run.

Variable settings : Env.Settings.
Variable L : ScoreEngine.Library.
Variable fetch_history : string -> option (list float).
Variable sort_values : list Pick.t -> list Pick.t.
Variable format_2f format_grouped_2f str_float : float -> string.
Variable post : string -> string -> string -> result nat.
Variable describe : exn -> string.
Variable float_of_string : string -> option float.

Let cfg := Env.config settings.
Let token := Env.TELEGRAM_TOKEN settings.
Let chat := Env.TELEGRAM_CHAT_ID settings.
Let picks :=
  Ranker.pick_top_symbols L fetch_history sort_values
    (Cli.UNIVERSE cfg) (Cli.TOP_N cfg).
Let run :=
  Run.plan_trades_from_budget settings L fetch_history sort_values
    format_2f format_grouped_2f str_float post describe.
Let message := format_message cfg format_2f format_grouped_2f str_float.
Let allocate budget :=
  outcome (BudgetAllocator.allocate_budget budget picks
             (Cli.TAKE_PROFIT_PCT cfg) (Cli.STOP_LOSS_PCT cfg)).

(** The shape of every run of [plan_trades_from_budget]. *)
Lemma run_cases budget :
  (picks = [] /\
   run budget =
     (Stdout "No suitable picks found today."
        :: events (Run.send settings post describe
                     "No suitable picks found today."), Ok None)) \/
  (picks <> [] /\
   ((exists e, allocate budget = Raise e /\ run budget = ([], Raise e)) \/
    (exists plan,
       allocate budget = Ok plan /\
       ((exists e, message budget plan = Raise e /\
                   run budget = ([], Raise e)) \/
        (exists text,
           message budget plan = Ok text /\
           run budget =
             (Stdout (String.append nl (String.append text nl))
                :: events (Run.send settings post describe text),
              Ok (Some plan))))))).
Proof.
  subst run allocate message picks cfg.
  unfold Run.plan_trades_from_budget. cbn zeta.
  generalize (Ranker.pick_top_symbols L fetch_history sort_values
                (Cli.UNIVERSE (Env.config settings))
                (Cli.TOP_N (Env.config settings))).
  intros picks. destruct picks as [| p rest] eqn:E.
  - left. split; [reflexivity |].
    unfold Run.send, seq, emit, pure. fold token chat.
    destruct (send_telegram_trace token chat post describe
                "No suitable picks found today.") as [[sent R] _].
    destruct (send_telegram token chat post describe
                "No suitable picks found today.") as [tr r].
    cbn in R. subst r. cbn. rewrite ?app_nil_r. reflexivity.
  - right. split; [discriminate |]. rewrite <- E. clear E p rest.
    destruct (outcome _) as [plan | e]; [| left; exists e; now split].
    right. exists plan. split; [reflexivity |].
    cbv beta iota delta [seq lift emit pure].
    destruct (format_message _ _ _ _ budget plan) as [text | e].
    + right. exists text. split; [reflexivity |].
      unfold Run.send. fold token chat.
      destruct (send_telegram_trace token chat post describe text)
        as [[sent R] _].
      destruct (send_telegram token chat post describe text) as [tr r].
      cbn in R. subst r. cbn. rewrite ?app_nil_r. reflexivity.
    + left. exists e. split; reflexivity.
Qed.

(** An exception of [plan_trades_from_budget] comes from [allocate_budget]
    or from [format_message], and then nothing has been printed or posted:
    the run fails before its first report. *)
Theorem run_fails_before_reporting budget :
  (forall e,
     returned (run budget) = Raise e <->
     picks <> [] /\
     (allocate budget = Raise e \/
      exists plan, allocate budget = Ok plan /\
                   message budget plan = Raise e)) /\
  ((exists e, returned (run budget) = Raise e) -> events (run budget) = []).
Proof.
  destruct (run_cases budget)
    as [[Hp R] | [Hp [(e & A & R) | (plan & A & [(e & M & R) |
                                                 (text & M & R)])]]];
    rewrite R; cbn [returned events fst snd].
  - split.
    + intros e. split; [discriminate | intros [H _]; congruence].
    + intros [e H]. discriminate.
  - split; [| reflexivity]. intros e'. split.
    + intros H. injection H as <-. split; [assumption | now left].
    + intros [_ [H | (plan & H & _)]]; congruence.
  - split; [| reflexivity]. intros e'. split.
    + intros H. injection H as <-. split; [assumption |].
      right. exists plan. now split.
    + intros [_ [H | (plan' & H & H')]]; congruence.
  - split.
    + intros e. split; [discriminate |].
      intros [_ [H | (plan' & H & H')]]; congruence.
    + intros [e H]. discriminate.
Qed.

(** What [plan_trades_from_budget] returns is fixed by the configuration
    and the market data: it is the value the allocation gives, provided
    the message can be written, whatever [send_telegram] meets. *)
Theorem run_result_ignores_delivery budget :
  returned (run budget) =
    match picks with
    | [] => Ok None
    | _ =>
        rbind (allocate budget) (fun plan =>
        rbind (message budget plan) (fun _ => Ok (Some plan)))
    end.
Proof.
  destruct (run_cases budget)
    as [[Hp R] | [Hp [(e & A & R) | (plan & A & [(e & M & R) |
                                                 (text & M & R)])]]];
    rewrite R; cbn [returned snd].
  - rewrite Hp. reflexivity.
  - destruct picks as [| p rest]; [congruence |]. now rewrite A.
  - destruct picks as [| p rest]; [congruence |].
    rewrite A. cbn [rbind]. now rewrite M.
  - destruct picks as [| p rest]; [congruence |].
    rewrite A. cbn [rbind]. now rewrite M.
Qed.

(** With percentages whose product with 100 is finite, as the defaults
    are, the only exception of a run is [ZeroDivisionError], raised
    exactly when one of the picks has a zero price; in every other case
    the run returns and has printed its report. *)
Theorem run_raises_only_on_zero_price budget :
  is_finite (fmul (Cli.TAKE_PROFIT_PCT cfg) (of_int 100)) = true ->
  is_finite (fmul (Cli.STOP_LOSS_PCT cfg) (of_int 100)) = true ->
  (forall e,
     returned (run budget) = Raise e <->
     e = ZeroDivisionError /\
     Exists (fun p => is_zero (Pick.price p) = true) picks) /\
  (Forall Spec.nonzero_price picks ->
   exists r text,
     returned (run budget) = Ok r /\
     In text (printed (events (run budget)))).
Proof.
  intros Fa Fb.
  assert (forall plan, exists text, message budget plan = Ok text) as Written.
  { intros plan. apply format_message_ok; assumption. }
  assert (forall p, Spec.nonzero_price p ->
                    is_zero (Pick.price p) = true -> False) as Clash.
  { intros p Hn Hz. unfold Spec.nonzero_price in Hn. congruence. }
  pose proof (allocate_budget_outcome budget picks (Cli.TAKE_PROFIT_PCT cfg)
                (Cli.STOP_LOSS_PCT cfg)) as Out.
  fold (allocate budget) in Out.
  destruct (run_cases budget)
    as [[Hp R] | [Hp [(e & A & R) | (plan & A & [(e & M & R) |
                                                 (text & M & R)])]]];
    rewrite R; cbn [returned events fst snd printed flat_map app].
  - split.
    + intros e. split; [discriminate |]. intros [_ H].
      rewrite Hp in H. inversion H.
    + intros _. exists None, "No suitable picks found today.".
      split; [reflexivity | now left].
  - destruct Out as [[Hnz (plan & A')] | [Hz A']]; [congruence |].
    assert (e = ZeroDivisionError) as -> by congruence.
    split.
    + intros e'. split.
      * intros H. injection H as <-. now split.
      * intros [-> _]. reflexivity.
    + intros Hnz. exfalso. apply Exists_exists in Hz as (p & Hin & Hz).
      rewrite Forall_forall in Hnz. exact (Clash p (Hnz p Hin) Hz).
  - destruct (Written plan) as [text M']. congruence.
  - destruct Out as [[Hnz _] | [Hz A']]; [| congruence].
    split.
    + intros e. split; [discriminate |]. intros [_ Hz]. exfalso.
      apply Exists_exists in Hz as (p & Hin & Hz).
      rewrite Forall_forall in Hnz. exact (Clash p (Hnz p Hin) Hz).
    + intros _. exists (Some plan), (String.append nl (String.append text nl)).
      split; [reflexivity | now left].
Qed.

Let program :=
  Run.main settings L fetch_history sort_values format_2f format_grouped_2f
    str_float post describe float_of_string.

(** How the [__main__] block ends. *)
Lemma main_cases args typed :
  (args = None /\
   (forall raw, typed = Ok raw -> float_of_string (Text.strip raw) = None) /\
   program args typed =
     ([Prompt "Enter budget in USD (e.g. 1000): ";
       Stdout "Invalid budget. Exiting."], Run.Exited 1)) \/
  (exists budget asked,
     (args = Some budget /\ asked = [] \/
      args = None /\
      asked = [Prompt "Enter budget in USD (e.g. 1000): "] /\
      exists raw, typed = Ok raw /\
                  float_of_string (Text.strip raw) = Some budget) /\
     program args typed =
       (asked ++ events (run budget), Run.Finished (returned (run budget)))).
Proof.
  subst program run. unfold Run.main.
  destruct args as [budget |].
  - right. exists budget, []. split; [now left |].
    now destruct (Run.plan_trades_from_budget _ _ _ _ _ _ _ _ _ _).
  - destruct typed as [raw | e].
    + destruct (float_of_string (Text.strip raw)) as [budget |] eqn:P.
      * right. exists budget, [Prompt "Enter budget in USD (e.g. 1000): "].
        split; [right; repeat split; exists raw; now split |].
        now destruct (Run.plan_trades_from_budget _ _ _ _ _ _ _ _ _ _).
      * left. repeat split. intros raw' H. now injection H as <-.
    + left. repeat split. intros raw H. discriminate.
Qed.

(** Over a whole run of the program at most one request goes to Telegram,
    to the configured bot and chat; it is made only when
    [plan_trades_from_budget] returns, and it carries the message of what
    is returned.  A run that exits, that raises, or whose token or chat id
    is unset or empty posts nothing. *)
Theorem program_posts_at_most_once args typed :
  posts (fst (program args typed)) = [] \/
  exists t c text r,
    token = Some t /\ t <> EmptyString /\
    chat = Some c /\ c <> EmptyString /\
    posts (fst (program args typed)) = [TelegramPost (bot_url t) c text] /\
    snd (program args typed) = Run.Finished (Ok r) /\
    match r with
    | None => picks = [] /\ text = "No suitable picks found today."
    | Some plan =>
        exists budget, allocate budget = Ok plan /\
                       message budget plan = Ok text
    end.
Proof.
  destruct (main_cases args typed)
    as [(_ & _ & ->) | (budget & asked & Hasked & ->)];
    [left; reflexivity |].
  cbn [fst snd].
  assert (posts (asked ++ events (run budget)) = posts (events (run budget)))
    as ->.
  { destruct Hasked as [[_ ->] | (_ & -> & _)]; reflexivity. }
  assert (forall text,
            posts (events (Run.send settings post describe text)) = [] \/
            exists t c, token = Some t /\ t <> EmptyString /\
                        chat = Some c /\ c <> EmptyString /\
                        posts (events (Run.send settings post describe text))
                          = [TelegramPost (bot_url t) c text]) as Sent.
  { intros text. unfold Run.send. fold token chat.
    apply (send_telegram_trace token chat post describe text). }
  destruct (run_cases budget)
    as [[Hp R] | [Hp [(e & A & R) | (plan & A & [(e & M & R) |
                                                 (text & M & R)])]]];
    rewrite R; cbn [returned events fst snd posts filter is_post];
    try (left; reflexivity).
  - destruct (Sent "No suitable picks found today.")
      as [E | (t & c & Ht & Ht' & Hc & Hc' & E)]; [now left | right].
    exists t, c, "No suitable picks found today.", None.
    repeat split; assumption.
  - destruct (Sent text) as [E | (t & c & Ht & Ht' & Hc & Hc' & E)];
      [now left | right].
    exists t, c, text, (Some plan).
    repeat split; try assumption. exists budget. now split.
Qed.

(** What a run returns, by the prices of the picks and the two
    percentages; the budget has no part in whether it returns. *)
Lemma run_outcome budget :
  (picks = [] /\ returned (run budget) = Ok None) \/
  (picks <> [] /\
   ((Exists (fun p => is_zero (Pick.price p) = true) picks /\
     returned (run budget) = Raise ZeroDivisionError) \/
    (Forall Spec.nonzero_price picks /\
     ((exists e,
         (int_of_float (fmul (Cli.TAKE_PROFIT_PCT cfg) (of_int 100)) = Raise e \/
          is_finite (fmul (Cli.TAKE_PROFIT_PCT cfg) (of_int 100)) = true /\
          int_of_float (fmul (Cli.STOP_LOSS_PCT cfg) (of_int 100)) = Raise e) /\
         returned (run budget) = Raise e) \/
      (is_finite (fmul (Cli.TAKE_PROFIT_PCT cfg) (of_int 100)) = true /\
       is_finite (fmul (Cli.STOP_LOSS_PCT cfg) (of_int 100)) = true /\
       returned (run budget) =
         Ok (Some (map (Spec.entry_of
                          (fdiv budget (of_int (Z.of_nat (List.length picks))))
                          (Cli.TAKE_PROFIT_PCT cfg) (Cli.STOP_LOSS_PCT cfg))
                       picks))))))).
Proof.
  pose proof (allocate_budget_outcome budget picks (Cli.TAKE_PROFIT_PCT cfg)
                (Cli.STOP_LOSS_PCT cfg)) as Out.
  fold (allocate budget) in Out.
  destruct (run_cases budget)
    as [[Hp R] | [Hp [(e & A & R) | (plan & A & [(e & M & R) |
                                                 (text & M & R)])]]];
    rewrite R; cbn [returned snd].
  - left. now split.
  - right. split; [exact Hp |]. left.
    destruct Out as [[Hnz (plan & A')] | [Hz A']]; [congruence |].
    split; [exact Hz | congruence].
  - right. split; [exact Hp |]. right.
    destruct Out as [[Hnz _] | [Hz A']]; [| congruence].
    split; [exact Hnz |]. left. exists e. split; [| reflexivity].
    assert (plan <> []) as Hplan.
    { unfold allocate in A.
      rewrite (BudgetAllocatorFacts.allocate_budget_ok budget
                 (Cli.TAKE_PROFIT_PCT cfg) (Cli.STOP_LOSS_PCT cfg) Hp Hnz) in A.
      cbn in A. injection A as <-. destruct picks; [congruence | discriminate]. }
    apply (@format_message_raises cfg format_2f format_grouped_2f str_float
             budget _ e Hplan). exact M.
  - right. split; [exact Hp |]. right.
    destruct Out as [[Hnz _] | [Hz A']]; [| congruence].
    split; [exact Hnz |]. right.
    unfold allocate in A.
    rewrite (BudgetAllocatorFacts.allocate_budget_ok budget
               (Cli.TAKE_PROFIT_PCT cfg) (Cli.STOP_LOSS_PCT cfg) Hp Hnz) in A.
    cbn in A. injection A as <-.
    assert (map (Spec.entry_of
                   (fdiv budget (of_int (Z.of_nat (List.length picks))))
                   (Cli.TAKE_PROFIT_PCT cfg) (Cli.STOP_LOSS_PCT cfg)) picks
            <> []) as Hplan
      by (destruct picks; [congruence | discriminate]).
    destruct (int_of_float (fmul (Cli.TAKE_PROFIT_PCT cfg) (of_int 100)))
      as [a | e] eqn:Ea.
    + assert (is_finite (fmul (Cli.TAKE_PROFIT_PCT cfg) (of_int 100)) = true)
        as Fa by (apply int_of_float_ok; now exists a).
      destruct (int_of_float (fmul (Cli.STOP_LOSS_PCT cfg) (of_int 100)))
        as [b | e] eqn:Eb.
      * repeat split; [exact Fa | apply int_of_float_ok; now exists b].
      * exfalso.
        assert (message budget
                  (map (Spec.entry_of
                     (fdiv budget (of_int (Z.of_nat (List.length picks))))
                     (Cli.TAKE_PROFIT_PCT cfg) (Cli.STOP_LOSS_PCT cfg)) picks)
                = Raise e) as M'
          by (apply (@format_message_raises cfg format_2f format_grouped_2f
                       str_float budget _ e Hplan); right; now split).
        congruence.
    + exfalso.
      assert (message budget
                (map (Spec.entry_of
                   (fdiv budget (of_int (Z.of_nat (List.length picks))))
                   (Cli.TAKE_PROFIT_PCT cfg) (Cli.STOP_LOSS_PCT cfg)) picks)
              = Raise e) as M'
        by (apply (@format_message_raises cfg format_2f format_grouped_2f
                     str_float budget _ e Hplan); now left).
      congruence.
Qed.


End Run.

(** The default configuration, without Telegram, on the sample data. *)
Lemma run_raises_only_on_zero_price_witness :
  is_finite (fmul (Cli.TAKE_PROFIT_PCT Cli.default_config) (of_int 100))
    = true /\
  is_finite (fmul (Cli.STOP_LOSS_PCT Cli.default_config) (of_int 100))
    = true /\
  exists r text,
    returned
      (Run.plan_trades_from_budget
         {| Env.config := Cli.default_config;
            Env.TELEGRAM_TOKEN := None;
            Env.TELEGRAM_CHAT_ID := None |}
         Spec.sample_library Spec.sample_fetch Ranker.stable_sort
         (fun _ => EmptyString) (fun _ => EmptyString) (fun _ => EmptyString)
         (fun _ _ _ => Ok 200%nat) (fun _ => EmptyString) (lit 1000)) = Ok r /\
    In text
       (printed
          (events
             (Run.plan_trades_from_budget
                {| Env.config := Cli.default_config;
                   Env.TELEGRAM_TOKEN := None;
                   Env.TELEGRAM_CHAT_ID := None |}
                Spec.sample_library Spec.sample_fetch Ranker.stable_sort
                (fun _ => EmptyString) (fun _ => EmptyString)
                (fun _ => EmptyString)
                (fun _ _ _ => Ok 200%nat) (fun _ => EmptyString)
                (lit 1000)))).
Proof.
  assert (is_finite (fmul (Cli.TAKE_PROFIT_PCT Cli.default_config)
                       (of_int 100)) = true) as Fa
    by (vm_compute; reflexivity).
  assert (is_finite (fmul (Cli.STOP_LOSS_PCT Cli.default_config)
                       (of_int 100)) = true) as Fb
    by (vm_compute; reflexivity).
  split; [exact Fa |]. split; [exact Fb |].
  apply (@run_raises_only_on_zero_price
           {| Env.config := Cli.default_config;
              Env.TELEGRAM_TOKEN := None;
              Env.TELEGRAM_CHAT_ID := None |}
           Spec.sample_library Spec.sample_fetch Ranker.stable_sort
           (fun _ => EmptyString) (fun _ => EmptyString)
           (fun _ => EmptyString)
           (fun _ _ _ => Ok 200%nat) (fun _ => EmptyString) (lit 1000)
           Fa Fb).
  vm_compute. repeat constructor.
Defined.



End RunFacts.
